(** * Adv-web [script.js]: a shallow embedding and its verified properties

    [script.js] is the client-side enhancement layer of a static site: it
    injects a shared navigation fragment, toggles a persisted theme, reveals
    content on scroll, opens a lightbox, filters a menu and validates a
    contact form.  The script is embedded as state-passing functions over an
    explicit model of the page (element tree, node objects, local storage,
    listener table, timers), in an error monad for JavaScript exceptions. *)

From Stdlib Require Import NArith ZArith QArith List Ascii Lia.
From stdpp Require Import base option list gmap sets strings.

Set Warnings "-register-all".

Open Scope N_scope.

(** ** JavaScript strings

    A JavaScript string is a sequence of UTF-16 code units. *)

Abbreviation jsstr := (list N).

(** An ASCII literal of the source, as code units. *)
Fixpoint lit (s : string) : jsstr :=
  match s with
  | EmptyString => []
  | String a r => N_of_ascii a :: lit r
  end.

(** [WhiteSpace] and [LineTerminator] code points of ECMAScript: the set that
    [String.prototype.trim] strips and that [\s] matches. *)
Definition is_ws (c : N) : bool :=
  ((9 <=? c) && (c <=? 13))
  || (c =? 32) || (c =? 160) || (c =? 5760)
  || ((8192 <=? c) && (c <=? 8202))
  || (c =? 8232) || (c =? 8233) || (c =? 8239) || (c =? 8287)
  || (c =? 12288) || (c =? 65279).

Fixpoint trim_start (s : jsstr) : jsstr :=
  match s with
  | [] => []
  | c :: r => if is_ws c then trim_start r else s
  end.

(** [s.trim()] *)
Definition trim (s : jsstr) : jsstr := rev (trim_start (rev (trim_start s))).

Fixpoint starts_with (p s : jsstr) : bool :=
  match p, s with
  | [], _ => true
  | _ :: _, [] => false
  | a :: p', b :: s' => (a =? b) && starts_with p' s'
  end.

(** [s.endsWith(p)] *)
Definition ends_with (s p : jsstr) : bool := starts_with (rev p) (rev s).

(** [String(b)] for a boolean *)
Definition string_of_bool (b : bool) : jsstr :=
  if b then lit "true" else lit "false".

(** ** Regular expressions

    The constructs of the one pattern the script uses, with a derivative
    matcher standing for the engine behind [RegExp.prototype.test]. *)

Inductive regex :=
| RNone
| REps
| RChar (c : N)
| RClass (p : N -> bool)
| RSeq (r1 r2 : regex)
| RAlt (r1 r2 : regex)
| RStar (r : regex).

(** [r+] *)
Definition RPlus (r : regex) : regex := RSeq r (RStar r).

Fixpoint nullable (r : regex) : bool :=
  match r with
  | RNone => false
  | REps => true
  | RChar _ => false
  | RClass _ => false
  | RSeq r1 r2 => nullable r1 && nullable r2
  | RAlt r1 r2 => nullable r1 || nullable r2
  | RStar _ => true
  end.

Fixpoint deriv (c : N) (r : regex) : regex :=
  match r with
  | RNone => RNone
  | REps => RNone
  | RChar d => if c =? d then REps else RNone
  | RClass p => if p c then REps else RNone
  | RSeq r1 r2 =>
      if nullable r1
      then RAlt (RSeq (deriv c r1) r2) (deriv c r2)
      else RSeq (deriv c r1) r2
  | RAlt r1 r2 => RAlt (deriv c r1) (deriv c r2)
  | RStar r1 => RSeq (deriv c r1) (RStar r1)
  end.

(** The whole of [s] is a word of [r]. *)
Fixpoint full_match (r : regex) (s : jsstr) : bool :=
  match s with
  | [] => nullable r
  | c :: s' => full_match (deriv c r) s'
  end.

Definition RAny : regex := RClass (fun _ => true).

(** [re.test(s)] for a pattern without flags: some substring of [s] is a word
    of [re]. *)
Definition re_test (re : regex) (s : jsstr) : bool :=
  full_match (RSeq (RStar RAny) (RSeq re (RStar RAny))) s.

(** [\S] *)
Definition not_ws (c : N) : bool := negb (is_ws c).

(** [/\S+@\S+\.\S+/] (line 167) *)
Definition email_re : regex :=
  RSeq (RPlus (RClass not_ws))
    (RSeq (RChar 64)
       (RSeq (RPlus (RClass not_ws))
          (RSeq (RChar 46) (RPlus (RClass not_ws))))).

(** The language of a pattern, the reference for the matcher. *)
Inductive matches : regex -> jsstr -> Prop :=
| MEps : matches REps []
| MChar c : matches (RChar c) [c]
| MClass p c : p c = true -> matches (RClass p) [c]
| MSeq r1 r2 s1 s2 :
    matches r1 s1 -> matches r2 s2 -> matches (RSeq r1 r2) (s1 ++ s2)
| MAltL r1 r2 s : matches r1 s -> matches (RAlt r1 r2) s
| MAltR r1 r2 s : matches r2 s -> matches (RAlt r1 r2) s
| MStarNil r : matches (RStar r) []
| MStarApp r s1 s2 :
    matches r s1 -> matches (RStar r) s2 -> matches (RStar r) (s1 ++ s2).

(** ** Page data

    Every element is a node object in a store; the element tree under
    [document.body] holds node identities only, so a closure that captured an
    element keeps acting on the same object whether or not it is still
    attached.  Of the [html] element only the attributes are kept: nothing
    the script looks up by id, class or tag lives outside the body.  A
    subtree taken out of the document keeps its node objects and loses its
    shape, which no code of the script reads again. *)

Abbreviation node := N.

Record element := Element {
  el_tag : jsstr;                 (* lower-case tag name *)
  el_attrs : gmap jsstr jsstr;    (* attributes, [id] and [data-*] included *)
  el_classes : list jsstr;        (* classList *)
  el_text : jsstr;                (* text held directly by the element *)
  el_display : jsstr;             (* style.display *)
  el_value : jsstr;               (* value of a form control *)
  el_default : jsstr;             (* default value of a form control *)
  el_checked : bool               (* checkedness of a radio button or checkbox *)
}.

Definition with_attrs (f : gmap jsstr jsstr -> gmap jsstr jsstr) (e : element) : element :=
  Element (el_tag e) (f (el_attrs e)) (el_classes e) (el_text e)
    (el_display e) (el_value e) (el_default e) (el_checked e).

Definition with_classes (f : list jsstr -> list jsstr) (e : element) : element :=
  Element (el_tag e) (el_attrs e) (f (el_classes e)) (el_text e)
    (el_display e) (el_value e) (el_default e) (el_checked e).

Definition with_text (t : jsstr) (e : element) : element :=
  Element (el_tag e) (el_attrs e) (el_classes e) t
    (el_display e) (el_value e) (el_default e) (el_checked e).

Definition with_display (d : jsstr) (e : element) : element :=
  Element (el_tag e) (el_attrs e) (el_classes e) (el_text e)
    d (el_value e) (el_default e) (el_checked e).

Definition with_value (v : jsstr) (e : element) : element :=
  Element (el_tag e) (el_attrs e) (el_classes e) (el_text e)
    (el_display e) v (el_default e) (el_checked e).

(** A fresh element, as [document.createElement] returns it. *)
Definition new_element (tag : jsstr) : element :=
  Element tag ∅ [] [] [] [] [] false.

(** [classList.add], [classList.remove], [classList.toggle] *)
Definition cl_add (c : jsstr) (l : list jsstr) : list jsstr :=
  if bool_decide (c ∈ l) then l else l ++ [c].

Definition cl_remove (c : jsstr) (l : list jsstr) : list jsstr :=
  filter (fun x => x <> c) l.

Definition cl_toggle (c : jsstr) (l : list jsstr) : list jsstr :=
  if bool_decide (c ∈ l) then cl_remove c l else l ++ [c].

Definition cl_force (c : jsstr) (force : bool) (l : list jsstr) : list jsstr :=
  if force then cl_add c l else cl_remove c l.

(** The element tree. *)
Inductive tree := T (n : node) (kids : list tree).

Definition root_of (t : tree) : node := match t with T n _ => n end.
Definition kids_of (t : tree) : list tree := match t with T _ ks => ks end.

(** Tree order, the order of [querySelectorAll]. *)
Fixpoint preorder (t : tree) : list node :=
  match t with
  | T n ks => n :: flat_map preorder ks
  end.

(** The first subtree rooted at [n]. *)
Fixpoint subtree (n : node) (t : tree) : option tree :=
  match t with
  | T m ks =>
      if m =? n then Some t
      else (fix go (ks : list tree) : option tree :=
              match ks with
              | [] => None
              | k :: ks' =>
                  match subtree n k with
                  | Some r => Some r
                  | None => go ks'
                  end
              end) ks
  end.

Definition descendants (n : node) (t : tree) : list node :=
  match subtree n t with
  | Some r => flat_map preorder (kids_of r)
  | None => []
  end.

(** [n] followed by its ancestors, innermost first. *)
Fixpoint path_to (n : node) (t : tree) : option (list node) :=
  match t with
  | T m ks =>
      if m =? n then Some [m]
      else (fix go (ks : list tree) : option (list node) :=
              match ks with
              | [] => None
              | k :: ks' =>
                  match path_to n k with
                  | Some p => Some (p ++ [m])
                  | None => go ks'
                  end
              end) ks
  end.

(** Replace the children of [n]. *)
Fixpoint set_kids (n : node) (new : list tree) (t : tree) : tree :=
  match t with
  | T m ks => if m =? n then T m new else T m (map (set_kids n new) ks)
  end.

(** Add [k] as the last child of [n]. *)
Fixpoint append_kid (n : node) (k : tree) (t : tree) : tree :=
  match t with
  | T m ks => if m =? n then T m (ks ++ [k]) else T m (map (append_kid n k) ks)
  end.

(** Detach the subtree rooted at [n]. *)
Fixpoint remove_node (n : node) (t : tree) : tree :=
  match t with
  | T m ks =>
      T m ((fix go (ks : list tree) : list tree :=
              match ks with
              | [] => []
              | k :: ks' =>
                  if root_of k =? n then go ks' else remove_node n k :: go ks'
              end) ks)
  end.

(** Parsed markup that has no node identity yet: the value of a fetched
    fragment once the HTML parser has read it. *)
Inductive ftree := FT (e : element) (kids : list ftree).

(** Create the node objects of a parsed fragment. *)
Fixpoint build (f : ftree) (m : gmap node element) : tree * gmap node element :=
  match f with
  | FT e ks =>
      let n := fresh (dom m) in
      let r := (fix go (ks : list ftree) (m : gmap node element)
                  : list tree * gmap node element :=
                  match ks with
                  | [] => ([], m)
                  | k :: ks' =>
                      let r1 := build k m in
                      let r2 := go ks' (snd r1) in
                      (fst r1 :: fst r2, snd r2)
                  end) ks (<[n := e]> m) in
      (T n (fst r), snd r)
  end.

Fixpoint build_all (fs : list ftree) (m : gmap node element)
  : list tree * gmap node element :=
  match fs with
  | [] => ([], m)
  | f :: fs' =>
      let r1 := build f m in
      let r2 := build_all fs' (snd r1) in
      (fst r1 :: fst r2, snd r2)
  end.

(** The selectors the script uses. *)
Inductive simple_sel :=
| SelClass (c : jsstr)                (* [.c] *)
| SelTag (t : jsstr)                  (* [t] *)
| SelTagAttr (t k v : jsstr).         (* [t[k="v"]] *)

Inductive selector :=
| Sel (s : simple_sel)
| SelDesc (a s : simple_sel).         (* [a s]: an [s] below an [a] *)

Definition matches_simple (e : element) (s : simple_sel) : bool :=
  match s with
  | SelClass c => bool_decide (c ∈ el_classes e)
  | SelTag t => bool_decide (el_tag e = t)
  | SelTagAttr t k v =>
      bool_decide (el_tag e = t) && bool_decide (el_attrs e !! k = Some v)
  end.

Definition node_matches (m : gmap node element) (s : simple_sel) (n : node) : bool :=
  match m !! n with
  | Some e => matches_simple e s
  | None => false
  end.

Fixpoint select_desc (m : gmap node element) (a s : simple_sel)
    (inside : bool) (t : tree) : list node :=
  match t with
  | T n ks =>
      (if inside && node_matches m s n then [n] else [])
      ++ flat_map (select_desc m a s (inside || node_matches m a n)) ks
  end.

Definition select (m : gmap node element) (sel : selector) (t : tree) : list node :=
  match sel with
  | Sel s => List.filter (node_matches m s) (preorder t)
  | SelDesc a s => select_desc m a s false t
  end.

(** ** Closures, events and the browser state *)

Inductive target := TNode (n : node) | TDocument | TWindow.

Inductive evtype := Click | Scroll | KeyDown | Submit | DomContentLoaded.

Record event := Event {
  ev_type : evtype;
  ev_target : target;
  ev_key : jsstr
}.

(** One constructor per function expression passed to [addEventListener],
    with the variables it closes over. *)
Inductive handler :=
| HScroll (header : option node)                 (* line 38 *)
| HMenuToggle (menuToggle navList : node)        (* line 45 *)
| HThemeToggle (themeToggle : node)              (* line 54 *)
| HLightboxClick                                 (* line 94 *)
| HOverlayClick (overlay : node)                 (* line 118 *)
| HOnKey (overlay : node)                        (* line 122 *)
| HChip (filters items : list node) (btn : node) (* line 140 *)
| HSubmit (form : node) (feedback : option node) (* line 157 *)
| HDomReady                                      (* line 198 *)
| HMenuTrailing (menuToggle navList : node).     (* line 216 *)

(** The function expressions passed to [setTimeout]. *)
Inductive timer_cb :=
| TClearFeedback (feedback : option node)        (* line 175 *)
| TFallback.                                     (* line 199 *)

Record listener := Listener {
  l_target : target;
  l_type : evtype;
  l_handler : handler
}.

Record timer := Timer {
  t_due : N;
  t_cb : timer_cb
}.

Inductive exn :=
| TypeError                       (* property access on null or undefined *)
| JsError (msg : jsstr)           (* [new Error(msg)] *)
| Failure (name : jsstr).         (* a rejection supplied by the environment *)

(** The named functions of the script, for the call log. *)
Inductive fn :=
| FsetupNavbarFeatures
| FsetupFadeOnScroll
| FsetupLightbox
| FsetupMenuFilter
| FsetupContactForm
| FsetupLazyImages.

Global Instance target_eq_dec : EqDecision target.
Proof. solve_decision. Defined.
Global Instance evtype_eq_dec : EqDecision evtype.
Proof. solve_decision. Defined.
Global Instance handler_eq_dec : EqDecision handler.
Proof. solve_decision. Defined.
Global Instance listener_eq_dec : EqDecision listener.
Proof. solve_decision. Defined.
Global Instance fn_eq_dec : EqDecision fn.
Proof. solve_decision. Defined.

Record state := State {
  st_html : gmap jsstr jsstr;       (* attributes of document.documentElement *)
  st_tree : tree;                   (* element tree rooted at document.body *)
  st_nodes : gmap node element;     (* node objects *)
  st_storage : gmap jsstr jsstr;    (* localStorage *)
  st_pathname : jsstr;              (* location.pathname *)
  st_scrollY : Q;                   (* window.scrollY, a finite double *)
  st_listeners : list listener;     (* in registration order *)
  st_observers : list (list node);  (* per IntersectionObserver, what it observes *)
  st_timers : list timer;           (* pending timeouts, by due time *)
  st_now : N;                       (* clock, in ms *)
  st_pending : bool;                (* loadNavbar is suspended on its fetch *)
  st_fetches : list jsstr;          (* requests issued *)
  st_console : list (jsstr * exn);  (* console.error *)
  st_uncaught : list exn;           (* errors that escaped a callback *)
  st_prevented : bool;              (* defaultPrevented of the event in flight *)
  st_submitted : list node;         (* forms sent by the default action *)
  st_calls : list fn;               (* the named functions entered, in order;
                                       kept for the statements, read by no code *)
  st_resolve : jsstr -> jsstr       (* a URL attribute's value as its property
                                       reads: parsed against the document's
                                       base URL, or as written if that fails *)
}.

(** One update function per field. *)

Definition upd_html (f : gmap jsstr jsstr -> gmap jsstr jsstr) (s : state) : state :=
  State (f (st_html s)) (st_tree s) (st_nodes s) (st_storage s)
    (st_pathname s) (st_scrollY s) (st_listeners s) (st_observers s)
    (st_timers s) (st_now s) (st_pending s) (st_fetches s) (st_console s)
    (st_uncaught s) (st_prevented s) (st_submitted s) (st_calls s)
    (st_resolve s).

Definition upd_tree (f : tree -> tree) (s : state) : state :=
  State (st_html s) (f (st_tree s)) (st_nodes s) (st_storage s)
    (st_pathname s) (st_scrollY s) (st_listeners s) (st_observers s)
    (st_timers s) (st_now s) (st_pending s) (st_fetches s) (st_console s)
    (st_uncaught s) (st_prevented s) (st_submitted s) (st_calls s)
    (st_resolve s).

Definition upd_nodes (f : gmap node element -> gmap node element) (s : state) : state :=
  State (st_html s) (st_tree s) (f (st_nodes s)) (st_storage s)
    (st_pathname s) (st_scrollY s) (st_listeners s) (st_observers s)
    (st_timers s) (st_now s) (st_pending s) (st_fetches s) (st_console s)
    (st_uncaught s) (st_prevented s) (st_submitted s) (st_calls s)
    (st_resolve s).

Definition upd_storage (f : gmap jsstr jsstr -> gmap jsstr jsstr) (s : state) : state :=
  State (st_html s) (st_tree s) (st_nodes s) (f (st_storage s))
    (st_pathname s) (st_scrollY s) (st_listeners s) (st_observers s)
    (st_timers s) (st_now s) (st_pending s) (st_fetches s) (st_console s)
    (st_uncaught s) (st_prevented s) (st_submitted s) (st_calls s)
    (st_resolve s).

Definition upd_scrollY (f : Q -> Q) (s : state) : state :=
  State (st_html s) (st_tree s) (st_nodes s) (st_storage s) (st_pathname s)
    (f (st_scrollY s)) (st_listeners s) (st_observers s) (st_timers s)
    (st_now s) (st_pending s) (st_fetches s) (st_console s) (st_uncaught s)
    (st_prevented s) (st_submitted s) (st_calls s)
    (st_resolve s).

Definition upd_listeners (f : list listener -> list listener) (s : state) : state :=
  State (st_html s) (st_tree s) (st_nodes s) (st_storage s) (st_pathname s)
    (st_scrollY s) (f (st_listeners s)) (st_observers s) (st_timers s)
    (st_now s) (st_pending s) (st_fetches s) (st_console s) (st_uncaught s)
    (st_prevented s) (st_submitted s) (st_calls s)
    (st_resolve s).

Definition upd_observers (f : list (list node) -> list (list node)) (s : state) : state :=
  State (st_html s) (st_tree s) (st_nodes s) (st_storage s) (st_pathname s)
    (st_scrollY s) (st_listeners s) (f (st_observers s)) (st_timers s)
    (st_now s) (st_pending s) (st_fetches s) (st_console s) (st_uncaught s)
    (st_prevented s) (st_submitted s) (st_calls s)
    (st_resolve s).

Definition upd_timers (f : list timer -> list timer) (s : state) : state :=
  State (st_html s) (st_tree s) (st_nodes s) (st_storage s) (st_pathname s)
    (st_scrollY s) (st_listeners s) (st_observers s) (f (st_timers s))
    (st_now s) (st_pending s) (st_fetches s) (st_console s) (st_uncaught s)
    (st_prevented s) (st_submitted s) (st_calls s)
    (st_resolve s).

Definition upd_now (f : N -> N) (s : state) : state :=
  State (st_html s) (st_tree s) (st_nodes s) (st_storage s) (st_pathname s)
    (st_scrollY s) (st_listeners s) (st_observers s) (st_timers s)
    (f (st_now s)) (st_pending s) (st_fetches s) (st_console s)
    (st_uncaught s) (st_prevented s) (st_submitted s) (st_calls s)
    (st_resolve s).

Definition upd_pending (f : bool -> bool) (s : state) : state :=
  State (st_html s) (st_tree s) (st_nodes s) (st_storage s) (st_pathname s)
    (st_scrollY s) (st_listeners s) (st_observers s) (st_timers s) (st_now s)
    (f (st_pending s)) (st_fetches s) (st_console s) (st_uncaught s)
    (st_prevented s) (st_submitted s) (st_calls s)
    (st_resolve s).

Definition upd_fetches (f : list jsstr -> list jsstr) (s : state) : state :=
  State (st_html s) (st_tree s) (st_nodes s) (st_storage s) (st_pathname s)
    (st_scrollY s) (st_listeners s) (st_observers s) (st_timers s) (st_now s)
    (st_pending s) (f (st_fetches s)) (st_console s) (st_uncaught s)
    (st_prevented s) (st_submitted s) (st_calls s)
    (st_resolve s).

Definition upd_console (f : list (jsstr * exn) -> list (jsstr * exn)) (s : state) : state :=
  State (st_html s) (st_tree s) (st_nodes s) (st_storage s) (st_pathname s)
    (st_scrollY s) (st_listeners s) (st_observers s) (st_timers s) (st_now s)
    (st_pending s) (st_fetches s) (f (st_console s)) (st_uncaught s)
    (st_prevented s) (st_submitted s) (st_calls s)
    (st_resolve s).

Definition upd_uncaught (f : list exn -> list exn) (s : state) : state :=
  State (st_html s) (st_tree s) (st_nodes s) (st_storage s) (st_pathname s)
    (st_scrollY s) (st_listeners s) (st_observers s) (st_timers s) (st_now s)
    (st_pending s) (st_fetches s) (st_console s) (f (st_uncaught s))
    (st_prevented s) (st_submitted s) (st_calls s)
    (st_resolve s).

Definition upd_prevented (f : bool -> bool) (s : state) : state :=
  State (st_html s) (st_tree s) (st_nodes s) (st_storage s) (st_pathname s)
    (st_scrollY s) (st_listeners s) (st_observers s) (st_timers s) (st_now s)
    (st_pending s) (st_fetches s) (st_console s) (st_uncaught s)
    (f (st_prevented s)) (st_submitted s) (st_calls s)
    (st_resolve s).

Definition upd_submitted (f : list node -> list node) (s : state) : state :=
  State (st_html s) (st_tree s) (st_nodes s) (st_storage s) (st_pathname s)
    (st_scrollY s) (st_listeners s) (st_observers s) (st_timers s) (st_now s)
    (st_pending s) (st_fetches s) (st_console s) (st_uncaught s)
    (st_prevented s) (f (st_submitted s)) (st_calls s)
    (st_resolve s).

Definition upd_calls (f : list fn -> list fn) (s : state) : state :=
  State (st_html s) (st_tree s) (st_nodes s) (st_storage s) (st_pathname s)
    (st_scrollY s) (st_listeners s) (st_observers s) (st_timers s) (st_now s)
    (st_pending s) (st_fetches s) (st_console s) (st_uncaught s)
    (st_prevented s) (st_submitted s) (f (st_calls s))
    (st_resolve s).

(** ** The monad of script code

    A computation transforms the browser state and either completes normally
    or throws; what it wrote before throwing stays written. *)

Inductive completion (A : Type) :=
| Normal (a : A)
| Throw (e : exn).

Arguments Normal {A} a.
Arguments Throw {A} e.

Definition M (A : Type) : Type := state -> completion A * state.

Definition ret {A} (a : A) : M A := fun s => (Normal a, s).

Definition bind {A B} (m : M A) (k : A -> M B) : M B :=
  fun s =>
    match m s with
    | (Normal a, s') => k a s'
    | (Throw e, s') => (Throw e, s')
    end.

Definition throw {A} (e : exn) : M A := fun s => (Throw e, s).

(** [try { m } catch (err) { h err }] *)
Definition try_catch {A} (m : M A) (h : exn -> M A) : M A :=
  fun s =>
    match m s with
    | (Normal a, s') => (Normal a, s')
    | (Throw e, s') => h e s'
    end.

Definition gets {A} (f : state -> A) : M A := fun s => (Normal (f s), s).

Definition modify (f : state -> state) : M unit := fun s => (Normal tt, f s).

Notation "x <- c1 ;; c2" := (bind c1 (fun x => c2))
  (at level 100, c1 at next level, right associativity).
Notation "c1 ;; c2" := (bind c1 (fun _ => c2))
  (at level 100, right associativity).

(** [l.forEach(f)] *)
Fixpoint forEach {A} (l : list A) (f : A -> M unit) : M unit :=
  match l with
  | [] => ret tt
  | x :: r => f x ;; forEach r f
  end.

(** The state a computation leaves. *)
Definition exec {A} (m : M A) (s : state) : state := snd (m s).

(** ** Browser primitives *)

Definition enter (f : fn) : M unit := modify (upd_calls (fun l => l ++ [f])).

Definition upd_node (n : node) (f : element -> element) : state -> state :=
  upd_nodes (alter f n).

Definition attr_of (s : state) (n : node) (k : jsstr) : option jsstr :=
  match st_nodes s !! n with
  | Some e => el_attrs e !! k
  | None => None
  end.

Definition classes_of (s : state) (n : node) : list jsstr :=
  match st_nodes s !! n with
  | Some e => el_classes e
  | None => []
  end.

Definition has_id (s : state) (i : jsstr) (n : node) : bool :=
  bool_decide (attr_of s n (lit "id") = Some i).

(** The first element in tree order whose id is [i]. *)
Definition by_id (s : state) (i : jsstr) : option node :=
  List.find (has_id s i) (preorder (st_tree s)).

Definition getElementById (i : jsstr) : M (option node) :=
  gets (fun s => by_id s i).

Definition querySelectorAll (sel : selector) : M (list node) :=
  gets (fun s => select (st_nodes s) sel (st_tree s)).

Definition querySelector (sel : selector) : M (option node) :=
  gets (fun s => head (select (st_nodes s) sel (st_tree s))).

(** [el.closest(sel)] for a simple selector *)
Definition closest (n : node) (sel : simple_sel) : M (option node) :=
  gets (fun s =>
          match path_to n (st_tree s) with
          | Some p => List.find (node_matches (st_nodes s) sel) p
          | None => if node_matches (st_nodes s) sel n then Some n else None
          end).

Definition getAttribute (n : node) (k : jsstr) : M (option jsstr) :=
  gets (fun s => attr_of s n k).

Definition setAttribute (n : node) (k v : jsstr) : M unit :=
  modify (upd_node n (with_attrs (insert k v))).

Definition classList_add (n : node) (c : jsstr) : M unit :=
  modify (upd_node n (with_classes (cl_add c))).

Definition classList_remove (n : node) (c : jsstr) : M unit :=
  modify (upd_node n (with_classes (cl_remove c))).

Definition classList_toggle (n : node) (c : jsstr) : M unit :=
  modify (upd_node n (with_classes (cl_toggle c))).

Definition classList_force (n : node) (c : jsstr) (force : bool) : M unit :=
  modify (upd_node n (with_classes (cl_force c force))).

(** [el.textContent = t]: the element keeps no child but the text. *)
Definition set_textContent (n : node) (t : jsstr) : M unit :=
  modify (fun s => upd_node n (with_text t) (upd_tree (set_kids n []) s)).

(** [el.style.display = d] *)
Definition set_display (n : node) (d : jsstr) : M unit :=
  modify (upd_node n (with_display d)).

(** [document.documentElement.getAttribute] and its writers *)
Definition html_getAttribute (k : jsstr) : M (option jsstr) :=
  gets (fun s => st_html s !! k).

Definition html_setAttribute (k v : jsstr) : M unit :=
  modify (upd_html (insert k v)).

Definition html_removeAttribute (k : jsstr) : M unit :=
  modify (upd_html (delete k)).

Definition localStorage_getItem (k : jsstr) : M (option jsstr) :=
  gets (fun s => st_storage s !! k).

Definition localStorage_setItem (k v : jsstr) : M unit :=
  modify (upd_storage (insert k v)).

Definition localStorage_removeItem (k : jsstr) : M unit :=
  modify (upd_storage (delete k)).

Definition createElement (tag : jsstr) : M node :=
  fun s =>
    let n := fresh (dom (st_nodes s)) in
    (Normal n, upd_nodes (insert n (new_element tag)) s).

(** [document.body.appendChild(k)] *)
Definition body_appendChild (k : tree) : M unit :=
  modify (upd_tree (fun t => append_kid (root_of t) k t)).

(** [el.remove()] *)
Definition remove (n : node) : M unit :=
  modify (upd_tree (remove_node n)).

(** [el.innerHTML = html], on what [getElementById] returned *)
Definition set_innerHTML (c : option node) (html : list ftree) : M unit :=
  match c with
  | None => throw TypeError
  | Some n =>
      modify (fun s =>
                let r := build_all html (st_nodes s) in
                upd_tree (set_kids n (fst r)) (upd_nodes (fun _ => snd r) s))
  end.

(** Every function expression the script registers is a fresh function
    object, so registration never finds an equal listener already there. *)
Definition addEventListener (tg : target) (ty : evtype) (h : handler) : M unit :=
  modify (upd_listeners (fun l => l ++ [Listener tg ty h])).

Definition removeEventListener (tg : target) (ty : evtype) (h : handler) : M unit :=
  modify (upd_listeners (filter (fun l => l <> Listener tg ty h))).

Fixpoint insert_timer (t : timer) (l : list timer) : list timer :=
  match l with
  | [] => [t]
  | u :: r => if t_due u <=? t_due t then u :: insert_timer t r else t :: l
  end.

Definition setTimeout (cb : timer_cb) (delay : N) : M unit :=
  modify (fun s => upd_timers (insert_timer (Timer (st_now s + delay) cb)) s).

Definition console_error (label : jsstr) (e : exn) : M unit :=
  modify (upd_console (fun l => l ++ [(label, e)])).

Definition preventDefault : M unit := modify (upd_prevented (fun _ => true)).

Definition new_IntersectionObserver : M nat :=
  fun s => (Normal (length (st_observers s)), upd_observers (fun l => l ++ [[]]) s).

Definition observe (io : nat) (n : node) : M unit :=
  modify (upd_observers (alter (fun l => l ++ [n]) io)).

Definition unobserve (io : nat) (n : node) : M unit :=
  modify (upd_observers (alter (filter (fun x => x <> n)) io)).

(** [fetch(url)] up to the point where the caller awaits it *)
Definition fetch (url : jsstr) : M unit :=
  modify (fun s => upd_pending (fun _ => true) (upd_fetches (fun l => l ++ [url]) s)).

Record response := Response {
  res_ok : bool;
  res_text : exn + list ftree       (* what [res.text()] settles to *)
}.

Inductive fetch_outcome :=
| Rejected (e : exn)
| Resolved (r : response).

(** [await p] once [p] has settled *)
Definition await {A} (p : exn + A) : M A :=
  match p with
  | inl e => throw e
  | inr a => ret a
  end.

Definition await_fetch (o : fetch_outcome) : M response :=
  match o with
  | Rejected e => throw e
  | Resolved r => ret r
  end.

(** [x.textContent = t] where [x] may be null *)
Definition set_textContent_of (x : option node) (t : jsstr) : M unit :=
  match x with
  | Some n => set_textContent n t
  | None => throw TypeError
  end.

(** *** The form and its controls

    [form.nm] goes through the named getter of the form element.  Its
    candidates are the listed elements owned by the form whose [name] or [id]
    is [nm], image buttons left out, in tree order; if there is none, the
    [img] elements below the form with that name.  One candidate is returned
    as it is, several as a [RadioNodeList], and with none the property is
    read off the object itself: undefined, or for [name] the form's own name,
    a string.  (The past names map of the form never matters here: an element
    loses its entry when it leaves the form, and nothing renames one.) *)

Definition tag_of (s : state) (n : node) : jsstr :=
  match st_nodes s !! n with
  | Some e => el_tag e
  | None => []
  end.

Definition is_form (s : state) (n : node) : bool :=
  bool_decide (tag_of s n = lit "form").

(** The form owner of an element in the document: the form its [form]
    attribute names by id, if it has that attribute, and its nearest ancestor
    form otherwise. *)
Definition form_owner (s : state) (n : node) : option node :=
  match attr_of s n (lit "form") with
  | Some i =>
      match by_id s i with
      | Some f => if is_form s f then Some f else None
      | None => None
      end
  | None =>
      match path_to n (st_tree s) with
      | Some (_ :: up) => List.find (is_form s) up
      | _ => None
      end
  end.

Definition owned (s : state) (form n : node) : bool :=
  bool_decide (form_owner s n = Some form).

(** ASCII lower case: the [type] attribute is matched case-insensitively. *)
Definition lower (c : N) : N :=
  if (65 <=? c) && (c <=? 90) then c + 32 else c.

Definition type_is (e : element) (t : jsstr) : bool :=
  bool_decide (map lower (default [] (el_attrs e !! lit "type")) = t).

Definition is_listed (e : element) : bool :=
  bool_decide (el_tag e ∈ [lit "button"; lit "fieldset"; lit "input";
                           lit "object"; lit "output"; lit "select";
                           lit "textarea"]).

Definition is_image_button (e : element) : bool :=
  bool_decide (el_tag e = lit "input") && type_is e (lit "image").

Definition has_name (e : element) (nm : jsstr) : bool :=
  bool_decide (el_attrs e !! lit "name" = Some nm)
  || bool_decide (el_attrs e !! lit "id" = Some nm).

Definition named (s : state) (form : node) (nm : jsstr) (n : node) : bool :=
  match st_nodes s !! n with
  | Some e =>
      is_listed e && negb (is_image_button e) && has_name e nm && owned s form n
  | None => false
  end.

Definition named_img (s : state) (nm : jsstr) (n : node) : bool :=
  match st_nodes s !! n with
  | Some e => bool_decide (el_tag e = lit "img") && has_name e nm
  | None => false
  end.

(** What [form.nm] evaluates to. *)
Inductive named_item :=
| Absent                     (* undefined, or the form's own name *)
| Single (n : node)          (* an element *)
| Several (l : list node).   (* a [RadioNodeList] *)

Definition pick (l : list node) : named_item :=
  match l with
  | [] => Absent
  | [n] => Single n
  | _ => Several l
  end.

Definition form_item (s : state) (form : node) (nm : jsstr) : named_item :=
  if is_form s form
  then
    match List.filter (named s form nm) (preorder (st_tree s)) with
    | [] => pick (List.filter (named_img s nm) (descendants form (st_tree s)))
    | l => pick l
    end
  else Absent.

(** The text content of an element: its own text and that of its
    descendants. *)
Definition text_content (s : state) (n : node) : jsstr :=
  flat_map (fun m => match st_nodes s !! m with
                     | Some e => el_text e
                     | None => []
                     end)
    (n :: descendants n (st_tree s)).

Definition is_checked_radio (s : state) (n : node) : bool :=
  match st_nodes s !! n with
  | Some e =>
      bool_decide (el_tag e = lit "input") && type_is e (lit "radio")
      && el_checked e
  | None => false
  end.

(** [RadioNodeList.value]: for the first checked radio button of the list
    its [value] attribute, or "on" if it has none; "" without a checked
    radio button. *)
Definition radio_value (s : state) (l : list node) : jsstr :=
  match List.find (is_checked_radio s) l with
  | Some n =>
      match attr_of s n (lit "value") with
      | Some v => v
      | None => lit "on"
      end
  | None => []
  end.

(** [.value] of what [form.nm] gave, [None] standing for undefined: a
    fieldset, an object and an image have no such property, an output gives
    its text content. *)
Definition item_value (s : state) (it : named_item) : option jsstr :=
  match it with
  | Absent => None
  | Single n =>
      match st_nodes s !! n with
      | Some e =>
          if bool_decide (el_tag e ∈ [lit "button"; lit "input"; lit "select";
                                      lit "textarea"])
          then Some (el_value e)
          else if bool_decide (el_tag e = lit "output")
               then Some (text_content s n)
               else None
      | None => None
      end
  | Several l => Some (radio_value s l)
  end.

Definition form_field (form : node) (nm : jsstr) : M named_item :=
  gets (fun s => form_item s form nm).

(** [x.value.trim()] up to the call of [trim]: reading [value] off undefined
    throws, and so does calling [trim] on an undefined value. *)
Definition value_of (it : named_item) : M jsstr :=
  v <- gets (fun s => item_value s it) ;;
  match v with
  | Some x => ret x
  | None => throw TypeError
  end.

(** [form.reset()]: every input, select and textarea owned by the form goes
    back to its default value, an input also to its default checkedness; an
    output owned by the form has its content replaced by its text.  The
    elements are collected first.  (The [reset] event fired first has no
    listener in this script.) *)
Definition reset_control (e : element) : element :=
  Element (el_tag e) (el_attrs e) (el_classes e) (el_text e) (el_display e)
    (el_default e) (el_default e)
    (if bool_decide (el_tag e = lit "input")
     then bool_decide (is_Some (el_attrs e !! lit "checked"))
     else el_checked e).

Definition is_resettable (s : state) (form n : node) : bool :=
  match st_nodes s !! n with
  | Some e =>
      bool_decide (el_tag e ∈ [lit "input"; lit "select"; lit "textarea"])
      && owned s form n
  | None => false
  end.

Definition is_output (s : state) (form n : node) : bool :=
  bool_decide (tag_of s n = lit "output") && owned s form n.

Definition replace_text (o : node) : M unit :=
  t <- gets (fun s => text_content s o) ;;
  set_textContent o t.

Definition form_reset (form : node) : M unit :=
  f <- gets (fun s => is_form s form) ;;
  if negb f then throw TypeError
  else
    cs <- gets (fun s => List.filter (is_resettable s form) (preorder (st_tree s))) ;;
    os <- gets (fun s => List.filter (is_output s form) (preorder (st_tree s))) ;;
    forEach cs (fun c => modify (upd_node c reset_control)) ;;
    forEach os replace_text.

(** ** The script *)

Definition sun : jsstr := [9728; 65039].
Definition moon : jsstr := [55356; 57113].

Definition msg_fill : jsstr := lit "Please fill in all fields.".
Definition msg_email : jsstr := lit "Please enter a valid email address.".
Definition msg_thanks : jsstr :=
  lit "Thanks! Your message has been received " ++ [8212]
  ++ lit " we will reply soon.".

(** The argument of [endsWith] is converted to a string: null reads "null". *)
Definition to_string (x : option jsstr) : jsstr :=
  match x with
  | Some v => v
  | None => lit "null"
  end.

(** The active-link pass (lines 69-73 and 224-228). *)
Definition highlight_active_links : M unit :=
  links <- querySelectorAll (SelDesc (SelClass (lit "nav-list")) (SelTag (lit "a"))) ;;
  forEach links (fun link =>
    href <- getAttribute link (lit "href") ;;
    path <- gets st_pathname ;;
    if ends_with path (to_string href)
    then classList_add link (lit "active")
    else ret tt).

(** [setupNavbarFeatures] (lines 22-74) *)
Definition setupNavbarFeatures : M unit :=
  enter FsetupNavbarFeatures ;;
  h <- querySelector (Sel (SelClass (lit "header"))) ;;
  header <- match h with
            | Some _ => ret h
            | None => getElementById (lit "site-header")
            end ;;
  menuToggle <- getElementById (lit "menuToggle") ;;
  navList <- getElementById (lit "main-nav") ;;
  themeToggle <- getElementById (lit "themeToggle") ;;
  saved <- localStorage_getItem (lit "pgc-theme") ;;
  (if bool_decide (saved = Some (lit "dark"))
   then
     html_setAttribute (lit "data-theme") (lit "dark") ;;
     match themeToggle with
     | Some t => set_textContent t sun
     | None => ret tt
     end
   else
     match themeToggle with
     | Some t => set_textContent t moon
     | None => ret tt
     end) ;;
  addEventListener TWindow Scroll (HScroll header) ;;
  match menuToggle, navList with
  | Some mt, Some nl => addEventListener (TNode mt) Click (HMenuToggle mt nl)
  | _, _ => ret tt
  end ;;
  match themeToggle with
  | Some t => addEventListener (TNode t) Click (HThemeToggle t)
  | None => ret tt
  end ;;
  highlight_active_links.

(** The scroll listener (lines 38-41) *)
Definition on_scroll (header : option node) : M unit :=
  match header with
  | None => ret tt
  | Some h =>
      y <- gets st_scrollY ;;
      classList_force h (lit "scrolled") (negb (Qle_bool y 44))
  end.

(** The menu-toggle listener; [cls] is "open" at line 48 and "show" at
    line 219, the two bodies being otherwise the same. *)
Definition on_menu_click (cls : jsstr) (menuToggle navList : node) : M unit :=
  a <- getAttribute menuToggle (lit "aria-expanded") ;;
  let expanded := bool_decide (a = Some (lit "true")) in
  setAttribute menuToggle (lit "aria-expanded") (string_of_bool (negb expanded)) ;;
  classList_toggle navList cls.

(** The theme-toggle listener (lines 54-65) *)
Definition on_theme_click (themeToggle : node) : M unit :=
  a <- html_getAttribute (lit "data-theme") ;;
  let isDark := bool_decide (a = Some (lit "dark")) in
  if isDark
  then
    html_removeAttribute (lit "data-theme") ;;
    localStorage_removeItem (lit "pgc-theme") ;;
    set_textContent themeToggle moon
  else
    html_setAttribute (lit "data-theme") (lit "dark") ;;
    localStorage_setItem (lit "pgc-theme") (lit "dark") ;;
    set_textContent themeToggle sun.

(** [setupFadeOnScroll] (lines 77-89) *)
Definition setupFadeOnScroll : M unit :=
  enter FsetupFadeOnScroll ;;
  faders <- querySelectorAll (Sel (SelClass (lit "fade-in"))) ;;
  if bool_decide (faders = []) then ret tt
  else
    io <- new_IntersectionObserver ;;
    forEach faders (fun el => observe io el).

(** The observer callback (lines 80-87) *)
Definition on_intersect (io : nat) (entries : list (node * bool)) : M unit :=
  forEach entries (fun e =>
    if snd e
    then classList_add (fst e) (lit "visible") ;; unobserve io (fst e)
    else ret tt).

(** [createLightboxRoot] (lines 100-105) *)
Definition createLightboxRoot : M node :=
  r <- createElement (lit "div") ;;
  setAttribute r (lit "id") (lit "lightbox-root") ;;
  body_appendChild (T r []) ;;
  ret r.

(** [setupLightbox] (lines 92-98) *)
Definition setupLightbox : M unit :=
  enter FsetupLightbox ;;
  r <- getElementById (lit "lightbox-root") ;;
  root <- match r with
          | Some x => ret x
          | None => createLightboxRoot
          end ;;
  addEventListener TDocument Click HLightboxClick.

(** [overlayRemove] (lines 123-127) *)
Definition overlayRemove (overlay : node) : M unit :=
  classList_remove overlay (lit "visible") ;;
  remove overlay ;;
  removeEventListener TDocument KeyDown (HOnKey overlay).

(** [openLightbox] (lines 107-131); the overlay gets its image before it is
    appended to the body, and focusing an image changes nothing here. *)
Definition openLightbox (src alt : jsstr) : M unit :=
  overlay <- createElement (lit "div") ;;
  modify (upd_node overlay (with_classes (fun _ => [lit "lightbox-root"; lit "visible"]))) ;;
  setAttribute overlay (lit "tabindex") (lit "-1") ;;
  image <- createElement (lit "img") ;;
  setAttribute image (lit "src") src ;;
  setAttribute image (lit "alt") alt ;;
  addEventListener (TNode overlay) Click (HOverlayClick overlay) ;;
  addEventListener TDocument KeyDown (HOnKey overlay) ;;
  body_appendChild (T overlay [T image []]).

(** [el.src] as the call at line 97 passes it on: on an element that has
    the property, the resolved URL of the attribute, or "" without the
    attribute; on any other element the property is undefined, which the
    setter at line 113 turns into the string "undefined". *)
Definition src_of (s : state) (i : node) : jsstr :=
  match st_nodes s !! i with
  | Some e =>
      if bool_decide (el_tag e ∈ [lit "img"; lit "iframe"; lit "embed";
                                  lit "video"; lit "audio"; lit "source";
                                  lit "track"; lit "input"; lit "script";
                                  lit "frame"])
      then match el_attrs e !! lit "src" with
           | Some v => st_resolve s v
           | None => []
           end
      else lit "undefined"
  | None => lit "undefined"
  end.

(** [el.alt || ''] *)
Definition alt_of (s : state) (i : node) : jsstr :=
  match st_nodes s !! i with
  | Some e =>
      if bool_decide (el_tag e ∈ [lit "img"; lit "area"; lit "input"])
      then default [] (el_attrs e !! lit "alt")
      else []
  | None => []
  end.

(** The delegated click listener (lines 94-98).  A target that is not an
    element, the document or the window, has no [closest]: the call
    throws. *)
Definition on_lightbox_click (ev : event) : M unit :=
  match ev_target ev with
  | TNode n =>
      img <- closest n (SelClass (lit "photo")) ;;
      match img with
      | None => ret tt
      | Some i =>
          src <- gets (fun s => src_of s i) ;;
          alt <- gets (fun s => alt_of s i) ;;
          openLightbox src alt
      end
  | _ => throw TypeError
  end.

(** [setupMenuFilter] (lines 135-150) *)
Definition setupMenuFilter : M unit :=
  enter FsetupMenuFilter ;;
  filters <- querySelectorAll (Sel (SelClass (lit "chip"))) ;;
  items <- querySelectorAll (Sel (SelClass (lit "menu-item"))) ;;
  if bool_decide (filters = []) || bool_decide (items = []) then ret tt
  else
    forEach filters (fun btn =>
      addEventListener (TNode btn) Click (HChip filters items btn)).

(** The chip listener (lines 140-148) *)
Definition on_chip_click (filters items : list node) (btn : node) : M unit :=
  forEach filters (fun b => classList_remove b (lit "active")) ;;
  classList_add btn (lit "active") ;;
  f <- getAttribute btn (lit "data-filter") ;;
  forEach items (fun it =>
    if bool_decide (f = Some (lit "all")) then set_display it []
    else
      c <- getAttribute it (lit "data-category") ;;
      set_display it (if bool_decide (c = f) then [] else lit "none")).

(** [setupContactForm] (lines 153-177) *)
Definition setupContactForm : M unit :=
  enter FsetupContactForm ;;
  form <- getElementById (lit "contactForm") ;;
  match form with
  | None => ret tt
  | Some f =>
      feedback <- getElementById (lit "formFeedback") ;;
      addEventListener (TNode f) Submit (HSubmit f feedback)
  end.

(** [form.nm.value.trim()] *)
Definition trimmed_field (form : node) (nm : jsstr) : M jsstr :=
  c <- form_field form nm ;;
  v <- value_of c ;;
  ret (trim v).

Definition is_empty (s : jsstr) : bool :=
  match s with
  | [] => true
  | _ :: _ => false
  end.

(** The submit listener (lines 157-176) *)
Definition on_submit (form : node) (feedback : option node) : M unit :=
  preventDefault ;;
  name <- trimmed_field form (lit "name") ;;
  email <- trimmed_field form (lit "email") ;;
  message <- trimmed_field form (lit "message") ;;
  if is_empty name || is_empty email || is_empty message
  then set_textContent_of feedback msg_fill
  else
    if negb (re_test email_re email)
    then set_textContent_of feedback msg_email
    else
      set_textContent_of feedback msg_thanks ;;
      form_reset form ;;
      setTimeout (TClearFeedback feedback) 6000.

(** [setupLazyImages] (lines 180-184) *)
Definition setupLazyImages : M unit :=
  enter FsetupLazyImages ;;
  imgs <- querySelectorAll (Sel (SelTagAttr (lit "img") (lit "loading") (lit "lazy"))) ;;
  ret tt.

(** The body of the function passed to [then] (lines 188-195). *)
Definition after_navbar : M unit :=
  setupFadeOnScroll ;;
  setupLightbox ;;
  setupMenuFilter ;;
  setupContactForm ;;
  setupLazyImages.

(** The body of the function passed to [setTimeout] (lines 199-205). *)
Definition fallback : M unit :=
  setupFadeOnScroll ;;
  setupLightbox ;;
  setupMenuFilter ;;
  setupContactForm ;;
  setupLazyImages.

(** [loadNavbar] (lines 9-19) runs to its first [await] when called ... *)
Definition loadNavbar_start : M unit := fetch (lit "navbar.html").

(** ... and through the rest of its [try] block once the fetch has settled.
    Nothing between the two awaits touches the page, so the response and its
    text are delivered together. *)
Definition loadNavbar_try (o : fetch_outcome) : M unit :=
  res <- await_fetch o ;;
  if negb (res_ok res) then throw (JsError (lit "Could not load navbar"))
  else
    html <- await (res_text res) ;;
    c <- getElementById (lit "navbar-container") ;;
    set_innerHTML c html ;;
    setupNavbarFeatures.

Definition loadNavbar_resume (o : fetch_outcome) : M unit :=
  try_catch (loadNavbar_try o)
    (fun err => console_error (lit "Navbar load error:") err).

(** [init] (lines 187-207): the [then] callback waits for [loadNavbar]. *)
Definition init : M unit :=
  loadNavbar_start ;;
  addEventListener TDocument DomContentLoaded HDomReady.

(** The statements after the main module (lines 212-228). *)
Definition trailing : M unit :=
  menuToggle <- getElementById (lit "menuToggle") ;;
  navList <- querySelector (Sel (SelClass (lit "nav-list"))) ;;
  match menuToggle, navList with
  | Some mt, Some nl => addEventListener (TNode mt) Click (HMenuTrailing mt nl)
  | _, _ => ret tt
  end ;;
  highlight_active_links.

(** The whole file, run once when the page loads it. *)
Definition script : M unit := init ;; trailing.

(** ** The event loop *)

Definition run_handler (h : handler) (ev : event) : M unit :=
  match h with
  | HScroll header => on_scroll header
  | HMenuToggle mt nl => on_menu_click (lit "open") mt nl
  | HThemeToggle t => on_theme_click t
  | HLightboxClick => on_lightbox_click ev
  | HOverlayClick overlay =>
      if bool_decide (ev_target ev = TNode overlay) then overlayRemove overlay
      else ret tt
  | HOnKey overlay =>
      if bool_decide (ev_key ev = lit "Escape") then overlayRemove overlay
      else ret tt
  | HChip filters items btn => on_chip_click filters items btn
  | HSubmit form feedback => on_submit form feedback
  | HDomReady => setTimeout TFallback 90
  | HMenuTrailing mt nl => on_menu_click (lit "show") mt nl
  end.

Definition run_timer (cb : timer_cb) : M unit :=
  match cb with
  | TClearFeedback feedback => set_textContent_of feedback []
  | TFallback => fallback
  end.

(** A callback run by the browser: what it throws is reported and goes no
    further. *)
Definition callback (m : M unit) : M unit :=
  try_catch m (fun e => modify (upd_uncaught (fun l => l ++ [e]))).

Definition handlers_at (tg : target) (ty : evtype) (s : state) : list handler :=
  map l_handler
    (List.filter (fun l => bool_decide (l_target l = tg) && bool_decide (l_type l = ty))
       (st_listeners s)).

(** The listeners of one target, as registered when the event reaches it; one
    removed meanwhile is skipped. *)
Definition fire_at (ev : event) (tg : target) : M unit :=
  hs <- gets (handlers_at tg (ev_type ev)) ;;
  forEach hs (fun h =>
    still <- gets (fun s => bool_decide (Listener tg (ev_type ev) h ∈ st_listeners s)) ;;
    if still then callback (run_handler h ev) else ret tt).

(** Target first, then its ancestors, the document and the window. *)
Definition event_path (tg : target) (s : state) : list target :=
  match tg with
  | TNode n =>
      match path_to n (st_tree s) with
      | Some p => map TNode p ++ [TDocument; TWindow]
      | None => [TNode n]
      end
  | TDocument => [TDocument; TWindow]
  | TWindow => [TWindow]
  end.

Definition dispatch (ev : event) : M unit :=
  path <- gets (event_path (ev_target ev)) ;;
  forEach path (fire_at ev).

(** Timers: those due are taken off the list and run in order. *)
Definition due (now : N) (t : timer) : bool := t_due t <=? now.

Definition run_due_timers : M unit :=
  ts <- gets (fun s => List.filter (due (st_now s)) (st_timers s)) ;;
  modify (fun s => upd_timers (List.filter (fun t => negb (due (st_now s) t))) s) ;;
  forEach ts (fun t => callback (run_timer (t_cb t))).

(** What the environment does to the page. *)
Inductive env_event :=
| EFetchSettled (o : fetch_outcome)   (* the navbar request settles *)
| EDomContentLoaded                  (* the document is ready *)
| EAdvance (dt : N)                  (* [dt] ms pass *)
| EClick (n : node)
| EKeyDown (n : node) (key : jsstr)
| EScroll (y : Q)
| EInput (n : node) (v : jsstr)      (* the user edits a control *)
| ESubmit (form : node)
| EIntersect (io : nat) (entries : list (node * bool)).

Definition step (e : env_event) : M unit :=
  match e with
  | EFetchSettled o =>
      p <- gets st_pending ;;
      if p
      then
        modify (upd_pending (fun _ => false)) ;;
        loadNavbar_resume o ;;
        callback after_navbar
      else ret tt
  | EDomContentLoaded => dispatch (Event DomContentLoaded TDocument [])
  | EAdvance dt => modify (upd_now (fun t => t + dt)) ;; run_due_timers
  | EClick n => dispatch (Event Click (TNode n) [])
  | EKeyDown n key => dispatch (Event KeyDown (TNode n) key)
  | EScroll y =>
      modify (upd_scrollY (fun _ => y)) ;;
      dispatch (Event Scroll TDocument [])
  | EInput n v => modify (upd_node n (with_value v))
  | ESubmit form =>
      modify (upd_prevented (fun _ => false)) ;;
      dispatch (Event Submit (TNode form) []) ;;
      p <- gets st_prevented ;;
      if p then ret tt
      else modify (upd_submitted (fun l => l ++ [form]))
  | EIntersect io entries => callback (on_intersect io entries)
  end.

Definition run_event (e : env_event) (s : state) : state := exec (step e) s.

Definition run (es : list env_event) (s : state) : state :=
  fold_left (fun s e => run_event e s) es s.

(** A page as the browser has parsed it, before any script ran. *)
Record page := Page {
  pg_html : gmap jsstr jsstr;
  pg_tree : tree;
  pg_nodes : gmap node element;
  pg_storage : gmap jsstr jsstr;
  pg_pathname : jsstr;
  pg_resolve : jsstr -> jsstr
}.

Definition initial (p : page) : state :=
  State (pg_html p) (pg_tree p) (pg_nodes p) (pg_storage p) (pg_pathname p)
    0%Q [] [] [] 0 false [] [] [] false [] [] (pg_resolve p).

(** The state once the script has run to the end of the file. *)
Definition loaded (p : page) : state := exec script (initial p).

(** Readers used in statements. *)

Definition text_of (s : state) (n : node) : jsstr :=
  match st_nodes s !! n with
  | Some e => el_text e
  | None => []
  end.

Definition display_of (s : state) (n : node) : jsstr :=
  match st_nodes s !! n with
  | Some e => el_display e
  | None => []
  end.

Definition value_at (s : state) (n : node) : jsstr :=
  match st_nodes s !! n with
  | Some e => el_value e
  | None => []
  end.


(** What [form.nm.value.trim()] evaluates to, [None] where it throws. *)
Definition field (s : state) (form : node) (nm : jsstr) : option jsstr :=
  trim <$> item_value s (form_item s form nm).

Definition theme_attr (s : state) : option jsstr := st_html s !! lit "data-theme".
Definition theme_flag (s : state) : option jsstr := st_storage s !! lit "pgc-theme".

(** The light theme as [setupNavbarFeatures] leaves it: no stored flag, and
    the toggle button holding the moon icon and nothing else. *)
Definition light_state (s : state) (themeToggle : node) : Prop :=
  theme_flag s = None
  /\ set_kids themeToggle [] (st_tree s) = st_tree s
  /\ (forall e, st_nodes s !! themeToggle = Some e -> el_text e = moon).

(** What the submit listener does once it has read its three fields
    (lines 162-175). *)
Definition submit_decision (form : node) (feedback : option node)
    (name email message : jsstr) : M unit :=
  if is_empty name || is_empty email || is_empty message
  then set_textContent_of feedback msg_fill
  else
    if negb (re_test email_re email)
    then set_textContent_of feedback msg_email
    else
      set_textContent_of feedback msg_thanks ;;
      form_reset form ;;
      setTimeout (TClearFeedback feedback) 6000.


Definition reset_outputs (s : state) (form : node) : list node :=
  List.filter (is_output s form) (preorder (st_tree s)).




(** What decides which controls a form has: the tree, and the tag and the
    attributes of every element. *)
Definition shape (s : state) : tree * gmap node (jsstr * gmap jsstr jsstr) :=
  (st_tree s, (fun e => (el_tag e, el_attrs e)) <$> st_nodes s).

(** The state in which the submit listener has written [msg] as feedback. *)
Definition with_feedback (fb : node) (msg : jsstr) (s : state) : state :=
  upd_node fb (with_text msg)
    (upd_tree (set_kids fb []) (upd_prevented (fun _ => true) s)).

(** The timer the submit listener sets in state [s]. *)
Definition feedback_timer (s : state) (fb : node) : timer :=
  Timer (st_now s + 6000) (TClearFeedback (Some fb)).

(** What the second loop of the chip listener does to one item, [f] being
    the token of the clicked chip (lines 145-146). *)
Definition show_for (f : option jsstr) (e : element) : element :=
  with_display
    (if bool_decide (f = Some (lit "all")) then []
     else if bool_decide (el_attrs e !! lit "data-category" = f) then []
     else lit "none") e.

(** What one run of the chip listener does to the element [n]. *)
Definition chip_element (filters items : list node) (btn : node)
    (f : option jsstr) (n : node) (e : element) : element :=
  let e1 := if bool_decide (n ∈ filters)
            then with_classes (cl_remove (lit "active")) e else e in
  let e2 := if bool_decide (n = btn)
            then with_classes (cl_add (lit "active")) e1 else e1 in
  if bool_decide (n ∈ items) then show_for f e2 else e2.

(** [aria-expanded] of the menu button reads "true". *)
Definition expanded (s : state) (menuToggle : node) : bool :=
  bool_decide (attr_of s menuToggle (lit "aria-expanded") = Some (lit "true")).

(** ** A sample page

    A page of the site with its header in the markup: the menu button, the
    navigation list and the theme button stand next to an empty navbar
    container, followed by two chips, two menu items, the contact form with
    its feedback paragraph, a gallery image and a section that fades in. *)

Definition elem (tag : string) (attrs : list (string * string))
    (classes : list string) : element :=
  Element (lit tag)
    (list_to_map (map (fun p => (lit (fst p), lit (snd p))) attrs))
    (map lit classes) [] [] [] [] false.

Definition sample_nodes : gmap node element :=
  list_to_map
    [ (1, elem "body" [] []);
      (2, elem "header" [] ["header"]);
      (3, elem "button" [("id", "menuToggle")] []);
      (4, elem "ul" [("id", "main-nav")] ["nav-list"]);
      (5, elem "a" [("href", "menu.html")] []);
      (6, elem "button" [("id", "themeToggle")] []);
      (7, elem "div" [("id", "navbar-container")] []);
      (8, elem "button" [("data-filter", "all")] ["chip"]);
      (9, elem "button" [("data-filter", "drinks")] ["chip"]);
      (10, elem "li" [("data-category", "drinks")] ["menu-item"]);
      (11, elem "li" [("data-category", "food")] ["menu-item"]);
      (12, elem "form" [("id", "contactForm")] []);
      (13, elem "input" [("name", "name")] []);
      (14, elem "input" [("name", "email")] []);
      (15, elem "textarea" [("name", "message")] []);
      (16, elem "p" [("id", "formFeedback")] []);
      (17, elem "img" [("src", "a.png")] ["photo"]);
      (18, elem "section" [] ["fade-in"]) ].

Definition sample_tree : tree :=
  T 1 [ T 2 [T 3 []; T 4 [T 5 []]; T 6 []];
        T 7 [];
        T 8 []; T 9 []; T 10 []; T 11 [];
        T 12 [T 13 []; T 14 []; T 15 []];
        T 16 [];
        T 17 [];
        T 18 [] ].

Definition sample_page : page :=
  Page ∅ sample_tree sample_nodes ∅ (lit "/site/menu.html")
    (fun u => lit "https://example.org/site/" ++ u).

(** A navbar fragment, and the outcomes of fetching it. *)
Definition sample_navbar : list ftree :=
  [FT (elem "nav" [] []) [FT (elem "a" [("href", "index.html")] []) []]].

Definition fetch_ok : fetch_outcome := Resolved (Response true (inr sample_navbar)).
Definition fetch_404 : fetch_outcome := Resolved (Response false (inr [])).
Definition fetch_offline : fetch_outcome := Rejected TypeError.

(** The sample page with the navbar loaded and nothing else done. *)
Definition sample_ready : state := run [EFetchSettled fetch_ok] (loaded sample_page).

(** The same with the contact form filled in. *)
Definition sample_filled (name email message : string) : state :=
  run [EInput 13 (lit name); EInput 14 (lit email); EInput 15 (lit message)]
    sample_ready.

Definition a_click (n : node) : event := Event Click (TNode n) [].
Definition a_submit (n : node) : event := Event Submit (TNode n) [].

(** ** Page load, seen from the scheduler

    What decides when the feature initialisers run: the clock, the pending
    fetch and timers, the [DOMContentLoaded] listeners.  [control] keeps that
    part of the state, with what the initialisers leave behind in it. *)

Definition features : list fn :=
  [FsetupFadeOnScroll; FsetupLightbox; FsetupMenuFilter; FsetupContactForm;
   FsetupLazyImages].

Definition is_feature (f : fn) : bool :=
  match f with
  | FsetupNavbarFeatures => false
  | _ => true
  end.

Definition is_dcl (l : listener) : bool :=
  match l_type l with
  | DomContentLoaded => true
  | _ => false
  end.

Definition is_lightbox (l : listener) : bool :=
  match l_target l, l_type l, l_handler l with
  | TDocument, Click, HLightboxClick => true
  | _, _, _ => false
  end.

(** The feature initialisers called so far, in order. *)
Definition feature_calls (s : state) : list fn :=
  List.filter is_feature (st_calls s).

(** How many lightbox click listeners the document carries. *)
Definition lightbox_listeners (s : state) : nat :=
  length (List.filter is_lightbox (st_listeners s)).

Record control := Control {
  c_now : N;
  c_pending : bool;
  c_fetches : list jsstr;
  c_timers : list timer;
  c_ready : list listener;      (* the DOMContentLoaded listeners *)
  c_lightbox : nat;
  c_calls : list fn
}.

Definition ctl (s : state) : control :=
  Control (st_now s) (st_pending s) (st_fetches s) (st_timers s)
    (List.filter is_dcl (st_listeners s)) (lightbox_listeners s)
    (feature_calls s).

(** The five initialisers, on [control]. *)
Definition c_features (c : control) : control :=
  Control (c_now c) (c_pending c) (c_fetches c) (c_timers c) (c_ready c)
    (S (c_lightbox c)) (c_calls c ++ features).

Definition ready_listener : listener := Listener TDocument DomContentLoaded HDomReady.

(** The three events of a page load, on [control]. *)
Definition astep (e : env_event) (c : control) : control :=
  match e with
  | EFetchSettled _ =>
      if c_pending c
      then c_features (Control (c_now c) false (c_fetches c) (c_timers c)
                         (c_ready c) (c_lightbox c) (c_calls c))
      else c
  | EDomContentLoaded =>
      Control (c_now c) (c_pending c) (c_fetches c)
        (insert_timer (Timer (c_now c + 90) TFallback) (c_timers c))
        (c_ready c) (c_lightbox c) (c_calls c)
  | EAdvance dt =>
      fold_left (fun c _ => c_features c)
        (List.filter (due (c_now c + dt)) (c_timers c))
        (Control (c_now c + dt) (c_pending c) (c_fetches c)
           (List.filter (fun t => negb (due (c_now c + dt) t)) (c_timers c))
           (c_ready c) (c_lightbox c) (c_calls c))
  | _ => c
  end.

Definition arun (es : list env_event) (c : control) : control :=
  fold_left (fun c e => astep e c) es c.

Definition load_event (e : env_event) : bool :=
  match e with
  | EFetchSettled _ | EDomContentLoaded | EAdvance _ => true
  | _ => false
  end.

(** [control] right after the script ran. *)
Definition control0 : control :=
  Control 0 true [lit "navbar.html"] [] [ready_listener] 0 [].

(** During a page load the only listener for [DOMContentLoaded] is the one
    [init] registered, and every pending timer is a fallback. *)
Definition loading (c : control) : Prop :=
  c_ready c = [ready_listener]
  /\ Forall (fun t => t_cb t = TFallback) (c_timers c).

(** The error [loadNavbar] catches, if the request fails. *)
Definition failure_of (o : fetch_outcome) : option exn :=
  match o with
  | Rejected e => Some e
  | Resolved r =>
      if res_ok r
      then match res_text r with
           | inl e => Some e
           | inr _ => None
           end
      else Some (JsError (lit "Could not load navbar"))
  end.

(** Computations that leave a view of the state as it is, whether they
    complete or throw. *)
Definition preserves {V A} (view : state -> V) (m : M A) : Prop :=
  forall s, view (snd (m s)) = view s.

(** Those that leave [control] as it is. *)
Abbreviation keeps := (preserves ctl).

(** What the theme of the page rests on, [t] being the theme button. *)
Definition theme_view (t : node) (s : state)
  : gmap jsstr jsstr * gmap jsstr jsstr * tree * option jsstr :=
  (st_html s, st_storage s, st_tree s, el_text <$> st_nodes s !! t).

(** Computations that complete normally and leave [control] as it is. *)
Definition calm {A} (m : M A) : Prop :=
  forall s, exists a s', m s = (Normal a, s') /\ ctl s' = ctl s.

(** One initialiser, on [control]. *)
Definition c_call (f : fn) (c : control) : control :=
  Control (c_now c) (c_pending c) (c_fetches c) (c_timers c) (c_ready c)
    (c_lightbox c) (c_calls c ++ [f]).

Definition c_light (c : control) : control :=
  Control (c_now c) (c_pending c) (c_fetches c) (c_timers c) (c_ready c)
    (S (c_lightbox c)) (c_calls c).

(** The ways a page load can interleave: [DOMContentLoaded] comes [t0] ms
    after the script ran, and [dt] ms pass after it; the navbar request
    settles before the document is ready, before the fallback timer is looked
    at, or last. *)
Definition fetch_then_ready (o : fetch_outcome) (t0 dt : N) : list env_event :=
  [EFetchSettled o; EAdvance t0; EDomContentLoaded; EAdvance dt].

Definition ready_then_fetch (o : fetch_outcome) (t0 dt : N) : list env_event :=
  [EAdvance t0; EDomContentLoaded; EFetchSettled o; EAdvance dt].

Definition fallback_then_fetch (o : fetch_outcome) (t0 dt : N) : list env_event :=
  [EAdvance t0; EDomContentLoaded; EAdvance dt; EFetchSettled o].

(** The state in which [setupNavbarFeatures] has applied the stored theme
    (lines 29-35), [b] being what it found as theme button. *)
Definition theme_applied (b : option node) (s : state) : state :=
  let s0 := upd_calls (fun l => l ++ [FsetupNavbarFeatures]) s in
  if bool_decide (theme_flag s = Some (lit "dark"))
  then
    let s1 := upd_html (insert (lit "data-theme") (lit "dark")) s0 in
    match b with
    | Some t => upd_node t (with_text sun) (upd_tree (set_kids t []) s1)
    | None => s1
    end
  else
    match b with
    | Some t => upd_node t (with_text moon) (upd_tree (set_kids t []) s0)
    | None => s0
    end.

(** The sample page after a full load, with the navbar fetched. *)
Definition sample_live : state :=
  run (fetch_then_ready fetch_ok 10 90) (loaded sample_page).


(** ** Views for the further properties *)

(** The registered listeners equal to [l]. *)
Definition same_listener (l : listener) (s : state) : list listener :=
  filter (fun x => x = l) (st_listeners s).

(** What a native form submission rests on, besides [defaultPrevented]. *)
Definition submit_view (l : listener) (s : state) : list node * list listener :=
  (st_submitted s, same_listener l s).

(** What the observer callback does for one entry (lines 82-85). *)
Definition reveal (io : nat) (e : node * bool) (s : state) : state :=
  if snd e
  then upd_observers (alter (filter (fun x => x <> fst e)) io)
         (upd_node (fst e) (with_classes (cl_add (lit "visible"))) s)
  else s.

(** The node [createElement] adds next, and the one it adds after that. *)
Definition overlay_of (s : state) : node := fresh (dom (st_nodes s)).

Definition image_of (s : state) : node :=
  fresh ({[overlay_of s]} ∪ dom (st_nodes s)).

(** The links the active-link pass visits, and what it does to one of them
    (lines 69-72). *)
Definition nav_links (s : state) : list node :=
  select (st_nodes s) (SelDesc (SelClass (lit "nav-list")) (SelTag (lit "a")))
    (st_tree s).

Definition points_here (s : state) (link : node) : bool :=
  ends_with (st_pathname s) (to_string (attr_of s link (lit "href"))).

Definition mark_active (link : node) (s : state) : state :=
  if points_here s link
  then upd_node link (with_classes (cl_add (lit "active"))) s else s.

(** [k] runs of the five initialisers in a row. *)
Definition batches (k : nat) : list fn := concat (replicate k features).

(** How often the document became ready in a run of events. *)
Definition is_ready_event (e : env_event) : bool :=
  match e with
  | EDomContentLoaded => true
  | _ => false
  end.

Definition ready_count (es : list env_event) : nat :=
  length (List.filter is_ready_event es).

(** The runs of the initialisers still to come: one for the pending request,
    one for each fallback timer. *)
Definition outstanding (c : control) : nat :=
  (if c_pending c then 1 else 0) + length (c_timers c).

(** The loaded sample page with the contact form filled in. *)
Definition live_filled (name email message : string) : state :=
  run [EInput 13 (lit name); EInput 14 (lit email); EInput 15 (lit message)]
    sample_live.

(** The filled form with a second control named "email" in it. *)
Definition sample_two_emails : state :=
  upd_tree (append_kid 12 (T 100 []))
    (upd_nodes (insert 100 (with_value (lit "jane@example.org")
                              (elem "input" [("name", "email")] [])))
       (sample_filled "Jane" "jane@example.com" "Hello")).
(** * Properties *)

(** ** Strings and patterns *)

Example trim_example : trim (lit "  Jane ") = lit "Jane".
Proof. reflexivity. Qed.

Example email_ok : re_test email_re (lit "jane@example.com") = true.
Proof. reflexivity. Qed.

Example email_bad : re_test email_re (lit "not-an-email") = false.
Proof. reflexivity. Qed.

Example email_inner : re_test email_re (lit "x y@z.w !") = true.
Proof. reflexivity. Qed.

Example email_short : re_test email_re (lit "@b.c") = false.
Proof. reflexivity. Qed.

(** [trim] takes white space off both ends, and nothing else. *)

Lemma trim_start_split s :
  exists pre, s = pre ++ trim_start s /\ forallb is_ws pre = true.
Proof.
  induction s as [|c s IH]; simpl.
  - exists []. split; reflexivity.
  - destruct (is_ws c) eqn:E.
    + destruct IH as (pre & H1 & H2). exists (c :: pre). split.
      * simpl. congruence.
      * simpl. rewrite E. exact H2.
    + exists []. split; reflexivity.
Qed.

Lemma trim_start_head s c r : trim_start s = c :: r -> is_ws c = false.
Proof.
  induction s as [|d s IH]; simpl; [discriminate|].
  destruct (is_ws d) eqn:E; [exact IH|].
  intros H. injection H as <- _. exact E.
Qed.

Theorem trim_spec s :
  exists pre post,
    s = pre ++ trim s ++ post
    /\ forallb is_ws pre = true
    /\ forallb is_ws post = true
    /\ (forall c, head (trim s) = Some c -> is_ws c = false)
    /\ (forall c, head (rev (trim s)) = Some c -> is_ws c = false).
Proof.
  unfold trim.
  destruct (trim_start_split s) as (pre & Hs & Hpre).
  destruct (trim_start_split (rev (trim_start s))) as (q & Hq & Hws).
  set (a := trim_start s) in *. set (b := trim_start (rev a)) in *.
  assert (Ha : a = rev b ++ rev q).
  { rewrite <- (rev_involutive a), Hq, rev_app_distr. reflexivity. }
  exists pre, (rev q). split; [rewrite <- Ha; exact Hs|].
  split; [exact Hpre|]. split; [|split].
  - rewrite forallb_forall in *. intros x Hx. apply Hws.
    apply in_rev. exact Hx.
  - intros c Hc. destruct (rev b) as [|c' r] eqn:Hb; [discriminate Hc|].
    injection Hc as ->. apply (trim_start_head s c (r ++ rev q)).
    fold a. rewrite Ha. reflexivity.
  - intros c Hc. rewrite rev_involutive in Hc.
    destruct b as [|c' r] eqn:Hb; [discriminate Hc|].
    injection Hc as ->. exact (trim_start_head (rev a) c r Hb).
Qed.

(** The derivative matcher decides the language of a pattern. *)

Lemma matches_seq_inv r1 r2 s :
  matches (RSeq r1 r2) s ->
  exists s1 s2, s = s1 ++ s2 /\ matches r1 s1 /\ matches r2 s2.
Proof. inversion 1; subst; eauto. Qed.

Lemma matches_alt_inv r1 r2 s :
  matches (RAlt r1 r2) s -> matches r1 s \/ matches r2 s.
Proof. inversion 1; subst; auto. Qed.

Lemma matches_star_inv r s :
  matches (RStar r) s ->
  s = [] \/ exists c s1 s2, s = c :: s1 ++ s2
                            /\ matches r (c :: s1) /\ matches (RStar r) s2.
Proof.
  intros H. remember (RStar r) as q eqn:Hq. revert Hq.
  induction H as [| | | | | | |r' s1 s2 H1 _ H2 IH2]; intros Hq; try discriminate.
  - left. reflexivity.
  - injection Hq as ->. destruct s1 as [|c s1].
    + apply IH2. reflexivity.
    + right. exists c, s1, s2. auto.
Qed.

Lemma nullable_spec r : nullable r = true <-> matches r [].
Proof.
  induction r as [| | | |r1 IH1 r2 IH2|r1 IH1 r2 IH2|r IH]; simpl.
  - split; [discriminate|inversion 1].
  - split; [constructor|reflexivity].
  - split; [discriminate|inversion 1].
  - split; [discriminate|inversion 1].
  - rewrite andb_true_iff, IH1, IH2. split.
    + intros [H1 H2]. exact (MSeq _ _ [] [] H1 H2).
    + intros H. apply matches_seq_inv in H. destruct H as (s1 & s2 & E & H1 & H2).
      symmetry in E. apply app_eq_nil in E. destruct E as [-> ->]. auto.
  - rewrite orb_true_iff, IH1, IH2. split.
    + intros [H|H]; [apply MAltL|apply MAltR]; exact H.
    + apply matches_alt_inv.
  - split; [constructor|reflexivity].
Qed.

Lemma deriv_spec c r : forall s, matches (deriv c r) s <-> matches r (c :: s).
Proof.
  induction r as [| |d|p|r1 IH1 r2 IH2|r1 IH1 r2 IH2|r IH]; intros s; simpl.
  - split; inversion 1.
  - split; inversion 1.
  - destruct (N.eqb_spec c d) as [->|Hne].
    + split; inversion 1; subst; constructor.
    + split; inversion 1; subst; congruence.
  - destruct (p c) eqn:Hp.
    + split; inversion 1; subst; constructor; exact Hp.
    + split; inversion 1; subst; congruence.
  - assert (Hseq : matches (RSeq (deriv c r1) r2) s ->
                   matches (RSeq r1 r2) (c :: s)).
    { intros H. apply matches_seq_inv in H.
      destruct H as (s1 & s2 & -> & H1 & H2). apply IH1 in H1.
      exact (MSeq _ _ (c :: s1) s2 H1 H2). }
    assert (Hinv : matches (RSeq r1 r2) (c :: s) ->
                   matches (RSeq (deriv c r1) r2) s
                   \/ (matches r1 [] /\ matches r2 (c :: s))).
    { intros H. apply matches_seq_inv in H.
      destruct H as (s1 & s2 & E & H1 & H2). destruct s1 as [|c' s1].
      - simpl in E. subst s2. right. auto.
      - injection E as <- ->. left. apply IH1 in H1.
        exact (MSeq _ _ s1 s2 H1 H2). }
    destruct (nullable r1) eqn:Hn.
    + split.
      * intros H. apply matches_alt_inv in H. destruct H as [H|H].
        -- apply Hseq. exact H.
        -- apply IH2 in H. apply nullable_spec in Hn.
           exact (MSeq _ _ [] (c :: s) Hn H).
      * intros H. destruct (Hinv H) as [H'|[_ H']].
        -- apply MAltL. exact H'.
        -- apply MAltR. apply IH2. exact H'.
    + split; [exact Hseq|].
      intros H. destruct (Hinv H) as [H'|[H' _]]; [exact H'|].
      apply nullable_spec in H'. congruence.
  - split.
    + intros H. apply matches_alt_inv in H.
      destruct H as [H|H]; [apply MAltL, IH1|apply MAltR, IH2]; exact H.
    + intros H. apply matches_alt_inv in H.
      destruct H as [H|H]; [apply MAltL, IH1|apply MAltR, IH2]; exact H.
  - split.
    + intros H. apply matches_seq_inv in H.
      destruct H as (s1 & s2 & -> & H1 & H2). apply IH in H1.
      exact (MStarApp _ (c :: s1) s2 H1 H2).
    + intros H. apply matches_star_inv in H.
      destruct H as [E|(c' & s1 & s2 & E & H1 & H2)]; [discriminate E|].
      injection E as <- ->. apply IH in H1. exact (MSeq _ _ s1 s2 H1 H2).
Qed.

Theorem full_match_spec r s : full_match r s = true <-> matches r s.
Proof.
  revert r. induction s as [|c s IH]; intros r; simpl.
  - apply nullable_spec.
  - rewrite IH. apply deriv_spec.
Qed.

Lemma matches_any_star s : matches (RStar RAny) s.
Proof.
  induction s as [|c s IH]; [constructor|].
  exact (MStarApp _ [c] s (MClass _ c eq_refl) IH).
Qed.

(** [re.test(s)] holds exactly when some substring of [s] is a word of [re]. *)
Theorem re_test_spec re s :
  re_test re s = true
  <-> exists pre m post, s = pre ++ m ++ post /\ matches re m.
Proof.
  unfold re_test. rewrite full_match_spec. split.
  - intros H. apply matches_seq_inv in H.
    destruct H as (pre & rest & -> & _ & H). apply matches_seq_inv in H.
    destruct H as (m & post & -> & H & _). eauto.
  - intros (pre & m & post & -> & H).
    apply MSeq; [apply matches_any_star|].
    apply MSeq; [exact H|apply matches_any_star].
Qed.

Lemma matches_star_class p s :
  matches (RStar (RClass p)) s <-> Forall (fun c => p c = true) s.
Proof.
  split.
  - intros H. remember (RStar (RClass p)) as q eqn:Hq. revert Hq.
    induction H as [| | | | | | |r' s1 s2 H1 _ H2 IH2]; intros Hq; try discriminate.
    + constructor.
    + injection Hq as ->. inversion H1; subst. constructor; auto.
  - induction 1 as [|c s Hc _ IH]; [constructor|].
    exact (MStarApp _ [c] s (MClass _ c Hc) IH).
Qed.

Lemma matches_plus_class p s :
  matches (RPlus (RClass p)) s <-> s <> [] /\ Forall (fun c => p c = true) s.
Proof.
  unfold RPlus. split.
  - intros H. apply matches_seq_inv in H.
    destruct H as (s1 & s2 & -> & H1 & H2).
    inversion H1; subst. apply matches_star_class in H2.
    split; [discriminate|]. constructor; assumption.
  - intros [Hne H]. destruct H as [|c s Hc Hs]; [congruence|].
    apply matches_star_class in Hs.
    exact (MSeq _ _ [c] s (MClass _ c Hc) Hs).
Qed.

(** What line 167 accepts: somewhere in the string, one or more non-space
    code units, an at sign, one or more non-space units, a dot, and one or
    more non-space units. *)
Theorem email_re_spec s :
  re_test email_re s = true
  <-> exists pre a b c post,
        s = pre ++ a ++ [64] ++ b ++ [46] ++ c ++ post
        /\ (a <> [] /\ Forall (fun x => not_ws x = true) a)
        /\ (b <> [] /\ Forall (fun x => not_ws x = true) b)
        /\ (c <> [] /\ Forall (fun x => not_ws x = true) c).
Proof.
  rewrite re_test_spec. unfold email_re. split.
  - intros (pre & m & post & -> & H).
    apply matches_seq_inv in H. destruct H as (a & m1 & -> & Ha & H).
    apply matches_seq_inv in H. destruct H as (x & m2 & -> & Hx & H).
    inversion Hx; subst.
    apply matches_seq_inv in H. destruct H as (b & m3 & -> & Hb & H).
    apply matches_seq_inv in H. destruct H as (y & c & -> & Hy & Hc).
    inversion Hy; subst.
    exists pre, a, b, c, post. rewrite <- !app_assoc.
    split; [reflexivity|].
    split; [apply matches_plus_class; exact Ha|].
    split; apply matches_plus_class; assumption.
  - intros (pre & a & b & c & post & -> & Ha & Hb & Hc).
    exists pre, (a ++ [64] ++ b ++ [46] ++ c), post.
    split; [rewrite <- !app_assoc; reflexivity|].
    apply MSeq; [apply matches_plus_class; exact Ha|].
    apply MSeq; [constructor|].
    apply MSeq; [apply matches_plus_class; exact Hb|].
    apply MSeq; [constructor|apply matches_plus_class; exact Hc].
Qed.

(** ** Running monadic code *)

(** Reduces projections of updated states and elements, and nothing else. *)
Ltac sproj :=
  cbn [st_html st_tree st_nodes st_storage st_pathname st_scrollY st_listeners
       st_observers st_timers st_now st_pending st_fetches st_console
       st_uncaught st_prevented st_submitted st_calls st_resolve
       upd_html upd_tree upd_nodes upd_storage upd_scrollY upd_listeners
       upd_observers upd_timers upd_now upd_pending upd_fetches upd_console
       upd_uncaught upd_prevented upd_submitted upd_calls upd_node
       el_tag el_attrs el_classes el_text el_display el_value el_default
       el_checked with_attrs with_classes with_text with_display with_value
       fst snd].

Tactic Notation "sproj" "in" hyp(H) :=
  cbn [st_html st_tree st_nodes st_storage st_pathname st_scrollY st_listeners
       st_observers st_timers st_now st_pending st_fetches st_console
       st_uncaught st_prevented st_submitted st_calls st_resolve
       upd_html upd_tree upd_nodes upd_storage upd_scrollY upd_listeners
       upd_observers upd_timers upd_now upd_pending upd_fetches upd_console
       upd_uncaught upd_prevented upd_submitted upd_calls upd_node
       el_tag el_attrs el_classes el_text el_display el_value el_default
       el_checked with_attrs with_classes with_text with_display with_value
       fst snd] in H.

Lemma bind_normal {A B} (m : M A) (k : A -> M B) s a s' :
  m s = (Normal a, s') -> bind m k s = k a s'.
Proof. unfold bind. intros ->. reflexivity. Qed.

Lemma bind_throw {A B} (m : M A) (k : A -> M B) s e s' :
  m s = (Throw e, s') -> bind m k s = (Throw e, s').
Proof. unfold bind. intros ->. reflexivity. Qed.

Lemma forEach_modify {A} (l : list A) (f : A -> M unit) (h : A -> state -> state) :
  (forall x s, f x s = (Normal tt, h x s)) ->
  forall s, forEach l f s = (Normal tt, fold_left (fun s x => h x s) l s).
Proof.
  intros Hf. induction l as [|x l IH]; intros s; simpl.
  - reflexivity.
  - unfold bind. rewrite Hf. apply IH.
Qed.

Lemma state_eta s :
  State (st_html s) (st_tree s) (st_nodes s) (st_storage s) (st_pathname s)
    (st_scrollY s) (st_listeners s) (st_observers s) (st_timers s) (st_now s)
    (st_pending s) (st_fetches s) (st_console s) (st_uncaught s)
    (st_prevented s) (st_submitted s) (st_calls s) (st_resolve s) = s.
Proof. destruct s; reflexivity. Qed.

Lemma state_ext (s1 s2 : state) :
  st_html s1 = st_html s2 ->
  st_tree s1 = st_tree s2 ->
  st_nodes s1 = st_nodes s2 ->
  st_storage s1 = st_storage s2 ->
  st_pathname s1 = st_pathname s2 ->
  st_scrollY s1 = st_scrollY s2 ->
  st_listeners s1 = st_listeners s2 ->
  st_observers s1 = st_observers s2 ->
  st_timers s1 = st_timers s2 ->
  st_now s1 = st_now s2 ->
  st_pending s1 = st_pending s2 ->
  st_fetches s1 = st_fetches s2 ->
  st_console s1 = st_console s2 ->
  st_uncaught s1 = st_uncaught s2 ->
  st_prevented s1 = st_prevented s2 ->
  st_submitted s1 = st_submitted s2 ->
  st_calls s1 = st_calls s2 ->
  st_resolve s1 = st_resolve s2 ->
  s1 = s2.
Proof.
  destruct s1, s2; cbn; intros; subst; reflexivity.
Qed.

(** Equality of states, field by field; the fields left alone close at once. *)
Ltac state_eq := apply state_ext; sproj; try reflexivity.

Lemma element_eta e :
  Element (el_tag e) (el_attrs e) (el_classes e) (el_text e) (el_display e)
    (el_value e) (el_default e) (el_checked e) = e.
Proof. destruct e; reflexivity. Qed.

(** Induction on trees, the children by [Forall]. *)
Lemma tree_ind_kids (P : tree -> Prop) :
  (forall n ks, Forall P ks -> P (T n ks)) -> forall t, P t.
Proof.
  intros H. fix IH 1. intros [n ks]. apply H.
  induction ks as [|k ks IHks]; constructor; [apply IH|exact IHks].
Qed.

(** ** Frames *)

Section Frame.

Context {V : Type} (view : state -> V).

Lemma preserves_ret {A} (a : A) : preserves view (ret a).
Proof. intros s. reflexivity. Qed.

Lemma preserves_throw {A} e : preserves view (@throw A e).
Proof. intros s. reflexivity. Qed.

Lemma preserves_gets {A} (f : state -> A) : preserves view (gets f).
Proof. intros s. reflexivity. Qed.

Lemma preserves_bind {A B} (m : M A) (k : A -> M B) :
  preserves view m -> (forall a, preserves view (k a)) -> preserves view (bind m k).
Proof.
  intros Hm Hk s. unfold bind. specialize (Hm s).
  destruct (m s) as [[a|e] s']; cbn [snd] in *.
  - rewrite Hk. exact Hm.
  - exact Hm.
Qed.

Lemma preserves_try_catch {A} (m : M A) (h : exn -> M A) :
  preserves view m -> (forall e, preserves view (h e)) ->
  preserves view (try_catch m h).
Proof.
  intros Hm Hh s. unfold try_catch. specialize (Hm s).
  destruct (m s) as [[a|e] s']; cbn [snd] in *.
  - exact Hm.
  - rewrite Hh. exact Hm.
Qed.

Lemma preserves_forEach {A} (l : list A) (f : A -> M unit) :
  (forall x, preserves view (f x)) -> preserves view (forEach l f).
Proof.
  intros Hf. induction l as [|x l IH]; simpl.
  - apply preserves_ret.
  - apply preserves_bind; [apply Hf|intros _; exact IH].
Qed.

Lemma preserves_modify (f : state -> state) :
  (forall s, view (f s) = view s) -> preserves view (modify f).
Proof. intros H s. apply H. Qed.

Lemma preserves_getElementById i : preserves view (getElementById i).
Proof. apply preserves_gets. Qed.

Lemma preserves_querySelector sel : preserves view (querySelector sel).
Proof. apply preserves_gets. Qed.

Lemma preserves_querySelectorAll sel : preserves view (querySelectorAll sel).
Proof. apply preserves_gets. Qed.

Lemma preserves_getAttribute n k : preserves view (getAttribute n k).
Proof. apply preserves_gets. Qed.

Lemma preserves_localStorage_getItem k : preserves view (localStorage_getItem k).
Proof. apply preserves_gets. Qed.

End Frame.

(** ** Theme toggle *)

(** *** The theme after setup *)

Lemma set_kids_twice n ks t : set_kids n ks (set_kids n ks t) = set_kids n ks t.
Proof.
  revert t. fix IH 1. intros [m kids]. simpl.
  destruct (m =? n) eqn:E; simpl; rewrite E; [reflexivity|].
  f_equal. induction kids as [|k kids IHk]; simpl; [reflexivity|].
  rewrite IH, IHk. reflexivity.
Qed.

Lemma theme_view_classList_add t n c : preserves (theme_view t) (classList_add n c).
Proof.
  intros s. unfold theme_view, classList_add, modify. sproj.
  f_equal. rewrite lookup_alter. case_decide as H; [subst n|reflexivity].
  destruct (st_nodes s !! t); reflexivity.
Qed.

Lemma theme_view_addEventListener t tg ty h :
  preserves (theme_view t) (addEventListener tg ty h).
Proof. intros s. reflexivity. Qed.

Lemma theme_view_highlight t : preserves (theme_view t) highlight_active_links.
Proof.
  unfold highlight_active_links.
  apply preserves_bind; [apply preserves_querySelectorAll|intros links].
  apply preserves_forEach. intros link.
  apply preserves_bind; [apply preserves_getAttribute|intros href].
  apply preserves_bind; [apply preserves_gets|intros path].
  destruct (ends_with path (to_string href));
    [apply theme_view_classList_add|apply preserves_ret].
Qed.

(** The part of [setupNavbarFeatures] after the theme is applied
    (lines 37-73). *)
Lemma theme_view_wiring t header menuToggle navList themeToggle :
  preserves (theme_view t)
    (addEventListener TWindow Scroll (HScroll header) ;;
     match menuToggle, navList with
     | Some mt, Some nl => addEventListener (TNode mt) Click (HMenuToggle mt nl)
     | _, _ => ret tt
     end ;;
     match themeToggle with
     | Some b => addEventListener (TNode b) Click (HThemeToggle b)
     | None => ret tt
     end ;;
     highlight_active_links).
Proof.
  apply preserves_bind; [apply theme_view_addEventListener|intros _].
  apply preserves_bind; [|intros _].
  - destruct menuToggle; [destruct navList|];
      first [apply theme_view_addEventListener|apply preserves_ret].
  - apply preserves_bind; [|intros _; apply theme_view_highlight].
    destruct themeToggle; [apply theme_view_addEventListener|apply preserves_ret].
Qed.

(** What the theme rests on is, after [setupNavbarFeatures], as the stored
    theme applied has left it. *)
Lemma setup_theme_view s t :
  theme_view t (exec setupNavbarFeatures s)
  = theme_view t (theme_applied (by_id s (lit "themeToggle")) s).
Proof.
  unfold exec, setupNavbarFeatures.
  unfold bind at 1, enter at 1, modify at 1.
  unfold bind at 1, querySelector at 1, gets at 1.
  set (s0 := upd_calls (fun l => l ++ [FsetupNavbarFeatures]) s) in *.
  set (h := head _).
  assert (Hh : exists header,
             (match h with
              | Some _ => ret h
              | None => getElementById (lit "site-header")
              end) s0 = (Normal header, s0)).
  { destruct h; eexists; reflexivity. }
  destruct Hh as [header Hh].
  unfold bind at 1. rewrite Hh.
  unfold bind at 1, getElementById at 1, gets at 1.
  unfold bind at 1, getElementById at 1, gets at 1.
  unfold bind at 1, getElementById at 1, gets at 1.
  change (by_id s0 (lit "themeToggle")) with (by_id s (lit "themeToggle")).
  unfold bind at 1, localStorage_getItem at 1, gets at 1.
  change (st_storage s0 !! lit "pgc-theme") with (theme_flag s).
  unfold theme_applied. fold s0.
  destruct (bool_decide (theme_flag s = Some (lit "dark")));
    destruct (by_id s (lit "themeToggle")) as [b|].
  - rewrite (bind_normal _ _ s0 tt
               (upd_node b (with_text sun)
                  (upd_tree (set_kids b [])
                     (upd_html (insert (lit "data-theme") (lit "dark")) s0)))
               eq_refl).
    exact (theme_view_wiring t header _ _ (Some b) _).
  - rewrite (bind_normal _ _ s0 tt
               (upd_html (insert (lit "data-theme") (lit "dark")) s0) eq_refl).
    exact (theme_view_wiring t header _ _ None _).
  - rewrite (bind_normal _ _ s0 tt
               (upd_node b (with_text moon) (upd_tree (set_kids b []) s0))
               eq_refl).
    exact (theme_view_wiring t header _ _ (Some b) _).
  - rewrite (bind_normal _ _ s0 tt s0 eq_refl).
    exact (theme_view_wiring t header _ _ None _).
Qed.

(** With no flag stored, [setupNavbarFeatures] leaves the page in the light
    state: it touches neither [data-theme] nor the storage, and gives the
    theme button the moon icon. *)
Lemma setup_leaves_light s t :
  theme_flag s = None ->
  by_id s (lit "themeToggle") = Some t ->
  light_state (exec setupNavbarFeatures s) t.
Proof.
  intros Hflag Ht. pose proof (setup_theme_view s t) as Hv.
  rewrite Ht in Hv. unfold theme_applied in Hv.
  rewrite Hflag in Hv. rewrite bool_decide_eq_false_2 in Hv by discriminate.
  unfold theme_view in Hv. sproj in Hv.
  injection Hv as Hhtml Hstore Htree Htext.
  split; [|split].
  - unfold theme_flag. rewrite Hstore. exact Hflag.
  - rewrite Htree. apply set_kids_twice.
  - intros e He. rewrite He, lookup_alter_eq in Htext.
    destruct (st_nodes s !! t); cbn in Htext; congruence.
Qed.

(** With "dark" stored, it sets [data-theme] to "dark". *)
Lemma setup_applies_dark s :
  theme_flag s = Some (lit "dark") ->
  theme_attr (exec setupNavbarFeatures s) = Some (lit "dark").
Proof.
  intros Hflag. pose proof (setup_theme_view s 0) as Hv.
  unfold theme_applied in Hv. rewrite Hflag in Hv.
  rewrite bool_decide_eq_true_2 in Hv by reflexivity.
  unfold theme_view in Hv.
  apply (f_equal (fun v => fst (fst (fst v)))) in Hv. cbn [fst] in Hv.
  unfold theme_attr. rewrite Hv.
  destruct (by_id s (lit "themeToggle")); sproj; apply lookup_insert_eq.
Qed.

(** *** The toggle *)


Lemma on_theme_click_run t s :
  on_theme_click t s =
  (Normal tt,
   if bool_decide (theme_attr s = Some (lit "dark"))
   then upd_node t (with_text moon)
          (upd_tree (set_kids t [])
             (upd_storage (delete (lit "pgc-theme"))
                (upd_html (delete (lit "data-theme")) s)))
   else upd_node t (with_text sun)
          (upd_tree (set_kids t [])
             (upd_storage (insert (lit "pgc-theme") (lit "dark"))
                (upd_html (insert (lit "data-theme") (lit "dark")) s)))).
Proof.
  unfold on_theme_click, bind, html_getAttribute, gets, theme_attr.
  destruct (bool_decide _); reflexivity.
Qed.

(** C1.  From a state whose document has no [data-theme] attribute, one click
    on the theme toggle stores "dark" under "pgc-theme" and sets [data-theme]
    to "dark"; a second click removes the attribute and the stored flag.  The
    state is then the one the clicks started from whenever that was the light
    state, and so whenever it is the state [setupNavbarFeatures] has left
    from a storage holding "dark" or nothing under the key. *)
Theorem theme_toggle_round_trip (s : state) (t : node) (ev : event) :
  theme_attr s = None ->
  let s1 := exec (run_handler (HThemeToggle t) ev) s in
  let s2 := exec (run_handler (HThemeToggle t) ev) s1 in
  (theme_flag s1 = Some (lit "dark") /\ theme_attr s1 = Some (lit "dark"))
  /\ (theme_attr s2 = None /\ theme_flag s2 = None)
  /\ (light_state s t -> s2 = s)
  /\ (forall s0,
        theme_flag s0 = None \/ theme_flag s0 = Some (lit "dark") ->
        by_id s0 (lit "themeToggle") = Some t ->
        s = exec setupNavbarFeatures s0 ->
        s2 = s).
Proof.
  intros Hattr.
  set (dark := upd_node t (with_text sun)
                 (upd_tree (set_kids t [])
                    (upd_storage (insert (lit "pgc-theme") (lit "dark"))
                       (upd_html (insert (lit "data-theme") (lit "dark")) s)))).
  assert (H1 : exec (run_handler (HThemeToggle t) ev) s = dark).
  { unfold exec. simpl run_handler. rewrite on_theme_click_run, Hattr.
    reflexivity. }
  assert (Hd : theme_attr dark = Some (lit "dark")).
  { unfold theme_attr. sproj. apply lookup_insert_eq. }
  assert (H2 : exec (run_handler (HThemeToggle t) ev) dark
               = upd_node t (with_text moon)
                   (upd_tree (set_kids t [])
                      (upd_storage (delete (lit "pgc-theme"))
                         (upd_html (delete (lit "data-theme")) dark)))).
  { unfold exec. simpl run_handler. rewrite on_theme_click_run, Hd.
    reflexivity. }
  cbv zeta. rewrite H1, H2. clear H1 H2.
  assert (Hlight : light_state s t ->
                   upd_node t (with_text moon)
                     (upd_tree (set_kids t [])
                        (upd_storage (delete (lit "pgc-theme"))
                           (upd_html (delete (lit "data-theme")) dark))) = s).
  { intros (Hflag & Hkids & Htext).
    unfold theme_flag, theme_attr in *.
    unfold dark. state_eq.
    + apply delete_insert_id. exact Hattr.
    + rewrite set_kids_twice. exact Hkids.
    + apply map_eq. intros i.
      destruct (decide (i = t)) as [->|Hne];
        [rewrite !lookup_alter_eq | rewrite !lookup_alter_ne by done; reflexivity].
      destruct (st_nodes s !! t) as [e|] eqn:He; [|reflexivity].
      cbn [fmap option_fmap option_map]. f_equal. unfold with_text. sproj.
      rewrite <- (Htext e eq_refl). apply element_eta.
    + apply delete_insert_id. exact Hflag. }
  split; [split|split; [split|split]].
  - unfold theme_flag. sproj. apply lookup_insert_eq.
  - exact Hd.
  - unfold theme_attr. sproj. apply lookup_delete_eq.
  - unfold theme_flag. sproj. apply lookup_delete_eq.
  - exact Hlight.
  - intros s0 Hdom Hb Hs. apply Hlight. rewrite Hs.
    destruct Hdom as [Hnone|Hdark].
    + apply setup_leaves_light; assumption.
    + rewrite Hs, (setup_applies_dark s0 Hdark) in Hattr. discriminate Hattr.
Qed.

Lemma theme_toggle_round_trip_witness :
  theme_attr sample_ready = None
  /\ light_state sample_ready 6
  /\ exec (run_handler (HThemeToggle 6) (a_click 6))
       (exec (run_handler (HThemeToggle 6) (a_click 6)) sample_ready)
     = sample_ready.
Proof.
  assert (H : theme_attr sample_ready = None) by (vm_compute; reflexivity).
  assert (L : light_state sample_ready 6).
  { split; [vm_compute; reflexivity|]. split; [vm_compute; reflexivity|].
    intros e He. vm_compute in He. injection He as <-. reflexivity. }
  split; [exact H|]. split; [exact L|].
  exact (proj1 (proj2 (proj2 (theme_toggle_round_trip sample_ready 6 (a_click 6) H))) L).
Defined.

(** ** Contact form *)

Lemma set_textContent_run n t s :
  set_textContent n t s
  = (Normal tt, upd_node n (with_text t) (upd_tree (set_kids n []) s)).
Proof. reflexivity. Qed.

Lemma text_of_set_text n t s :
  is_Some (st_nodes s !! n) ->
  text_of (upd_node n (with_text t) s) n = t.
Proof.
  intros [e He]. unfold text_of. sproj. rewrite lookup_alter_eq, He.
  reflexivity.
Qed.

Lemma value_at_set_text n t s m :
  value_at (upd_node n (with_text t) s) m = value_at s m.
Proof.
  unfold value_at. sproj.
  destruct (decide (m = n)) as [->|Hne].
  - rewrite lookup_alter_eq. destruct (st_nodes s !! n); reflexivity.
  - rewrite lookup_alter_ne by done. reflexivity.
Qed.

Lemma trimmed_field_run form nm s :
  trimmed_field form nm s
  = match field s form nm with
    | Some v => (Normal v, s)
    | None => (Throw TypeError, s)
    end.
Proof.
  unfold trimmed_field, form_field, value_of, field.
  unfold bind, gets, ret, throw.
  destruct (item_value s (form_item s form nm)); reflexivity.
Qed.

Lemma on_submit_run form feedback s :
  on_submit form feedback s
  = match field s form (lit "name"), field s form (lit "email"),
          field s form (lit "message") with
    | Some name, Some email, Some message =>
        submit_decision form feedback name email message
          (upd_prevented (fun _ => true) s)
    | _, _, _ => (Throw TypeError, upd_prevented (fun _ => true) s)
    end.
Proof.
  unfold on_submit.
  rewrite (bind_normal _ _ s tt (upd_prevented (fun _ => true) s)) by reflexivity.
  set (sp := upd_prevented (fun _ => true) s).
  change (field s form (lit "name")) with (field sp form (lit "name")).
  change (field s form (lit "email")) with (field sp form (lit "email")).
  change (field s form (lit "message")) with (field sp form (lit "message")).
  unfold bind at 1. rewrite trimmed_field_run.
  destruct (field sp form (lit "name")) as [name|]; [|reflexivity].
  unfold bind at 1. rewrite trimmed_field_run.
  destruct (field sp form (lit "email")) as [email|]; [|reflexivity].
  unfold bind at 1. rewrite trimmed_field_run.
  destruct (field sp form (lit "message")) as [message|]; reflexivity.
Qed.

Lemma is_empty_nil (x : jsstr) : is_empty x = true <-> x = [].
Proof. destruct x; simpl; split; congruence. Qed.

(** C3.  When some trimmed field is empty, the submit listener writes the
    "fill in all fields" message and does nothing else: no field value
    changes and no timer is set. *)
Theorem submit_empty_field (s : state) (form fb : node) (ev : event)
    (name email message : jsstr) :
  field s form (lit "name") = Some name ->
  field s form (lit "email") = Some email ->
  field s form (lit "message") = Some message ->
  is_Some (st_nodes s !! fb) ->
  name = [] \/ email = [] \/ message = [] ->
  let s' := with_feedback fb msg_fill s in
  run_handler (HSubmit form (Some fb)) ev s = (Normal tt, s')
  /\ text_of s' fb = msg_fill
  /\ (forall n, value_at s' n = value_at s n)
  /\ st_timers s' = st_timers s.
Proof.
  intros Hn He Hm Hfb Hempty s'. simpl run_handler.
  rewrite on_submit_run, Hn, He, Hm. unfold submit_decision.
  assert (Hc : is_empty name || is_empty email || is_empty message = true).
  { destruct Hempty as [->|[->| ->]]; simpl;
      rewrite ?orb_true_r; reflexivity. }
  rewrite Hc. split; [reflexivity|]. split; [|split].
  - subst s'. apply text_of_set_text. exact Hfb.
  - intros n. subst s'. unfold with_feedback. rewrite value_at_set_text.
    reflexivity.
  - reflexivity.
Qed.

Lemma submit_empty_field_witness :
  text_of (exec (run_handler (HSubmit 12 (Some 16)) (a_submit 12))
             (sample_filled "Jane" " " "Hello")) 16
  = msg_fill.
Proof.
  pose proof (submit_empty_field (sample_filled "Jane" " " "Hello") 12 16
                (a_submit 12) (lit "Jane") [] (lit "Hello")) as H.
  cbv zeta in H.
  destruct H as (Hrun & Htext & _).
  - vm_compute; reflexivity.
  - vm_compute; reflexivity.
  - vm_compute; reflexivity.
  - vm_compute; eauto.
  - right; left; reflexivity.
  - unfold exec. rewrite Hrun. exact Htext.
Defined.

Lemma fold_upd_node (g : element -> element) (l : list node) (s : state) :
  fold_left (fun s x => upd_node x g s) l s
  = upd_nodes (fun m => fold_left (fun m x => alter g x m) l m) s.
Proof.
  revert s. induction l as [|x l IH]; intros s; simpl.
  - state_eq.
  - rewrite IH. state_eq.
Qed.

Lemma lookup_alter_all (g : element -> element) (l : list node)
    (m : gmap node element) (n : node) :
  (forall e, g (g e) = g e) ->
  fold_left (fun m x => alter g x m) l m !! n
  = if bool_decide (n ∈ l) then g <$> m !! n else m !! n.
Proof.
  intros Hg. revert m. induction l as [|x l IH]; intros m; simpl.
  - reflexivity.
  - rewrite IH. destruct (decide (n = x)) as [->|Hne].
    + rewrite lookup_alter_eq.
      rewrite (bool_decide_eq_true_2 (x ∈ x :: l)) by left.
      destruct (m !! x) as [e|]; simpl; [rewrite Hg|]; destruct (bool_decide _); reflexivity.
    + rewrite lookup_alter_ne by done.
      destruct (decide (n ∈ l)) as [Hin|Hin].
      * rewrite !bool_decide_eq_true_2; [reflexivity|by right|done].
      * rewrite !bool_decide_eq_false_2; [reflexivity| |done].
        intros [?|?]%elem_of_cons; done.
Qed.




Lemma form_reset_not_form form s :
  is_form s form = false -> form_reset form s = (Throw TypeError, s).
Proof.
  intros Hf. unfold form_reset. unfold bind at 1. unfold gets at 1.
  rewrite Hf. reflexivity.
Qed.


Lemma with_text_twice a b e : with_text a (with_text b e) = with_text a e.
Proof. reflexivity. Qed.






(** *** Leaves stay leaves *)











Lemma nonempty_not_nil (x : jsstr) : is_empty x = false <-> x <> [].
Proof. destruct x; simpl; split; congruence. Qed.

Lemma all_filled (name email message : jsstr) :
  is_empty name || is_empty email || is_empty message = false
  <-> name <> [] /\ email <> [] /\ message <> [].
Proof.
  rewrite !orb_false_iff, !nonempty_not_nil. tauto.
Qed.

(** C4.  With every trimmed field non-empty and an email that fails the
    pattern, the submit listener writes the "valid email" message and leaves
    every field value as it was; and since the empty-field rule comes first,
    that message only ever results when no field is empty. *)
Theorem submit_invalid_email (s : state) (form fb : node) (ev : event)
    (name email message : jsstr) :
  field s form (lit "name") = Some name ->
  field s form (lit "email") = Some email ->
  field s form (lit "message") = Some message ->
  is_Some (st_nodes s !! fb) ->
  (name <> [] -> email <> [] -> message <> [] ->
   re_test email_re email = false ->
   let s' := with_feedback fb msg_email s in
   run_handler (HSubmit form (Some fb)) ev s = (Normal tt, s')
   /\ text_of s' fb = msg_email
   /\ (forall n, value_at s' n = value_at s n)
   /\ st_timers s' = st_timers s)
  /\ (text_of (exec (run_handler (HSubmit form (Some fb)) ev) s) fb = msg_email ->
      name <> [] /\ email <> [] /\ message <> []).
Proof.
  intros Hn He Hm Hfb. unfold exec. simpl run_handler.
  rewrite on_submit_run, Hn, He, Hm. split.
  - intros H1 H2 H3 Hre. cbv zeta.
    unfold submit_decision.
    rewrite (proj2 (all_filled name email message)) by auto.
    rewrite Hre. split; [reflexivity|]. split; [|split].
    + apply text_of_set_text. exact Hfb.
    + intros n. unfold with_feedback.
      rewrite value_at_set_text. reflexivity.
    + reflexivity.
  - destruct (is_empty name || is_empty email || is_empty message) eqn:Hc.
    + unfold submit_decision. rewrite Hc. cbn [set_textContent_of snd].
      rewrite set_textContent_run. cbn [snd].
      rewrite text_of_set_text by exact Hfb.
      intros H. vm_compute in H. discriminate H.
    + intros _. apply all_filled. exact Hc.
Qed.

Lemma submit_invalid_email_witness :
  text_of (exec (run_handler (HSubmit 12 (Some 16)) (a_submit 12))
             (sample_filled "Jane" "not-an-email" "Hello")) 16
  = msg_email.
Proof.
  pose proof (submit_invalid_email (sample_filled "Jane" "not-an-email" "Hello")
                12 16 (a_submit 12) (lit "Jane") (lit "not-an-email")
                (lit "Hello")) as H.
  destruct H as (H & _).
  - vm_compute; reflexivity.
  - vm_compute; reflexivity.
  - vm_compute; reflexivity.
  - vm_compute; eauto.
  - cbv zeta in H. destruct H as (Hrun & Htext & _).
    + discriminate.
    + discriminate.
    + discriminate.
    + vm_compute; reflexivity.
    + unfold exec. rewrite Hrun. exact Htext.
Defined.

Lemma advance_run dt s :
  step (EAdvance dt) s
  = forEach (List.filter (due (st_now s + dt)) (st_timers s))
      (fun t => callback (run_timer (t_cb t)))
      (upd_timers (List.filter (fun t => negb (due (st_now s + dt) t)))
         (upd_now (fun t => t + dt) s)).
Proof. reflexivity. Qed.







(** The guard of [setupContactForm]: without the form, nothing is registered. *)
Lemma setupContactForm_without_form s :
  by_id s (lit "contactForm") = None ->
  setupContactForm s = (Normal tt, upd_calls (fun l => l ++ [FsetupContactForm]) s).
Proof.
  intros Hform.
  unfold setupContactForm, enter, getElementById, bind, modify, gets.
  change (by_id (upd_calls _ s) (lit "contactForm"))
    with (by_id s (lit "contactForm")).
  rewrite Hform. reflexivity.
Qed.

(** C9.  When the page has the contact form but no feedback element,
    [setupContactForm] still registers the submit listener (its guard only
    looks at the form), and that listener throws a TypeError every time it
    runs, in whatever state. *)
Theorem submit_without_feedback_throws (s : state) (f : node) :
  by_id s (lit "contactForm") = Some f ->
  by_id s (lit "formFeedback") = None ->
  setupContactForm s
  = (Normal tt,
     upd_listeners (fun l => l ++ [Listener (TNode f) Submit (HSubmit f None)])
       (upd_calls (fun l => l ++ [FsetupContactForm]) s))
  /\ (forall q ev, fst (run_handler (HSubmit f None) ev q) = Throw TypeError)
  /\ (forall q ev,
        st_uncaught (exec (callback (run_handler (HSubmit f None) ev)) q)
        = st_uncaught q ++ [TypeError]).
Proof.
  intros Hform Hfb.
  assert (Hthrow : forall q ev, exists q',
             run_handler (HSubmit f None) ev q = (Throw TypeError, q')
             /\ st_uncaught q' = st_uncaught q).
  { intros q ev. simpl run_handler. rewrite on_submit_run.
    destruct (field q f (lit "name")) as [name|]; [|eexists; split; reflexivity].
    destruct (field q f (lit "email")) as [email|]; [|eexists; split; reflexivity].
    destruct (field q f (lit "message")) as [message|]; [|eexists; split; reflexivity].
    unfold submit_decision.
    destruct (is_empty name || is_empty email || is_empty message);
      [eexists; split; reflexivity|].
    destruct (negb (re_test email_re email)); eexists; split; reflexivity. }
  split; [|split].
  - unfold setupContactForm, enter, getElementById, bind, modify, gets.
    change (by_id (upd_calls _ s) (lit "contactForm"))
      with (by_id s (lit "contactForm")).
    rewrite Hform.
    change (by_id (upd_calls _ s) (lit "formFeedback"))
      with (by_id s (lit "formFeedback")).
    rewrite Hfb. reflexivity.
  - intros q ev. destruct (Hthrow q ev) as (q' & -> & _). reflexivity.
  - intros q ev. destruct (Hthrow q ev) as (q' & Hr & Hu).
    unfold exec, callback, try_catch. rewrite Hr. cbn [snd modify]. sproj.
    rewrite Hu. reflexivity.
Qed.

Lemma submit_without_feedback_throws_witness :
  fst (run_handler (HSubmit 12 None) (a_submit 12)
         (upd_tree (remove_node 16) (sample_filled "Jane" "jane@example.com" "Hello")))
  = Throw TypeError.
Proof.
  exact (proj1 (proj2 (submit_without_feedback_throws
                         (upd_tree (remove_node 16) (initial sample_page)) 12
                         ltac:(vm_compute; reflexivity)
                         ltac:(vm_compute; reflexivity))) _ _).
Defined.

(** ** Class lists *)

Lemma elem_of_cl_remove (c x : jsstr) l : x ∈ cl_remove c l <-> x <> c /\ x ∈ l.
Proof. unfold cl_remove. exact (list_elem_of_filter (fun y => y <> c) l x). Qed.

Lemma elem_of_cl_add (c x : jsstr) l : x ∈ cl_add c l <-> x = c \/ x ∈ l.
Proof.
  unfold cl_add. case_bool_decide as H.
  - split; [auto|]. intros [->|?]; assumption.
  - rewrite elem_of_app, list_elem_of_singleton. tauto.
Qed.

Lemma cl_remove_twice (c : jsstr) l : cl_remove c (cl_remove c l) = cl_remove c l.
Proof. unfold cl_remove. apply list_filter_filter_l. auto. Qed.

Lemma cl_remove_add (c : jsstr) l : cl_remove c (cl_add c l) = cl_remove c l.
Proof.
  unfold cl_add. case_bool_decide as H; [reflexivity|].
  unfold cl_remove. rewrite filter_app, filter_singleton_False by auto.
  apply app_nil_r.
Qed.

Lemma cl_add_twice (c : jsstr) l : cl_add c (cl_add c l) = cl_add c l.
Proof.
  unfold cl_add at 1. rewrite bool_decide_eq_true_2; [reflexivity|].
  apply elem_of_cl_add. auto.
Qed.

(** ** Menu filter *)

Lemma chip_item_step (f : option jsstr) (it : node) (s : state) :
  (if bool_decide (f = Some (lit "all")) then set_display it []
   else
     c <- getAttribute it (lit "data-category") ;;
     set_display it (if bool_decide (c = f) then [] else lit "none")) s
  = (Normal tt, upd_node it (show_for f) s).
Proof.
  destruct (bool_decide (f = Some (lit "all"))) eqn:E.
  - unfold set_display, modify. f_equal. state_eq.
    apply alter_ext. intros e _. unfold show_for. rewrite E. reflexivity.
  - unfold bind, getAttribute, gets, set_display, modify. f_equal. state_eq.
    apply alter_ext. intros e He. unfold show_for, attr_of. rewrite E, He.
    reflexivity.
Qed.

Lemma on_chip_click_run filters items btn s :
  on_chip_click filters items btn s
  = (Normal tt,
     let s2 := upd_node btn (with_classes (cl_add (lit "active")))
                 (upd_nodes (fun m => fold_left
                                        (fun m x => alter (with_classes (cl_remove (lit "active"))) x m)
                                        filters m) s) in
     upd_nodes (fun m => fold_left
                           (fun m x => alter (show_for (attr_of s2 btn (lit "data-filter"))) x m)
                           items m) s2).
Proof.
  unfold on_chip_click.
  rewrite (bind_normal _ _ s tt _
             (forEach_modify filters _
                (fun b => upd_node b (with_classes (cl_remove (lit "active"))))
                (fun _ _ => eq_refl) s)).
  rewrite fold_upd_node.
  unfold bind at 1. unfold classList_add at 1. unfold modify at 1.
  unfold bind at 1. unfold getAttribute at 1. unfold gets at 1.
  rewrite (forEach_modify items _ _ (chip_item_step _)).
  rewrite fold_upd_node. reflexivity.
Qed.

Lemma show_for_twice f e : show_for f (show_for f e) = show_for f e.
Proof. reflexivity. Qed.

Lemma with_remove_twice c e :
  with_classes (cl_remove c) (with_classes (cl_remove c) e)
  = with_classes (cl_remove c) e.
Proof. unfold with_classes. sproj. rewrite cl_remove_twice. reflexivity. Qed.

Lemma chip_lookup filters items btn s n :
  st_nodes (exec (on_chip_click filters items btn) s) !! n
  = chip_element filters items btn (attr_of s btn (lit "data-filter")) n
      <$> st_nodes s !! n.
Proof.
  unfold exec. rewrite on_chip_click_run. cbn [snd]. cbv zeta. sproj.
  set (A := fun m : gmap node element =>
              fold_left (fun m x => alter (with_classes (cl_remove (lit "active"))) x m)
                filters m).
  assert (Hf : attr_of
                 (upd_node btn (with_classes (cl_add (lit "active"))) (upd_nodes A s))
                 btn (lit "data-filter")
               = attr_of s btn (lit "data-filter")).
  { unfold attr_of. sproj. rewrite lookup_alter_eq. unfold A.
    rewrite lookup_alter_all by apply with_remove_twice.
    destruct (bool_decide _); destruct (st_nodes s !! btn); reflexivity. }
  rewrite Hf. clear Hf.
  rewrite lookup_alter_all by apply show_for_twice.
  rewrite lookup_alter. unfold A.
  rewrite !lookup_alter_all by apply with_remove_twice.
  unfold chip_element.
  destruct (st_nodes s !! n) as [e|] eqn:He.
  - case_decide as Hb; [subst n; rewrite He|];
      [rewrite (bool_decide_eq_true_2 (btn = btn)) by reflexivity
      |rewrite (bool_decide_eq_false_2 (n = btn)) by congruence];
      destruct (bool_decide (_ ∈ items)), (bool_decide (_ ∈ filters)); reflexivity.
  - case_decide as Hb; [subst n; rewrite He|];
      destruct (bool_decide (_ ∈ items)), (bool_decide (_ ∈ filters)); reflexivity.
Qed.

Lemma chip_element_attrs filters items btn f n e :
  el_attrs (chip_element filters items btn f n e) = el_attrs e.
Proof.
  unfold chip_element.
  destruct (bool_decide (n ∈ filters)), (bool_decide (n = btn)),
    (bool_decide (n ∈ items)); reflexivity.
Qed.

Lemma chip_element_twice filters items btn f n e :
  chip_element filters items btn f n (chip_element filters items btn f n e)
  = chip_element filters items btn f n e.
Proof.
  unfold chip_element.
  destruct (bool_decide (n ∈ filters)), (bool_decide (n = btn)),
    (bool_decide (n ∈ items));
    unfold show_for, with_classes, with_display; sproj;
    rewrite ?cl_remove_add, ?cl_remove_twice, ?cl_add_twice; reflexivity.
Qed.

Lemma chip_frame filters items btn s :
  exists F, exec (on_chip_click filters items btn) s = upd_nodes F s.
Proof.
  unfold exec. rewrite on_chip_click_run. cbn [snd]. cbv zeta.
  eexists (fun m => _). state_eq.
Qed.

(** Running the chip listener a second time changes nothing. *)
Lemma chip_click_idempotent filters items btn s :
  on_chip_click filters items btn s
  = (Normal tt, exec (on_chip_click filters items btn) s)
  /\ exec (on_chip_click filters items btn)
       (exec (on_chip_click filters items btn) s)
     = exec (on_chip_click filters items btn) s.
Proof.
  split.
  - unfold exec. rewrite on_chip_click_run. reflexivity.
  - destruct (chip_frame filters items btn (exec (on_chip_click filters items btn) s))
      as [F HF].
    apply state_ext; try (rewrite HF; reflexivity).
    apply map_eq. intros n. rewrite chip_lookup.
    assert (Hf : attr_of (exec (on_chip_click filters items btn) s) btn (lit "data-filter")
                 = attr_of s btn (lit "data-filter")).
    { unfold attr_of. rewrite chip_lookup.
      destruct (st_nodes s !! btn); cbn [fmap option_fmap option_map];
        [apply (f_equal (fun m => m !! lit "data-filter")), chip_element_attrs|reflexivity]. }
    rewrite Hf, chip_lookup.
    destruct (st_nodes s !! n); cbn [fmap option_fmap option_map]; [|reflexivity].
    rewrite chip_element_twice. reflexivity.
Qed.

(** C6.  A click on a chip leaves "active" on that chip and on no other
    chip, and sets the inline display of every item: to "" for all when the
    chip's token is "all", otherwise to "" where the item's category is the
    token and to "none" elsewhere.  Running the listener again, as happens
    when it was registered twice, changes nothing. *)
Theorem chip_click_filters (s : state) (filters items : list node)
    (btn : node) (ev : event) :
  btn ∈ filters ->
  (forall n, n ∈ filters ++ items -> is_Some (st_nodes s !! n)) ->
  let token := attr_of s btn (lit "data-filter") in
  let s' := exec (run_handler (HChip filters items btn) ev) s in
  fst (run_handler (HChip filters items btn) ev s) = Normal tt
  /\ (forall b, b ∈ filters -> (lit "active" ∈ classes_of s' b <-> b = btn))
  /\ (forall it, it ∈ items ->
        display_of s' it
        = if bool_decide (token = Some (lit "all")) then []
          else if bool_decide (attr_of s it (lit "data-category") = token) then []
          else lit "none")
  /\ exec (run_handler (HChip filters items btn) ev) s' = s'.
Proof.
  intros Hbtn Hnodes token s'. subst s'. simpl run_handler.
  destruct (chip_click_idempotent filters items btn s) as [Hrun Hidem].
  split; [rewrite Hrun; reflexivity|]. split; [|split].
  - intros b Hb. unfold classes_of. rewrite chip_lookup.
    destruct (Hnodes b) as [e He]; [apply elem_of_app; auto|].
    rewrite He. cbn [fmap option_fmap option_map]. unfold chip_element.
    rewrite (bool_decide_eq_true_2 (b ∈ filters)) by exact Hb.
    assert (Hcl : forall e', el_classes (if bool_decide (b ∈ items)
                                         then show_for token e' else e')
                             = el_classes e').
    { intros e'. destruct (bool_decide _); reflexivity. }
    cbv zeta. rewrite Hcl. clear Hcl.
    destruct (bool_decide_reflect (b = btn)) as [Hbb|Hbb]; sproj.
    + split; [auto|]. intros _. apply elem_of_cl_add. auto.
    + split; [|contradiction]. intros Hin. apply elem_of_cl_remove in Hin.
      destruct Hin as [Hn _]. contradiction.
  - intros it Hit. unfold display_of. rewrite chip_lookup.
    destruct (Hnodes it) as [e He]; [apply elem_of_app; auto|].
    rewrite He. cbn [fmap option_fmap option_map]. unfold chip_element.
    rewrite (bool_decide_eq_true_2 (it ∈ items)) by exact Hit.
    cbv zeta. unfold show_for at 1. sproj.
    replace (attr_of s it (lit "data-category"))
      with (el_attrs e !! lit "data-category")
      by (unfold attr_of; rewrite He; reflexivity).
    destruct (bool_decide (it ∈ filters)), (bool_decide (it = btn)); reflexivity.
  - exact Hidem.
Qed.

Lemma chip_click_filters_witness :
  display_of (exec (run_handler (HChip [8; 9] [10; 11] 9) (a_click 9)) sample_ready) 11
  = lit "none".
Proof.
  pose proof (chip_click_filters sample_ready [8; 9] [10; 11] 9 (a_click 9)) as H.
  cbv zeta in H.
  destruct H as (_ & _ & Hd & _).
  - right; left.
  - intros n Hn. vm_compute in Hn.
    repeat (apply elem_of_cons in Hn; destruct Hn as [->|Hn];
            [vm_compute; eauto|]).
    apply elem_of_nil in Hn. contradiction.
  - rewrite (Hd 11) by (right; left). vm_compute. reflexivity.
Defined.

(** ** Menu toggle *)

Lemma on_menu_click_run cls mt nl s :
  on_menu_click cls mt nl s
  = (Normal tt,
     upd_node nl (with_classes (cl_toggle cls))
       (upd_node mt
          (with_attrs (insert (lit "aria-expanded")
                         (string_of_bool (negb (expanded s mt))))) s)).
Proof. reflexivity. Qed.

Lemma attr_of_with_classes n f s m k :
  attr_of (upd_node n (with_classes f) s) m k = attr_of s m k.
Proof.
  unfold attr_of. sproj. rewrite lookup_alter.
  case_decide as H; [subst m|reflexivity].
  destruct (st_nodes s !! n); reflexivity.
Qed.

Lemma string_of_bool_true b : bool_decide (string_of_bool b = lit "true") = b.
Proof. destruct b; reflexivity. Qed.

(** One run of a menu listener inverts what [aria-expanded] says. *)
Lemma expanded_after_menu_click cls mt nl s :
  is_Some (st_nodes s !! mt) ->
  attr_of (exec (on_menu_click cls mt nl) s) mt (lit "aria-expanded")
  = Some (string_of_bool (negb (expanded s mt)))
  /\ expanded (exec (on_menu_click cls mt nl) s) mt = negb (expanded s mt).
Proof.
  intros [e He].
  assert (H : attr_of (exec (on_menu_click cls mt nl) s) mt (lit "aria-expanded")
              = Some (string_of_bool (negb (expanded s mt)))).
  { unfold exec. rewrite on_menu_click_run. cbn [snd].
    rewrite attr_of_with_classes. unfold attr_of at 1. sproj.
    rewrite lookup_alter_eq, He. cbn [fmap option_fmap option_map]. sproj.
    apply lookup_insert_eq. }
  split; [exact H|]. unfold expanded at 1. rewrite H.
  destruct (expanded s mt); reflexivity.
Qed.

Lemma menu_click_keeps_node cls mt nl s n :
  is_Some (st_nodes s !! n) ->
  is_Some (st_nodes (exec (on_menu_click cls mt nl) s) !! n).
Proof.
  intros [e He]. unfold exec. rewrite on_menu_click_run. cbn [snd]. sproj.
  rewrite !lookup_alter. repeat case_decide; subst; rewrite ?He; eauto.
Qed.

(** Where both menu listeners are bound to the button, a click runs the one
    of the trailing block and then the one of the main module, and
    [aria-expanded] ends up saying what it said before. *)
Lemma menu_double_flip mt nl nl' s :
  is_Some (st_nodes s !! mt) ->
  expanded (exec (on_menu_click (lit "open") mt nl)
              (exec (on_menu_click (lit "show") mt nl') s)) mt
  = expanded s mt.
Proof.
  intros H.
  rewrite (proj2 (expanded_after_menu_click _ mt nl _
                    (menu_click_keeps_node _ mt nl' s mt H))).
  rewrite (proj2 (expanded_after_menu_click _ mt nl' s H)).
  apply negb_involutive.
Qed.

(** C7.  On the sample page, whose menu button and navigation list are in
    the markup, the trailing block and [setupNavbarFeatures] both bind a
    click listener to the button; one click then flips [aria-expanded]
    twice, from absent over "true" to "false", while "open" is toggled once:
    the list is open and the button says it is not. *)
Theorem menu_toggle_bound_twice :
  handlers_at (TNode 3) Click sample_ready = [HMenuTrailing 3 4; HMenuToggle 3 4]
  /\ attr_of sample_ready 3 (lit "aria-expanded") = None
  /\ classes_of sample_ready 4 = [lit "nav-list"]
  /\ attr_of (run_event (EClick 3) sample_ready) 3 (lit "aria-expanded")
     = Some (lit "false")
  /\ classes_of (run_event (EClick 3) sample_ready) 4
     = [lit "nav-list"; lit "show"; lit "open"].
Proof. vm_compute. repeat split; reflexivity. Qed.

(** ** Idempotence *)

Lemma theme_click_not_idempotent t s :
  exec (on_theme_click t) (exec (on_theme_click t) s) <> exec (on_theme_click t) s.
Proof.
  intros H. apply (f_equal theme_attr) in H. revert H.
  unfold exec. rewrite !on_theme_click_run. cbn [snd].
  destruct (bool_decide (theme_attr s = Some (lit "dark"))) eqn:E.
  - replace (theme_attr (upd_node t (with_text moon)
               (upd_tree (set_kids t [])
                  (upd_storage (delete (lit "pgc-theme"))
                     (upd_html (delete (lit "data-theme")) s)))))
      with (@None jsstr) by (unfold theme_attr; sproj; symmetry; apply lookup_delete_eq).
    rewrite bool_decide_eq_false_2 by discriminate.
    unfold theme_attr. sproj. rewrite lookup_insert_eq. discriminate.
  - replace (theme_attr (upd_node t (with_text sun)
               (upd_tree (set_kids t [])
                  (upd_storage (insert (lit "pgc-theme") (lit "dark"))
                     (upd_html (insert (lit "data-theme") (lit "dark")) s)))))
      with (Some (lit "dark")) by (unfold theme_attr; sproj; symmetry; apply lookup_insert_eq).
    rewrite bool_decide_eq_true_2 by reflexivity.
    unfold theme_attr. sproj. rewrite lookup_delete_eq. discriminate.
Qed.

Lemma menu_click_not_idempotent cls mt nl s :
  is_Some (st_nodes s !! mt) ->
  exec (on_menu_click cls mt nl) (exec (on_menu_click cls mt nl) s)
  <> exec (on_menu_click cls mt nl) s.
Proof.
  intros Hmt H. apply (f_equal (fun q => expanded q mt)) in H.
  rewrite (proj2 (expanded_after_menu_click cls mt nl _
                    (menu_click_keeps_node cls mt nl s mt Hmt))) in H.
  destruct (expanded (exec (on_menu_click cls mt nl) s) mt); discriminate.
Qed.

Lemma not_all_handlers_idempotent :
  ~ (forall (h : handler) (ev : event) (s : state),
       exec (run_handler h ev) (exec (run_handler h ev) s)
       = exec (run_handler h ev) s).
Proof.
  intros H.
  exact (theme_click_not_idempotent 6 sample_ready
           (H (HThemeToggle 6) (a_click 6) sample_ready)).
Qed.

(** C8 (amended).  Of the three listeners named, only the chip listener is
    idempotent; the theme toggle and the menu toggle are toggles, and in no
    state does running either twice give what running it once gives. *)
Theorem chip_idempotent_toggles_not (s : state) (filters items : list node)
    (btn t mt nl : node) (ev : event) :
  is_Some (st_nodes s !! mt) ->
  exec (run_handler (HChip filters items btn) ev)
    (exec (run_handler (HChip filters items btn) ev) s)
  = exec (run_handler (HChip filters items btn) ev) s
  /\ exec (run_handler (HThemeToggle t) ev)
       (exec (run_handler (HThemeToggle t) ev) s)
     <> exec (run_handler (HThemeToggle t) ev) s
  /\ exec (run_handler (HMenuToggle mt nl) ev)
       (exec (run_handler (HMenuToggle mt nl) ev) s)
     <> exec (run_handler (HMenuToggle mt nl) ev) s.
Proof.
  intros Hmt. simpl run_handler. split; [|split].
  - apply chip_click_idempotent.
  - apply theme_click_not_idempotent.
  - apply menu_click_not_idempotent. exact Hmt.
Qed.

Lemma chip_idempotent_toggles_not_witness :
  exec (run_handler (HMenuToggle 3 4) (a_click 3))
    (exec (run_handler (HMenuToggle 3 4) (a_click 3)) sample_ready)
  <> exec (run_handler (HMenuToggle 3 4) (a_click 3)) sample_ready.
Proof.
  exact (proj2 (proj2 (chip_idempotent_toggles_not sample_ready [8; 9] [10; 11]
                         9 6 3 4 (a_click 3)
                         ltac:(vm_compute; eauto)))).
Defined.

(** ** Page load *)

Ltac cproj :=
  cbn [c_now c_pending c_fetches c_timers c_ready c_lightbox c_calls].

Lemma filter_snoc_false {A} (P : A -> bool) l x :
  P x = false -> List.filter P (l ++ [x]) = List.filter P l.
Proof. intros H. rewrite List.filter_app. simpl. rewrite H. apply app_nil_r. Qed.

Lemma filter_snoc_true {A} (P : A -> bool) l x :
  P x = true -> List.filter P (l ++ [x]) = List.filter P l ++ [x].
Proof. intros H. rewrite List.filter_app. simpl. rewrite H. reflexivity. Qed.

Lemma keeps_addEventListener tg ty h :
  is_dcl (Listener tg ty h) = false ->
  is_lightbox (Listener tg ty h) = false ->
  keeps (addEventListener tg ty h).
Proof.
  intros H1 H2 s. unfold addEventListener, modify, ctl, lightbox_listeners.
  sproj. rewrite !filter_snoc_false by assumption. reflexivity.
Qed.

Lemma keeps_enter_navbar : keeps (enter FsetupNavbarFeatures).
Proof.
  intros s. unfold enter, modify, ctl, feature_calls. sproj.
  rewrite filter_snoc_false by reflexivity. reflexivity.
Qed.

Lemma keeps_classList_add n c : keeps (classList_add n c).
Proof. intros s. reflexivity. Qed.

Lemma keeps_set_textContent n t : keeps (set_textContent n t).
Proof. intros s. reflexivity. Qed.

Lemma keeps_html_setAttribute k v : keeps (html_setAttribute k v).
Proof. intros s. reflexivity. Qed.

Lemma keeps_set_innerHTML c html : keeps (set_innerHTML c html).
Proof. destruct c; intros s; reflexivity. Qed.

Lemma keeps_console_error l e : keeps (console_error l e).
Proof. intros s. reflexivity. Qed.

Create HintDb keeps discriminated.

#[local] Hint Resolve preserves_ret preserves_throw preserves_gets
  preserves_getElementById preserves_querySelector preserves_querySelectorAll
  preserves_getAttribute preserves_localStorage_getItem : keeps.

#[local] Hint Resolve keeps_classList_add keeps_set_textContent
  keeps_html_setAttribute keeps_set_innerHTML keeps_console_error
  keeps_enter_navbar : keeps.

(** Walks through a computation, one construct at a time. *)
Ltac keeps_walk :=
  repeat first
    [ progress auto with keeps
    | apply preserves_bind; [|intros ?]
    | apply preserves_forEach; intros ?
    | apply preserves_try_catch; [|intros ?]
    | apply keeps_addEventListener; reflexivity
    | match goal with
      | |- preserves _ (match ?x with _ => _ end) => destruct x
      end ].

Lemma keeps_highlight : keeps highlight_active_links.
Proof. unfold highlight_active_links. keeps_walk. Qed.

Lemma keeps_setupNavbarFeatures : keeps setupNavbarFeatures.
Proof. unfold setupNavbarFeatures. keeps_walk; apply keeps_highlight. Qed.

Lemma keeps_trailing : keeps trailing.
Proof. unfold trailing. keeps_walk; apply keeps_highlight. Qed.

Lemma keeps_loadNavbar_resume o : keeps (loadNavbar_resume o).
Proof.
  unfold loadNavbar_resume, loadNavbar_try, await_fetch, await.
  keeps_walk; apply keeps_setupNavbarFeatures.
Qed.

(** [loadNavbar] catches whatever its body throws: its promise resolves. *)
Lemma loadNavbar_resume_normal o s : fst (loadNavbar_resume o s) = Normal tt.
Proof.
  unfold loadNavbar_resume, try_catch.
  destruct (loadNavbar_try o s) as [[[]|e] s']; reflexivity.
Qed.

Lemma calm_ret {A} (a : A) : calm (ret a).
Proof. intros s. exists a, s. split; reflexivity. Qed.

Lemma calm_gets {A} (f : state -> A) : calm (gets f).
Proof. intros s. exists (f s), s. split; reflexivity. Qed.

Lemma calm_modify (f : state -> state) :
  (forall s, ctl (f s) = ctl s) -> calm (modify f).
Proof. intros H s. exists tt, (f s). split; [reflexivity|apply H]. Qed.

Lemma calm_bind {A B} (m : M A) (k : A -> M B) :
  calm m -> (forall a, calm (k a)) -> calm (bind m k).
Proof.
  intros Hm Hk s. destruct (Hm s) as (a & s1 & H1 & C1).
  destruct (Hk a s1) as (b & s2 & H2 & C2).
  exists b, s2. unfold bind. rewrite H1, H2. split; [reflexivity|congruence].
Qed.

Lemma calm_forEach {A} (l : list A) (f : A -> M unit) :
  (forall x, calm (f x)) -> calm (forEach l f).
Proof.
  intros Hf. induction l as [|x l IH]; simpl.
  - apply calm_ret.
  - apply calm_bind; [apply Hf|intros _; exact IH].
Qed.

Lemma calm_createElement tag : calm (createElement tag).
Proof. intros s. eexists _, _. split; reflexivity. Qed.

Lemma calm_new_IntersectionObserver : calm new_IntersectionObserver.
Proof. intros s. eexists _, _. split; reflexivity. Qed.

Lemma calm_addEventListener tg ty h :
  is_dcl (Listener tg ty h) = false ->
  is_lightbox (Listener tg ty h) = false ->
  calm (addEventListener tg ty h).
Proof.
  intros H1 H2 s. eexists _, _. split; [reflexivity|].
  apply (keeps_addEventListener tg ty h H1 H2 s).
Qed.

(** Walks through a computation that cannot throw. *)
Ltac calm_walk :=
  repeat first
    [ apply calm_ret
    | apply calm_gets
    | apply calm_createElement
    | apply calm_new_IntersectionObserver
    | apply calm_modify; intros ?; reflexivity
    | apply calm_addEventListener; reflexivity
    | apply calm_bind; [|intros ?]
    | apply calm_forEach; intros ?
    | match goal with
      | |- calm (match ?x with _ => _ end) => destruct x
      end ].

(** An initialiser that logs its call and is calm from there on. *)
Lemma feature_spec (f : fn) (rest : M unit) :
  is_feature f = true -> calm rest ->
  forall s, exists s', (enter f ;; rest) s = (Normal tt, s')
                       /\ ctl s' = c_call f (ctl s).
Proof.
  intros Hf Hrest s.
  destruct (Hrest (upd_calls (fun l => l ++ [f]) s)) as ([] & s' & Hr & Hc).
  exists s'. split.
  - unfold bind, enter, modify. exact Hr.
  - rewrite Hc. unfold ctl, c_call, feature_calls. sproj.
    rewrite filter_snoc_true by exact Hf. reflexivity.
Qed.

Lemma setupFadeOnScroll_spec s :
  exists s', setupFadeOnScroll s = (Normal tt, s')
             /\ ctl s' = c_call FsetupFadeOnScroll (ctl s).
Proof.
  apply feature_spec; [reflexivity|].
  unfold querySelectorAll, observe. calm_walk.
Qed.

Lemma setupMenuFilter_spec s :
  exists s', setupMenuFilter s = (Normal tt, s')
             /\ ctl s' = c_call FsetupMenuFilter (ctl s).
Proof.
  apply feature_spec; [reflexivity|].
  unfold querySelectorAll. calm_walk.
Qed.

Lemma setupContactForm_spec s :
  exists s', setupContactForm s = (Normal tt, s')
             /\ ctl s' = c_call FsetupContactForm (ctl s).
Proof.
  apply feature_spec; [reflexivity|].
  unfold getElementById. calm_walk.
Qed.

Lemma setupLazyImages_spec s :
  exists s', setupLazyImages s = (Normal tt, s')
             /\ ctl s' = c_call FsetupLazyImages (ctl s).
Proof.
  apply feature_spec; [reflexivity|].
  unfold querySelectorAll. calm_walk.
Qed.

Lemma calm_lightbox_root :
  calm (r <- getElementById (lit "lightbox-root") ;;
        match r with
        | Some x => ret x
        | None => createLightboxRoot
        end).
Proof.
  unfold getElementById, createLightboxRoot, setAttribute, body_appendChild.
  calm_walk.
Qed.

Lemma setupLightbox_spec s :
  exists s', setupLightbox s = (Normal tt, s')
             /\ ctl s' = c_light (c_call FsetupLightbox (ctl s)).
Proof.
  destruct (calm_lightbox_root (upd_calls (fun l => l ++ [FsetupLightbox]) s))
    as (root & s1 & Hr & Hc).
  eexists. split.
  - unfold setupLightbox, enter.
    unfold bind at 1. unfold modify at 1.
    unfold bind at 1. unfold bind in Hr.
    destruct (getElementById (lit "lightbox-root")
                (upd_calls (fun l => l ++ [FsetupLightbox]) s))
      as [[r|e] s0] eqn:Hg; [|discriminate Hr].
    unfold bind at 1. rewrite Hr. reflexivity.
  - unfold ctl in *. unfold lightbox_listeners, feature_calls in *.
    sproj. sproj in Hc. injection Hc as H1 H2 H3 H4 H5 H6 H7.
    unfold c_light, c_call. sproj.
    rewrite (filter_snoc_false is_dcl) by reflexivity.
    rewrite (filter_snoc_true is_lightbox) by reflexivity.
    rewrite length_app, H1, H2, H3, H4, H5, H6, H7.
    rewrite (filter_snoc_true is_feature) by reflexivity.
    cproj. cbn [length]. f_equal. lia.
Qed.

Lemma c_features_calls c :
  c_call FsetupLazyImages
    (c_call FsetupContactForm
       (c_call FsetupMenuFilter
          (c_light (c_call FsetupLightbox (c_call FsetupFadeOnScroll c)))))
  = c_features c.
Proof.
  unfold c_features, c_call, c_light, features. cbn.
  rewrite <- !app_assoc. reflexivity.
Qed.

(** The five initialisers in a row: none throws, each is logged, and the
    document gains one lightbox listener. *)
Lemma fallback_spec s :
  exists s', fallback s = (Normal tt, s') /\ ctl s' = c_features (ctl s).
Proof.
  destruct (setupFadeOnScroll_spec s) as (s1 & H1 & C1).
  destruct (setupLightbox_spec s1) as (s2 & H2 & C2).
  destruct (setupMenuFilter_spec s2) as (s3 & H3 & C3).
  destruct (setupContactForm_spec s3) as (s4 & H4 & C4).
  destruct (setupLazyImages_spec s4) as (s5 & H5 & C5).
  exists s5. split.
  - unfold fallback, bind. rewrite H1, H2, H3, H4. exact H5.
  - rewrite C5, C4, C3, C2, C1. apply c_features_calls.
Qed.

Lemma after_navbar_spec s :
  exists s', after_navbar s = (Normal tt, s') /\ ctl s' = c_features (ctl s).
Proof. exact (fallback_spec s). Qed.

Lemma filter_target_dcl tg (ls : list listener) :
  List.filter (fun l => bool_decide (l_target l = tg)
                        && bool_decide (l_type l = DomContentLoaded)) ls
  = List.filter (fun l => bool_decide (l_target l = tg)) (List.filter is_dcl ls).
Proof.
  induction ls as [|[tg' ty h] ls IH]; simpl; [reflexivity|].
  unfold is_dcl at 1. cbn [l_type l_target].
  destruct ty; cbn [List.filter l_target];
    rewrite ?andb_false_r, ?andb_true_r, IH; try reflexivity.
Qed.

Lemma ready_registered s :
  List.filter is_dcl (st_listeners s) = [ready_listener] ->
  ready_listener ∈ st_listeners s.
Proof.
  intros H. apply list_elem_of_In.
  apply (List.filter_In is_dcl ready_listener (st_listeners s)).
  rewrite H. left. reflexivity.
Qed.

(** With [init]'s listener the only one for it, [DOMContentLoaded] does one
    thing: it sets the fallback timer, 90 ms ahead. *)
Lemma dcl_run s :
  List.filter is_dcl (st_listeners s) = [ready_listener] ->
  step EDomContentLoaded s
  = (Normal tt, upd_timers (insert_timer (Timer (st_now s + 90) TFallback)) s).
Proof.
  intros Hr. pose proof (ready_registered s Hr) as Hin.
  assert (Hd : handlers_at TDocument DomContentLoaded s = [HDomReady]).
  { unfold handlers_at. rewrite filter_target_dcl, Hr. reflexivity. }
  assert (Hw : forall f, handlers_at TWindow DomContentLoaded (upd_timers f s) = []).
  { intros f. unfold handlers_at. sproj. rewrite filter_target_dcl, Hr.
    reflexivity. }
  unfold step, dispatch, bind at 1, gets at 1.
  cbn [ev_target event_path forEach].
  unfold bind at 1. unfold fire_at at 1. unfold bind at 1, gets at 1.
  cbn [ev_type]. rewrite Hd. cbn [forEach].
  unfold bind at 1. unfold bind at 1, gets at 1.
  rewrite (bool_decide_eq_true_2 _ Hin).
  cbn [run_handler]. unfold callback at 1, try_catch at 1, setTimeout at 1, modify at 1.
  unfold ret at 1.
  unfold bind at 1. unfold fire_at at 1. unfold bind at 1, gets at 1.
  cbn [ev_type]. rewrite Hw. reflexivity.
Qed.

Lemma Forall_filter_bool {A} (P : A -> Prop) (f : A -> bool) l :
  Forall P l -> Forall P (List.filter f l).
Proof.
  induction 1 as [|x l Hx Hl IH]; simpl; [constructor|].
  destruct (f x); [constructor|]; assumption.
Qed.

Lemma forEach_fallbacks (ts : list timer) (q : state) :
  Forall (fun t => t_cb t = TFallback) ts ->
  exists q', forEach ts (fun t => callback (run_timer (t_cb t))) q = (Normal tt, q')
             /\ ctl q' = fold_left (fun c _ => c_features c) ts (ctl q).
Proof.
  intros H. revert q. induction H as [|t ts Ht Hts IH]; intros q.
  - exists q. split; reflexivity.
  - destruct (fallback_spec q) as (q1 & H1 & C1).
    destruct (IH q1) as (q2 & H2 & C2).
    exists q2. split.
    + cbn [forEach]. unfold bind, callback, try_catch. rewrite Ht.
      cbn [run_timer]. rewrite H1. exact H2.
    + rewrite C2, C1. reflexivity.
Qed.

Lemma advance_ctl dt s :
  Forall (fun t => t_cb t = TFallback) (st_timers s) ->
  ctl (run_event (EAdvance dt) s) = astep (EAdvance dt) (ctl s).
Proof.
  intros H. unfold run_event, exec. rewrite advance_run.
  destruct (forEach_fallbacks
              (List.filter (due (st_now s + dt)) (st_timers s))
              (upd_timers (List.filter (fun t => negb (due (st_now s + dt) t)))
                 (upd_now (fun t => t + dt) s)))
    as (q & Hq & Cq); [apply Forall_filter_bool; exact H|].
  rewrite Hq. cbn [snd]. rewrite Cq. reflexivity.
Qed.

Lemma fetch_ctl o s :
  ctl (run_event (EFetchSettled o) s) = astep (EFetchSettled o) (ctl s).
Proof.
  unfold run_event, exec, step. unfold bind at 1, gets at 1.
  cbn [astep]. change (c_pending (ctl s)) with (st_pending s).
  destruct (st_pending s) eqn:Hp; [|reflexivity].
  set (q1 := upd_pending (fun _ => false) s).
  rewrite (bind_normal (modify (upd_pending (fun _ => false))) _ s tt q1 eq_refl).
  pose proof (loadNavbar_resume_normal o q1) as Hn.
  pose proof (keeps_loadNavbar_resume o q1) as Hk.
  destruct (loadNavbar_resume o q1) as [r q2] eqn:Hrun. cbn [fst snd] in Hn, Hk.
  subst r. rewrite (bind_normal (loadNavbar_resume o) _ q1 tt q2 Hrun).
  destruct (after_navbar_spec q2) as (q3 & H3 & C3).
  unfold callback, try_catch. rewrite H3. cbn [snd].
  rewrite C3, Hk. reflexivity.
Qed.

Lemma dcl_ctl s :
  loading (ctl s) ->
  ctl (run_event EDomContentLoaded s) = astep EDomContentLoaded (ctl s).
Proof.
  intros [Hr _]. unfold run_event, exec. rewrite dcl_run by exact Hr.
  reflexivity.
Qed.

(** Each event of a page load does to [control] what [astep] says. *)
Lemma load_step e s :
  load_event e = true -> loading (ctl s) ->
  ctl (run_event e s) = astep e (ctl s).
Proof.
  intros He Hl. destruct e; try discriminate He.
  - apply fetch_ctl.
  - apply dcl_ctl. exact Hl.
  - apply advance_ctl. exact (proj2 Hl).
Qed.

Lemma insert_timer_Forall (P : timer -> Prop) t l :
  P t -> Forall P l -> Forall P (insert_timer t l).
Proof.
  intros Ht. induction 1 as [|u l Hu Hl IH]; simpl.
  - constructor; [assumption|constructor].
  - destruct (t_due u <=? t_due t); repeat constructor; assumption.
Qed.

Lemma features_loading (ts : list timer) c :
  loading c -> loading (fold_left (fun c _ => c_features c) ts c).
Proof.
  revert c. induction ts as [|t ts IH]; intros c H; simpl; [exact H|].
  apply IH. exact H.
Qed.

Lemma astep_loading e c : loading c -> loading (astep e c).
Proof.
  intros [Hr Ht]. destruct e; cbn [astep]; try (split; assumption).
  - destruct (c_pending c); split; assumption.
  - split; [exact Hr|]. cproj. apply insert_timer_Forall; [reflexivity|exact Ht].
  - apply features_loading. split; [exact Hr|]. cproj.
    apply Forall_filter_bool. exact Ht.
Qed.

(** A page load, however its events interleave, is [arun] on [control]. *)
Lemma load_run (es : list env_event) (s : state) :
  forallb load_event es = true -> loading (ctl s) ->
  ctl (run es s) = arun es (ctl s).
Proof.
  revert s. induction es as [|e es IH]; intros s He Hl; [reflexivity|].
  cbn [forallb] in He. apply andb_prop in He. destruct He as [He Hes].
  cbn [run arun fold_left].
  change (fold_left (fun s e => run_event e s) es (run_event e s))
    with (run es (run_event e s)).
  rewrite IH; [|exact Hes|rewrite load_step by assumption; apply astep_loading; exact Hl].
  rewrite load_step by assumption. reflexivity.
Qed.

(** Once the script has run, the request is out, [init]'s listener waits for
    [DOMContentLoaded], and no initialiser has been called. *)
Lemma ctl_loaded p : ctl (loaded p) = control0.
Proof.
  unfold loaded, exec, script.
  rewrite (bind_normal init _ (initial p) tt
             (upd_listeners (fun l => l ++ [ready_listener])
                (upd_pending (fun _ => true)
                   (upd_fetches (fun l => l ++ [lit "navbar.html"]) (initial p)))))
    by reflexivity.
  rewrite keeps_trailing. reflexivity.
Qed.

Lemma control0_loading : loading control0.
Proof. split; [reflexivity|constructor]. Qed.

Lemma ctl_load p es :
  forallb load_event es = true ->
  ctl (run es (loaded p)) = arun es control0.
Proof.
  intros H. rewrite load_run; [|exact H|rewrite ctl_loaded; apply control0_loading].
  rewrite ctl_loaded. reflexivity.
Qed.

Lemma due_shift t0 dt cb : due (t0 + dt) (Timer (t0 + 90) cb) = (90 <=? dt).
Proof.
  unfold due. cbn [t_due].
  destruct (N.leb_spec 90 dt); [apply N.leb_le|apply N.leb_gt]; lia.
Qed.

Lemma arun_fetch_first o t0 dt :
  arun [EFetchSettled o; EAdvance t0; EDomContentLoaded; EAdvance dt] control0
  = Control (t0 + dt) false [lit "navbar.html"]
      (if 90 <=? dt then [] else [Timer (t0 + 90) TFallback])
      [ready_listener] (if 90 <=? dt then 2%nat else 1%nat)
      (features ++ (if 90 <=? dt then features else [])).
Proof.
  unfold arun, control0. cbn -[N.add N.leb lit features due].
  rewrite !N.add_0_l, due_shift.
  destruct (90 <=? dt); reflexivity.
Qed.

Lemma arun_ready_first o t0 dt :
  arun [EAdvance t0; EDomContentLoaded; EFetchSettled o; EAdvance dt] control0
  = Control (t0 + dt) false [lit "navbar.html"]
      (if 90 <=? dt then [] else [Timer (t0 + 90) TFallback])
      [ready_listener] (if 90 <=? dt then 2%nat else 1%nat)
      (features ++ (if 90 <=? dt then features else [])).
Proof.
  unfold arun, control0. cbn -[N.add N.leb lit features due].
  rewrite !N.add_0_l, due_shift.
  destruct (90 <=? dt); reflexivity.
Qed.

Lemma arun_fallback_first o t0 dt :
  arun [EAdvance t0; EDomContentLoaded; EAdvance dt; EFetchSettled o] control0
  = Control (t0 + dt) false [lit "navbar.html"]
      (if 90 <=? dt then [] else [Timer (t0 + 90) TFallback])
      [ready_listener] (if 90 <=? dt then 2%nat else 1%nat)
      ((if 90 <=? dt then features else []) ++ features).
Proof.
  unfold arun, control0. cbn -[N.add N.leb lit features due].
  rewrite !N.add_0_l, due_shift.
  destruct (90 <=? dt); reflexivity.
Qed.

Lemma ctl_fields s c :
  ctl s = c ->
  st_fetches s = c_fetches c
  /\ feature_calls s = c_calls c
  /\ lightbox_listeners s = c_lightbox c.
Proof. intros <-. repeat split; reflexivity. Qed.

Lemma loadNavbar_failure_run o err s :
  failure_of o = Some err ->
  loadNavbar_resume o s
  = (Normal tt,
     upd_console (fun l => l ++ [(lit "Navbar load error:", err)]) s).
Proof.
  intros H. unfold loadNavbar_resume, try_catch, loadNavbar_try.
  destruct o as [e|[ok text]]; cbn [failure_of res_ok res_text] in H.
  - injection H as <-. reflexivity.
  - destruct ok.
    + destruct text as [e|html]; [|discriminate H].
      injection H as <-. reflexivity.
    + injection H as <-. reflexivity.
Qed.

(** C2.  When the navbar request fails, [loadNavbar] logs the error and does
    nothing else: the element tree and every node, so the container and its
    content, are as before, and no further request is made.  The [then]
    callback still runs the initialisers, and the fallback runs them once
    90 ms have passed since [DOMContentLoaded], not earlier, however the
    failure and the document's readiness interleave. *)
Theorem navbar_failure (p : page) (o : fetch_outcome) (err : exn) (t0 dt : N) :
  failure_of o = Some err ->
  (forall s,
     loadNavbar_resume o s
     = (Normal tt, upd_console (fun l => l ++ [(lit "Navbar load error:", err)]) s)
     /\ st_tree (exec (loadNavbar_resume o) s) = st_tree s
     /\ st_nodes (exec (loadNavbar_resume o) s) = st_nodes s
     /\ st_fetches (exec (loadNavbar_resume o) s) = st_fetches s)
  /\ (st_fetches (run (fetch_then_ready o t0 dt) (loaded p)) = [lit "navbar.html"]
      /\ feature_calls (run (fetch_then_ready o t0 dt) (loaded p))
         = features ++ (if 90 <=? dt then features else []))
  /\ (st_fetches (run (ready_then_fetch o t0 dt) (loaded p)) = [lit "navbar.html"]
      /\ feature_calls (run (ready_then_fetch o t0 dt) (loaded p))
         = features ++ (if 90 <=? dt then features else []))
  /\ (st_fetches (run (fallback_then_fetch o t0 dt) (loaded p)) = [lit "navbar.html"]
      /\ feature_calls (run (fallback_then_fetch o t0 dt) (loaded p))
         = (if 90 <=? dt then features else []) ++ features).
Proof.
  intros Hfail. split; [|split; [|split]].
  - intros s. unfold exec. rewrite (loadNavbar_failure_run o err s Hfail).
    repeat split; reflexivity.
  - pose proof (ctl_load p (fetch_then_ready o t0 dt) eq_refl) as H.
    unfold fetch_then_ready in H at 2. rewrite arun_fetch_first in H.
    apply ctl_fields in H. cproj. destruct H as (H1 & H2 & _).
    split; assumption.
  - pose proof (ctl_load p (ready_then_fetch o t0 dt) eq_refl) as H.
    unfold ready_then_fetch in H at 2. rewrite arun_ready_first in H.
    apply ctl_fields in H. cproj. destruct H as (H1 & H2 & _).
    split; assumption.
  - pose proof (ctl_load p (fallback_then_fetch o t0 dt) eq_refl) as H.
    unfold fallback_then_fetch in H at 2. rewrite arun_fallback_first in H.
    apply ctl_fields in H. cproj. destruct H as (H1 & H2 & _).
    split; assumption.
Qed.

Lemma navbar_failure_witness :
  st_console (exec (loadNavbar_resume fetch_404) (loaded sample_page))
  = [(lit "Navbar load error:", JsError (lit "Could not load navbar"))]
  /\ feature_calls (run (ready_then_fetch fetch_404 10 90) (loaded sample_page))
     = features ++ features.
Proof.
  pose proof (navbar_failure sample_page fetch_404
                (JsError (lit "Could not load navbar")) 10 90 eq_refl)
    as (H1 & _ & (_ & H3) & _).
  split.
  - unfold exec. rewrite (proj1 (H1 (loaded sample_page))). reflexivity.
  - exact H3.
Defined.

(** C10.  Whatever the request settles to, [loadNavbar] completes normally,
    so the [then] callback runs the five initialisers; the fallback runs them
    again once 90 ms have passed since [DOMContentLoaded].  After a page load
    each initialiser has therefore run twice and the document carries two
    lightbox listeners, on success as on failure and in every interleaving. *)
Theorem features_run_twice (p : page) (o : fetch_outcome) (t0 dt : N) :
  90 <= dt ->
  (forall s, fst (loadNavbar_resume o s) = Normal tt)
  /\ feature_calls (run [EFetchSettled o] (loaded p)) = features
  /\ (feature_calls (run (fetch_then_ready o t0 dt) (loaded p)) = features ++ features
      /\ lightbox_listeners (run (fetch_then_ready o t0 dt) (loaded p)) = 2%nat)
  /\ (feature_calls (run (ready_then_fetch o t0 dt) (loaded p)) = features ++ features
      /\ lightbox_listeners (run (ready_then_fetch o t0 dt) (loaded p)) = 2%nat)
  /\ (feature_calls (run (fallback_then_fetch o t0 dt) (loaded p)) = features ++ features
      /\ lightbox_listeners (run (fallback_then_fetch o t0 dt) (loaded p)) = 2%nat).
Proof.
  intros Hdt. apply N.leb_le in Hdt.
  split; [intros s; apply loadNavbar_resume_normal|].
  split; [|split; [|split]].
  - exact (proj1 (proj2 (ctl_fields _ _ (ctl_load p [EFetchSettled o] eq_refl)))).
  - pose proof (ctl_load p (fetch_then_ready o t0 dt) eq_refl) as H.
    unfold fetch_then_ready in H at 2. rewrite arun_fetch_first, Hdt in H.
    apply ctl_fields in H. destruct H as (_ & H2 & H3).
    split; assumption.
  - pose proof (ctl_load p (ready_then_fetch o t0 dt) eq_refl) as H.
    unfold ready_then_fetch in H at 2. rewrite arun_ready_first, Hdt in H.
    apply ctl_fields in H. destruct H as (_ & H2 & H3).
    split; assumption.
  - pose proof (ctl_load p (fallback_then_fetch o t0 dt) eq_refl) as H.
    unfold fallback_then_fetch in H at 2. rewrite arun_fallback_first, Hdt in H.
    apply ctl_fields in H. destruct H as (_ & H2 & H3).
    split; assumption.
Qed.

Lemma features_run_twice_witness :
  feature_calls (run (fetch_then_ready fetch_ok 10 90) (loaded sample_page))
  = features ++ features
  /\ feature_calls (run (fetch_then_ready fetch_offline 10 90) (loaded sample_page))
     = features ++ features.
Proof.
  split.
  - exact (proj1 (proj1 (proj2 (proj2 (features_run_twice sample_page fetch_ok
                                         10 90 ltac:(discriminate)))))).
  - exact (proj1 (proj1 (proj2 (proj2 (features_run_twice sample_page fetch_offline
                                         10 90 ltac:(discriminate)))))).
Defined.

(** On the sample page the second run registers every listener anew: each
    chip and the form end up with two. *)
Example sample_listeners_doubled :
  let s := run (fetch_then_ready fetch_ok 10 90) (loaded sample_page) in
  handlers_at (TNode 9) Click s = [HChip [8; 9] [10; 11] 9; HChip [8; 9] [10; 11] 9]
  /\ handlers_at (TNode 12) Submit s = [HSubmit 12 (Some 16); HSubmit 12 (Some 16)]
  /\ handlers_at TDocument Click s = [HLightboxClick; HLightboxClick].
Proof. vm_compute. repeat split; reflexivity. Qed.

(** ** A valid submission on the loaded page *)

(** C5.  On the sample page after a full load the form carries the submit
    listener twice.  With "Jane", "jane@example.com" and "Hello" in the
    fields, every field is filled and the email matches the pattern, and one
    run of the listener acknowledges; but a submit event runs both copies:
    the first acknowledges, resets the form and sets the timer, the second
    reads the fields just reset and writes the fill-in message.  The user
    never sees the acknowledgement; the one timer still empties the text
    after 6000 ms. *)
Theorem valid_submit_not_acknowledged :
  handlers_at (TNode 12) Submit sample_live
  = [HSubmit 12 (Some 16); HSubmit 12 (Some 16)]
  /\ (field (live_filled "Jane" "jane@example.com" "Hello") 12 (lit "name")
      = Some (lit "Jane")
      /\ field (live_filled "Jane" "jane@example.com" "Hello") 12 (lit "email")
         = Some (lit "jane@example.com")
      /\ field (live_filled "Jane" "jane@example.com" "Hello") 12 (lit "message")
         = Some (lit "Hello")
      /\ re_test email_re (lit "jane@example.com") = true)
  /\ text_of (exec (run_handler (HSubmit 12 (Some 16)) (a_submit 12))
                (live_filled "Jane" "jane@example.com" "Hello")) 16
     = msg_thanks
  /\ text_of (run_event (ESubmit 12) (live_filled "Jane" "jane@example.com" "Hello")) 16
     = msg_fill
  /\ (value_at (run_event (ESubmit 12) (live_filled "Jane" "jane@example.com" "Hello")) 13
      = []
      /\ value_at (run_event (ESubmit 12) (live_filled "Jane" "jane@example.com" "Hello")) 14
         = []
      /\ value_at (run_event (ESubmit 12) (live_filled "Jane" "jane@example.com" "Hello")) 15
         = [])
  /\ st_timers (run_event (ESubmit 12) (live_filled "Jane" "jane@example.com" "Hello"))
     = [feedback_timer sample_live 16]
  /\ text_of (run [ESubmit 12; EAdvance 5999]
                (live_filled "Jane" "jane@example.com" "Hello")) 16
     = msg_fill
  /\ text_of (run [ESubmit 12; EAdvance 6000]
                (live_filled "Jane" "jane@example.com" "Hello")) 16
     = [].
Proof. vm_compute. repeat split; reflexivity. Qed.

(** ** The sample page at work *)

Example sample_theme_clicks :
  theme_attr (run [EClick 6] sample_live) = Some (lit "dark")
  /\ theme_flag (run [EClick 6] sample_live) = Some (lit "dark")
  /\ text_of (run [EClick 6] sample_live) 6 = sun
  /\ theme_attr (run [EClick 6; EClick 6] sample_live) = None
  /\ theme_flag (run [EClick 6; EClick 6] sample_live) = None
  /\ text_of (run [EClick 6; EClick 6] sample_live) 6 = moon.
Proof. vm_compute. repeat split; reflexivity. Qed.

Example sample_chip_drinks :
  let s := run [EClick 9] sample_live in
  classes_of s 8 = [lit "chip"]
  /\ classes_of s 9 = [lit "chip"; lit "active"]
  /\ display_of s 10 = []
  /\ display_of s 11 = lit "none".
Proof. vm_compute. repeat split; reflexivity. Qed.

Example sample_chip_all :
  let s := run [EClick 9; EClick 8] sample_live in
  classes_of s 8 = [lit "chip"; lit "active"]
  /\ classes_of s 9 = [lit "chip"]
  /\ display_of s 10 = []
  /\ display_of s 11 = [].
Proof. vm_compute. repeat split; reflexivity. Qed.

Example sample_scroll :
  classes_of (run [EScroll 100] sample_live) 2 = [lit "header"; lit "scrolled"]
  /\ classes_of (run [EScroll 100; EScroll 44] sample_live) 2 = [lit "header"].
Proof. vm_compute. repeat split; reflexivity. Qed.

Example sample_fade :
  st_observers sample_live = [[18]; [18]]
  /\ classes_of (run [EIntersect 0 [(18, true)]] sample_live) 18
     = [lit "fade-in"; lit "visible"]
  /\ st_observers (run [EIntersect 0 [(18, true)]] sample_live) = [[]; [18]].
Proof. vm_compute. repeat split; reflexivity. Qed.

(** The lightbox listener being there twice, a click on the image opens two
    overlays; Escape closes both. *)
Example sample_lightbox :
  length (kids_of (st_tree sample_live)) = 11%nat
  /\ length (kids_of (st_tree (run [EClick 17] sample_live))) = 13%nat
  /\ length (kids_of (st_tree (run [EClick 17; EKeyDown 1 (lit "Escape")] sample_live)))
     = 11%nat
  /\ handlers_at TDocument KeyDown (run [EClick 17; EKeyDown 1 (lit "Escape")] sample_live)
     = [].
Proof. vm_compute. repeat split; reflexivity. Qed.

(** The image of the overlay gets the resolved address of the image
    clicked; a click whose target is the document itself makes the listener
    throw. *)
Example sample_lightbox_source :
  attr_of (exec (run_handler HLightboxClick (a_click 17)) sample_ready)
    (image_of sample_ready) (lit "src")
  = Some (lit "https://example.org/site/a.png")
  /\ fst (run_handler HLightboxClick (Event Click TDocument []) sample_ready)
     = Throw TypeError.
Proof. vm_compute. split; reflexivity. Qed.

Example sample_submit_empty :
  let s := run [EInput 13 (lit "Jane"); EInput 14 (lit " "); EInput 15 (lit "Hello");
                ESubmit 12] sample_live in
  text_of s 16 = msg_fill
  /\ value_at s 13 = lit "Jane"
  /\ st_timers s = []
  /\ st_submitted s = [].
Proof. vm_compute. repeat split; reflexivity. Qed.

Example sample_submit_invalid :
  let s := run [EInput 13 (lit "Jane"); EInput 14 (lit "not-an-email");
                EInput 15 (lit "Hello"); ESubmit 12] sample_live in
  text_of s 16 = msg_email
  /\ value_at s 14 = lit "not-an-email"
  /\ st_timers s = [].
Proof. vm_compute. repeat split; reflexivity. Qed.

(** The form carries the submit listener twice.  On a valid submission the
    first copy acknowledges, resets the form and sets the timer; the second
    copy then reads the fields just reset, all empty, and writes the
    fill-in message over the acknowledgement. *)
Example sample_submit_valid :
  let s := run [EInput 13 (lit "Jane"); EInput 14 (lit "jane@example.com");
                EInput 15 (lit "Hello"); ESubmit 12] sample_live in
  text_of s 16 = msg_fill
  /\ value_at s 13 = []
  /\ st_timers s = [feedback_timer sample_live 16]
  /\ text_of (run [EAdvance 6000] s) 16 = [].
Proof. vm_compute. repeat split; reflexivity. Qed.

(** * Further properties

    What the rest of the script does, function by function. *)

(** ** Scroll listener *)

Lemma upd_node_twice n (f : element -> element) s :
  (forall e, f (f e) = f e) ->
  upd_node n f (upd_node n f s) = upd_node n f s.
Proof.
  intros Hf. state_eq. apply map_eq. intros i.
  destruct (decide (i = n)) as [->|Hne].
  - rewrite !lookup_alter_eq. destruct (st_nodes s !! n); simpl; [rewrite Hf|]; reflexivity.
  - rewrite !lookup_alter_ne by done. reflexivity.
Qed.

Lemma cl_force_twice c b l : cl_force c b (cl_force c b l) = cl_force c b l.
Proof. destruct b; simpl; [apply cl_add_twice|apply cl_remove_twice]. Qed.

Lemma classes_of_with_classes n f s :
  is_Some (st_nodes s !! n) ->
  classes_of (upd_node n (with_classes f) s) n = f (classes_of s n).
Proof.
  intros [e He]. unfold classes_of. sproj. rewrite lookup_alter_eq, He.
  reflexivity.
Qed.

(** Lines 38-41.  With a header, the scroll listener leaves "scrolled" on it
    exactly when the scroll offset, a fraction of a pixel as it may be, is
    greater than 44: 44 itself does not count, 44.5 does.  It keeps the other
    classes of the header and changes nothing when run again; without a
    header it does nothing at all. *)
Theorem scroll_marks_header (s : state) (h : node) (ev : event) :
  is_Some (st_nodes s !! h) ->
  let s' := exec (run_handler (HScroll (Some h)) ev) s in
  fst (run_handler (HScroll (Some h)) ev s) = Normal tt
  /\ (lit "scrolled" ∈ classes_of s' h <-> (44 < st_scrollY s)%Q)
  /\ (forall c, c <> lit "scrolled" -> (c ∈ classes_of s' h <-> c ∈ classes_of s h))
  /\ exec (run_handler (HScroll (Some h)) ev) s' = s'
  /\ run_handler (HScroll None) ev s = (Normal tt, s).
Proof.
  intros Hh.
  assert (Hrun : forall q, run_handler (HScroll (Some h)) ev q
                           = (Normal tt,
                              upd_node h (with_classes
                                            (cl_force (lit "scrolled")
                                               (negb (Qle_bool (st_scrollY q) 44)))) q))
    by reflexivity.
  cbv zeta. unfold exec. rewrite !Hrun. cbn [fst snd].
  split; [reflexivity|]. split; [|split; [|split]].
  - rewrite classes_of_with_classes by exact Hh.
    destruct (Qle_bool (st_scrollY s) 44) eqn:E; cbn [negb cl_force].
    + apply Qle_bool_iff in E. rewrite elem_of_cl_remove. split.
      * intros [Hne _]. congruence.
      * intros Hlt. exfalso. exact (Qlt_not_le _ _ Hlt E).
    + rewrite elem_of_cl_add. split; [|auto]. intros _.
      apply Qnot_le_lt. intros Hle. apply Qle_bool_iff in Hle. congruence.
  - intros c Hc. rewrite classes_of_with_classes by exact Hh.
    destruct (negb (Qle_bool (st_scrollY s) 44)); cbn [cl_force].
    + rewrite elem_of_cl_add. split; [intros [?|?]; [contradiction|assumption]|auto].
    + rewrite elem_of_cl_remove. tauto.
  - change (st_scrollY (upd_node h _ s)) with (st_scrollY s).
    apply upd_node_twice. intros e. unfold with_classes. sproj.
    rewrite cl_force_twice. reflexivity.
  - reflexivity.
Qed.

Lemma scroll_marks_header_witness :
  lit "scrolled"
  ∈ classes_of (exec (run_handler (HScroll (Some 2)) (Event Scroll TDocument []))
                  (upd_scrollY (fun _ => (89 # 2)%Q) sample_live)) 2.
Proof.
  apply (proj1 (proj2 (scroll_marks_header
                         (upd_scrollY (fun _ => (89 # 2)%Q) sample_live) 2
                         (Event Scroll TDocument [])
                         ltac:(vm_compute; eauto)))).
  reflexivity.
Defined.

(** At 44 exactly the class goes, half a pixel further it is there. *)
Example scroll_boundary :
  classes_of (run [EScroll (89 # 2)] sample_live) 2 = [lit "header"; lit "scrolled"]
  /\ classes_of (run [EScroll (89 # 2); EScroll 44] sample_live) 2 = [lit "header"].
Proof. vm_compute. repeat split; reflexivity. Qed.

(** ** Theme *)

Lemma theme_click_flag (s : state) (t : node) (ev : event) :
  theme_flag (exec (run_handler (HThemeToggle t) ev) s)
  = if bool_decide (theme_attr s = Some (lit "dark")) then None else Some (lit "dark").
Proof.
  unfold exec. cbn [run_handler]. rewrite on_theme_click_run. cbn [snd].
  destruct (bool_decide (theme_attr s = Some (lit "dark")));
    unfold theme_flag; sproj; [apply lookup_delete_eq|apply lookup_insert_eq].
Qed.

Lemma setup_theme_attr (s : state) :
  theme_attr (exec setupNavbarFeatures s)
  = if bool_decide (theme_flag s = Some (lit "dark"))
    then Some (lit "dark") else theme_attr s.
Proof.
  pose proof (setup_theme_view s 0) as Hv. unfold theme_view in Hv.
  apply (f_equal (fun v => fst (fst (fst v)))) in Hv. cbn [fst] in Hv.
  unfold theme_attr at 1. rewrite Hv. unfold theme_applied.
  destruct (bool_decide (theme_flag s = Some (lit "dark")));
    destruct (by_id s (lit "themeToggle")); sproj;
    first [apply lookup_insert_eq|reflexivity].
Qed.

(** Lines 54-65.  The theme listener decides on the attribute alone: if
    [data-theme] is "dark" it removes attribute and flag and shows the moon,
    otherwise it sets both to "dark" and shows the sun.  So after any click
    the stored flag and the attribute agree, whatever the storage held
    before. *)
Theorem theme_click_aligns_flag (s : state) (t : node) (ev : event) :
  let s' := exec (run_handler (HThemeToggle t) ev) s in
  (theme_attr s = Some (lit "dark") ->
   theme_attr s' = None /\ theme_flag s' = None
   /\ (forall e, st_nodes s' !! t = Some e -> el_text e = moon))
  /\ (theme_attr s <> Some (lit "dark") ->
      theme_attr s' = Some (lit "dark") /\ theme_flag s' = Some (lit "dark")
      /\ (forall e, st_nodes s' !! t = Some e -> el_text e = sun))
  /\ (theme_flag s' = Some (lit "dark") <-> theme_attr s' = Some (lit "dark")).
Proof.
  cbv zeta. unfold exec. simpl run_handler. rewrite on_theme_click_run.
  cbn [snd].
  assert (Htext : forall x q e,
            st_nodes (upd_node t (with_text x) q) !! t = Some e -> el_text e = x).
  { intros x q e. sproj. rewrite lookup_alter_eq.
    destruct (st_nodes q !! t); cbn; [|discriminate].
    intros H. injection H as <-. reflexivity. }
  destruct (bool_decide_reflect (theme_attr s = Some (lit "dark"))) as [Hd|Hd].
  - assert (Ha : theme_attr (upd_node t (with_text moon)
                   (upd_tree (set_kids t [])
                      (upd_storage (delete (lit "pgc-theme"))
                         (upd_html (delete (lit "data-theme")) s)))) = None)
      by (unfold theme_attr; sproj; apply lookup_delete_eq).
    assert (Hf : theme_flag (upd_node t (with_text moon)
                   (upd_tree (set_kids t [])
                      (upd_storage (delete (lit "pgc-theme"))
                         (upd_html (delete (lit "data-theme")) s)))) = None)
      by (unfold theme_flag; sproj; apply lookup_delete_eq).
    split; [intros _; split; [exact Ha|split; [exact Hf|apply Htext]]|].
    split; [intros H; contradiction|].
    rewrite Ha, Hf. split; discriminate.
  - assert (Ha : theme_attr (upd_node t (with_text sun)
                   (upd_tree (set_kids t [])
                      (upd_storage (insert (lit "pgc-theme") (lit "dark"))
                         (upd_html (insert (lit "data-theme") (lit "dark")) s))))
                 = Some (lit "dark"))
      by (unfold theme_attr; sproj; apply lookup_insert_eq).
    assert (Hf : theme_flag (upd_node t (with_text sun)
                   (upd_tree (set_kids t [])
                      (upd_storage (insert (lit "pgc-theme") (lit "dark"))
                         (upd_html (insert (lit "data-theme") (lit "dark")) s))))
                 = Some (lit "dark"))
      by (unfold theme_flag; sproj; apply lookup_insert_eq).
    split; [intros H; contradiction|].
    split; [intros _; split; [exact Ha|split; [exact Hf|apply Htext]]|].
    rewrite Ha, Hf. split; reflexivity.
Qed.

(** Lines 28-35.  [setupNavbarFeatures] applies the stored theme and only
    that: with "dark" stored it sets [data-theme] to "dark" and shows the
    sun; with anything else stored, or nothing, it shows the moon and leaves
    [data-theme] as the markup has it, never clearing it.  The storage is
    read, not written. *)
Theorem setup_applies_stored_theme (s : state) :
  let s' := exec setupNavbarFeatures s in
  theme_attr s'
  = (if bool_decide (theme_flag s = Some (lit "dark"))
     then Some (lit "dark") else theme_attr s)
  /\ st_storage s' = st_storage s
  /\ (forall t e,
        by_id s (lit "themeToggle") = Some t ->
        st_nodes s' !! t = Some e ->
        el_text e = if bool_decide (theme_flag s = Some (lit "dark"))
                    then sun else moon).
Proof.
  cbv zeta.
  assert (Hgen : forall t,
            theme_view t (exec setupNavbarFeatures s)
            = theme_view t (theme_applied (by_id s (lit "themeToggle")) s))
    by (intros t; apply setup_theme_view).
  split; [|split].
  - pose proof (Hgen 0) as Hv. unfold theme_view in Hv.
    apply (f_equal (fun v => fst (fst (fst v)))) in Hv. cbn [fst] in Hv.
    unfold theme_attr at 1. rewrite Hv. unfold theme_applied.
    destruct (bool_decide (theme_flag s = Some (lit "dark")));
      destruct (by_id s (lit "themeToggle")); sproj;
      first [apply lookup_insert_eq|reflexivity].
  - pose proof (Hgen 0) as Hv. unfold theme_view in Hv.
    apply (f_equal (fun v => snd (fst (fst v)))) in Hv. cbn [fst snd] in Hv.
    rewrite Hv. unfold theme_applied.
    destruct (bool_decide (theme_flag s = Some (lit "dark")));
      destruct (by_id s (lit "themeToggle")); reflexivity.
  - intros t e Ht He. pose proof (Hgen t) as Hv. unfold theme_view in Hv.
    apply (f_equal snd) in Hv. cbn [snd] in Hv. rewrite He, Ht in Hv.
    unfold theme_applied in Hv.
    destruct (bool_decide (theme_flag s = Some (lit "dark")));
      sproj in Hv; rewrite lookup_alter_eq in Hv;
      destruct (st_nodes s !! t); cbn in Hv; congruence.
Qed.

(** Lines 28-35 with 54-65.  The theme survives a reload: a page that starts
    from the storage a click has left gets [data-theme] set to "dark" by
    [setupNavbarFeatures] if the click turned dark on, and keeps the
    attribute of its own markup if the click turned it off. *)
Theorem theme_survives_reload (s q : state) (t : node) (ev : event) :
  st_storage q = st_storage (exec (run_handler (HThemeToggle t) ev) s) ->
  (theme_attr s <> Some (lit "dark") ->
   theme_attr (exec setupNavbarFeatures q) = Some (lit "dark"))
  /\ (theme_attr s = Some (lit "dark") ->
      theme_attr (exec setupNavbarFeatures q) = theme_attr q).
Proof.
  intros Hq.
  pose proof (theme_click_flag s t ev) as Hf.
  pose proof (setup_theme_attr q) as Ha.
  unfold theme_flag in *. rewrite Hq, Hf in Ha. split.
  - intros H. rewrite Ha, (bool_decide_eq_false_2 _ H).
    rewrite bool_decide_eq_true_2 by reflexivity. reflexivity.
  - intros H. rewrite Ha, (bool_decide_eq_true_2 _ H).
    rewrite bool_decide_eq_false_2 by discriminate. reflexivity.
Qed.

Lemma theme_survives_reload_witness :
  theme_attr (exec setupNavbarFeatures
                (upd_storage
                   (fun _ => st_storage (exec (run_handler (HThemeToggle 6) (a_click 6))
                                           sample_ready))
                   (initial sample_page)))
  = Some (lit "dark").
Proof.
  apply (proj1 (theme_survives_reload sample_ready _ 6 (a_click 6) eq_refl)).
  vm_compute. discriminate.
Defined.

(** ** Menu toggle *)

Lemma elem_of_cl_toggle (c x : jsstr) l :
  x ∈ cl_toggle c l <-> (x = c /\ c ∉ l) \/ (x <> c /\ x ∈ l).
Proof.
  unfold cl_toggle. case_bool_decide as H.
  - rewrite elem_of_cl_remove. split.
    + intros [? ?]. right. auto.
    + intros [ [_ ?] | ? ]; [contradiction|assumption].
  - rewrite elem_of_app, list_elem_of_singleton. split.
    + intros [? | ->]; [right; split; [congruence|assumption]|left; auto].
    + intros [ [-> _] | [_ ?] ]; auto.
Qed.

Lemma classes_after_menu_click cls mt nl s :
  is_Some (st_nodes s !! nl) ->
  classes_of (exec (on_menu_click cls mt nl) s) nl = cl_toggle cls (classes_of s nl).
Proof.
  intros [e He]. unfold exec. rewrite on_menu_click_run. cbn [snd].
  unfold classes_of. sproj. rewrite lookup_alter_eq, lookup_alter.
  case_decide; [subst mt|]; rewrite He; reflexivity.
Qed.

(** Lines 45-49.  Bound once, the menu listener is a proper toggle: a click
    inverts what [aria-expanded] says and whether the list has "open", and a
    second click brings both back. *)
Theorem menu_click_toggles (s : state) (mt nl : node) (ev : event) :
  is_Some (st_nodes s !! mt) ->
  is_Some (st_nodes s !! nl) ->
  let s1 := exec (run_handler (HMenuToggle mt nl) ev) s in
  let s2 := exec (run_handler (HMenuToggle mt nl) ev) s1 in
  (expanded s1 mt = negb (expanded s mt)
   /\ (lit "open" ∈ classes_of s1 nl <-> lit "open" ∉ classes_of s nl))
  /\ (expanded s2 mt = expanded s mt
      /\ (lit "open" ∈ classes_of s2 nl <-> lit "open" ∈ classes_of s nl)).
Proof.
  intros Hmt Hnl. cbv zeta. simpl run_handler.
  pose proof (menu_click_keeps_node (lit "open") mt nl s mt Hmt) as Hmt1.
  pose proof (menu_click_keeps_node (lit "open") mt nl s nl Hnl) as Hnl1.
  assert (Hopen : forall q, is_Some (st_nodes q !! nl) ->
            (lit "open" ∈ classes_of (exec (on_menu_click (lit "open") mt nl) q) nl
             <-> lit "open" ∉ classes_of q nl)).
  { intros q Hq. rewrite classes_after_menu_click by exact Hq.
    rewrite elem_of_cl_toggle. split.
    - intros [ [_ ?] | [? _] ]; [assumption|congruence].
    - intros ?. left. auto. }
  split; split.
  - apply expanded_after_menu_click. exact Hmt.
  - apply Hopen. exact Hnl.
  - rewrite (proj2 (expanded_after_menu_click _ mt nl _ Hmt1)).
    rewrite (proj2 (expanded_after_menu_click _ mt nl s Hmt)).
    apply negb_involutive.
  - rewrite (Hopen _ Hnl1), (Hopen _ Hnl).
    destruct (decide (lit "open" ∈ classes_of s nl)); tauto.
Qed.

Lemma menu_click_toggles_witness :
  expanded (exec (run_handler (HMenuToggle 3 4) (a_click 3)) sample_ready) 3 = true.
Proof.
  exact (proj1 (proj1 (menu_click_toggles sample_ready 3 4 (a_click 3)
                         ltac:(vm_compute; eauto) ltac:(vm_compute; eauto)))).
Defined.

(** ** Submitting the form *)

Lemma callback_normal m s : fst (callback m s) = Normal tt.
Proof. unfold callback, try_catch. destruct (m s) as [[[]|e] s']; reflexivity. Qed.

Lemma forEach_inv {A} (P : state -> Prop) (l : list A) (f : A -> M unit) :
  (forall x s, P s -> P (snd (f x s))) ->
  forall s, P s -> P (snd (forEach l f s)).
Proof.
  intros Hf. induction l as [|x l IH]; intros s Hs; simpl; [exact Hs|].
  unfold bind. specialize (Hf x s Hs).
  destruct (f x s) as [[[]|e] s1]; cbn [snd] in *; [apply IH|]; exact Hf.
Qed.

Lemma submit_view_add L tg ty h :
  l_type L <> ty -> preserves (submit_view L) (addEventListener tg ty h).
Proof.
  intros H s. unfold submit_view, same_listener, addEventListener, modify.
  sproj. f_equal. rewrite filter_app, (filter_singleton_False _ _ []), app_nil_r.
  - reflexivity.
  - intros <-. apply H. reflexivity.
Qed.

Lemma submit_view_remove L tg ty h :
  l_type L <> ty -> preserves (submit_view L) (removeEventListener tg ty h).
Proof.
  intros H s. unfold submit_view, same_listener, removeEventListener, modify.
  sproj. f_equal. apply list_filter_filter_l.
  intros x -> ->. apply H. reflexivity.
Qed.

(** Walks through a computation for a view that every primitive it meets
    leaves alone by computation. *)
Ltac frame_walk :=
  repeat first
    [ apply preserves_ret
    | apply preserves_throw
    | apply preserves_gets
    | apply preserves_modify; intros ?; reflexivity
    | apply preserves_bind; [|intros ?]
    | apply preserves_forEach; intros ?
    | apply preserves_try_catch; [|intros ?]
    | match goal with
      | |- preserves _ (createElement _) => intros ?; reflexivity
      | |- preserves _ new_IntersectionObserver => intros ?; reflexivity
      | |- preserves _ (match ?x with _ => _ end) => destruct x
      end ].

Ltac unfold_script :=
  unfold on_scroll, on_menu_click, on_theme_click, on_lightbox_click,
    openLightbox, overlayRemove, on_chip_click, submit_decision,
    set_textContent_of, form_reset, setTimeout, preventDefault,
    getElementById, querySelectorAll, querySelector, closest, getAttribute,
    setAttribute, classList_add, classList_remove, classList_toggle,
    classList_force, set_textContent, set_display, html_getAttribute,
    html_setAttribute, html_removeAttribute, localStorage_getItem,
    localStorage_setItem, localStorage_removeItem, body_appendChild, remove.

Lemma submit_decision_submit_view L form fb name email message :
  preserves (submit_view L) (submit_decision form fb name email message).
Proof. unfold_script. frame_walk. Qed.

Lemma submit_decision_prevented form fb name email message :
  preserves st_prevented (submit_decision form fb name email message).
Proof. unfold_script. frame_walk. Qed.

Lemma on_submit_submit_view L form fb : preserves (submit_view L) (on_submit form fb).
Proof.
  intros s. rewrite on_submit_run.
  destruct (field s form (lit "name")); [|reflexivity].
  destruct (field s form (lit "email")); [|reflexivity].
  destruct (field s form (lit "message")); [|reflexivity].
  rewrite submit_decision_submit_view. reflexivity.
Qed.

Lemma on_submit_prevents form fb s : st_prevented (snd (on_submit form fb s)) = true.
Proof.
  rewrite on_submit_run.
  destruct (field s form (lit "name")); [|reflexivity].
  destruct (field s form (lit "email")); [|reflexivity].
  destruct (field s form (lit "message")); [|reflexivity].
  rewrite submit_decision_prevented. reflexivity.
Qed.

Lemma handler_submit_view L h ev :
  l_type L = Submit -> preserves (submit_view L) (run_handler h ev).
Proof.
  intros HL. destruct h; cbn [run_handler];
    try apply on_submit_submit_view;
    unfold_script; frame_walk;
    first [apply submit_view_add|apply submit_view_remove];
    rewrite HL; discriminate.
Qed.

Lemma handler_keeps_prevented h ev s :
  st_prevented s = true -> st_prevented (snd (run_handler h ev s)) = true.
Proof.
  intros Hs.
  assert (Hp : (exists f fb, h = HSubmit f fb)
               \/ preserves st_prevented (run_handler h ev)).
  { destruct h; cbn [run_handler]; try (left; eauto; fail); right;
      unfold_script; unfold addEventListener, removeEventListener; frame_walk. }
  destruct Hp as [(f & fb & ->)|Hp].
  - apply on_submit_prevents.
  - rewrite Hp. exact Hs.
Qed.

Lemma callback_inv (P : state -> Prop) m s :
  P (snd (m s)) ->
  (forall q f, P q -> P (upd_uncaught f q)) ->
  P (snd (callback m s)).
Proof.
  intros Hm Hu. unfold callback, try_catch.
  destruct (m s) as [[[]|e] s1]; cbn [snd] in *; [exact Hm|].
  unfold modify. cbn [snd]. apply Hu. exact Hm.
Qed.

Lemma fire_at_submit_view L ev tg :
  l_type L = Submit -> preserves (submit_view L) (fire_at ev tg).
Proof.
  intros HL. unfold fire_at, callback. frame_walk.
  apply handler_submit_view. exact HL.
Qed.

Lemma dispatch_submit_view L ev :
  l_type L = Submit -> preserves (submit_view L) (dispatch ev).
Proof.
  intros HL. unfold dispatch.
  apply preserves_bind; [apply preserves_gets|intros path].
  apply preserves_forEach. intros tg. apply fire_at_submit_view. exact HL.
Qed.

(** One listener of [fire_at], as the loop runs it. *)
Lemma fire_one_run ev tg h s :
  (still <- gets (fun s => bool_decide (Listener tg (ev_type ev) h ∈ st_listeners s)) ;;
   if still then callback (run_handler h ev) else ret tt) s
  = if bool_decide (Listener tg (ev_type ev) h ∈ st_listeners s)
    then callback (run_handler h ev) s else (Normal tt, s).
Proof.
  unfold bind, gets.
  destruct (bool_decide (Listener tg (ev_type ev) h ∈ st_listeners s)); reflexivity.
Qed.

Lemma fire_one_normal ev tg h s :
  fst ((still <- gets (fun s => bool_decide (Listener tg (ev_type ev) h ∈ st_listeners s)) ;;
        if still then callback (run_handler h ev) else ret tt) s) = Normal tt.
Proof.
  rewrite fire_one_run. case_bool_decide; [apply callback_normal|reflexivity].
Qed.

Lemma fire_one_prevented ev tg h s :
  st_prevented s = true ->
  st_prevented
    (snd ((still <- gets (fun s => bool_decide (Listener tg (ev_type ev) h ∈ st_listeners s)) ;;
           if still then callback (run_handler h ev) else ret tt) s)) = true.
Proof.
  intros Hs. rewrite fire_one_run. case_bool_decide; [|exact Hs].
  apply (callback_inv (fun q => st_prevented q = true)).
  - apply handler_keeps_prevented. exact Hs.
  - intros q f Hq. exact Hq.
Qed.

Lemma fire_at_prevented ev tg s :
  st_prevented s = true -> st_prevented (snd (fire_at ev tg s)) = true.
Proof.
  intros Hs. unfold fire_at. unfold bind at 1. unfold gets at 1.
  apply (forEach_inv (fun q => st_prevented q = true)); [|exact Hs].
  intros h q Hq. apply fire_one_prevented. exact Hq.
Qed.

Lemma same_listener_elem L s : L ∈ st_listeners s <-> L ∈ same_listener L s.
Proof.
  unfold same_listener.
  rewrite (list_elem_of_filter (fun x => x = L) (st_listeners s) L). tauto.
Qed.

(** The listener of the form is reached: a listener run before it at the
    same target neither throws past the loop nor removes it. *)
Lemma fire_loop_reaches_submit form fb ev (hs : list handler) :
  ev_type ev = Submit ->
  forall s,
    Listener (TNode form) Submit (HSubmit form fb) ∈ st_listeners s ->
    HSubmit form fb ∈ hs ->
    st_prevented
      (snd (forEach hs (fun h =>
              still <- gets (fun s => bool_decide
                               (Listener (TNode form) (ev_type ev) h ∈ st_listeners s)) ;;
              if still then callback (run_handler h ev) else ret tt) s)) = true.
Proof.
  intros Hty. induction hs as [|h hs IH]; intros s HL Hin.
  - apply elem_of_nil in Hin. contradiction.
  - cbn [forEach]. unfold bind at 1.
    pose proof (fire_one_normal ev (TNode form) h s) as Hn.
    destruct (decide (h = HSubmit form fb)) as [->|Hne].
    + pose proof (fire_one_run ev (TNode form) (HSubmit form fb) s) as Hr.
      rewrite bool_decide_eq_true_2 in Hr by (rewrite Hty; exact HL).
      assert (Hp : st_prevented
                (snd (callback (run_handler (HSubmit form fb) ev) s)) = true).
      { apply (callback_inv (fun q => st_prevented q = true)).
        - apply on_submit_prevents.
        - intros q f Hq. exact Hq. }
      rewrite <- Hr in Hp.
      match type of Hn with
      | fst ?r = _ => destruct r as [[[]|e] s1]
      end; cbn [fst snd] in *; [|discriminate Hn].
      apply (forEach_inv (fun q => st_prevented q = true)); [|exact Hp].
      intros x q Hq. apply fire_one_prevented. exact Hq.
    + assert (Hv : submit_view (Listener (TNode form) Submit (HSubmit form fb))
                     (snd ((still <- gets (fun s => bool_decide
                              (Listener (TNode form) (ev_type ev) h ∈ st_listeners s)) ;;
                            if still then callback (run_handler h ev) else ret tt) s))
                   = submit_view (Listener (TNode form) Submit (HSubmit form fb)) s).
      { rewrite fire_one_run. case_bool_decide; [|reflexivity].
        unfold callback.
        apply (preserves_try_catch
                 (submit_view (Listener (TNode form) Submit (HSubmit form fb)))).
        - apply handler_submit_view. reflexivity.
        - intros e q. reflexivity. }
      match type of Hn with
      | fst ?r = _ => destruct r as [[[]|e] s1]
      end; cbn [fst snd] in *; [|discriminate Hn].
      apply IH.
      * apply same_listener_elem. apply same_listener_elem in HL.
        unfold submit_view in Hv. injection Hv as _ Hv. rewrite Hv. exact HL.
      * apply elem_of_cons in Hin. destruct Hin as [Heq|Hin]; [congruence|exact Hin].
Qed.

Lemma registered_handler tg ty h s :
  Listener tg ty h ∈ st_listeners s -> h ∈ handlers_at tg ty s.
Proof.
  intros H. unfold handlers_at. apply list_elem_of_In, List.in_map_iff.
  exists (Listener tg ty h). split; [reflexivity|].
  apply List.filter_In. split; [apply list_elem_of_In; exact H|].
  cbn [l_target l_type]. rewrite !bool_decide_eq_true_2 by reflexivity.
  reflexivity.
Qed.

Lemma path_to_head n t p : path_to n t = Some p -> exists p', p = n :: p'.
Proof.
  revert t p. fix IH 1. intros [m kids] p. simpl.
  destruct (m =? n) eqn:E.
  - apply N.eqb_eq in E. subst m. intros [= <-]. eauto.
  - clear E. induction kids as [|k kids IHk]; [discriminate|].
    destruct (path_to n k) as [q|] eqn:Hq.
    + intros [= <-]. destruct (IH k q Hq) as [q' ->]. simpl. eauto.
    + exact IHk.
Qed.

Lemma event_path_head n s : exists rest, event_path (TNode n) s = TNode n :: rest.
Proof.
  unfold event_path. destruct (path_to n (st_tree s)) as [p|] eqn:Hp.
  - destruct (path_to_head n _ p Hp) as [p' ->]. simpl. eauto.
  - eauto.
Qed.

Lemma submit_event_run form s :
  step (ESubmit form) s
  = match dispatch (Event Submit (TNode form) [])
            (upd_prevented (fun _ => false) s) with
    | (Normal _, s1) =>
        if st_prevented s1 then (Normal tt, s1)
        else (Normal tt, upd_submitted (fun l => l ++ [form]) s1)
    | (Throw e, s1) => (Throw e, s1)
    end.
Proof.
  cbn [step]. unfold bind at 1. unfold modify at 1. unfold bind at 1.
  destruct (dispatch _ _) as [[[]|e] s1]; [|reflexivity].
  unfold bind, gets. destruct (st_prevented s1); reflexivity.
Qed.

(** Lines 157-158.  A form that carries the script's submit listener is never
    submitted by the browser: the listener prevents the default action
    first, so whatever it does next, also when it throws, and whatever other
    listeners are registered, the event ends with [defaultPrevented] set and
    no form submitted. *)
Theorem registered_form_never_submits (s : state) (form : node)
    (fb : option node) :
  Listener (TNode form) Submit (HSubmit form fb) ∈ st_listeners s ->
  st_prevented (run_event (ESubmit form) s) = true
  /\ st_submitted (run_event (ESubmit form) s) = st_submitted s.
Proof.
  intros HL. unfold run_event, exec. rewrite submit_event_run.
  set (s0 := upd_prevented (fun _ => false) s).
  set (ev := Event Submit (TNode form) []).
  assert (HL0 : Listener (TNode form) Submit (HSubmit form fb) ∈ st_listeners s0)
    by exact HL.
  assert (Hv : submit_view (Listener (TNode form) Submit (HSubmit form fb))
                 (snd (dispatch ev s0))
               = submit_view (Listener (TNode form) Submit (HSubmit form fb)) s0)
    by (apply dispatch_submit_view; reflexivity).
  assert (Hp : st_prevented (snd (dispatch ev s0)) = true).
  { unfold dispatch. unfold bind at 1. unfold gets at 1.
    change (ev_target ev) with (TNode form).
    destruct (event_path_head form s0) as [rest ->].
    cbn [forEach]. unfold bind at 1.
    assert (H1 : st_prevented (snd (fire_at ev (TNode form) s0)) = true).
    { unfold fire_at. unfold bind at 1. unfold gets at 1.
      apply (fire_loop_reaches_submit form fb ev); [reflexivity|exact HL0|].
      apply registered_handler. exact HL0. }
    destruct (fire_at ev (TNode form) s0) as [[[]|e] s1]; cbn [snd] in *;
      [|exact H1].
    apply (forEach_inv (fun q => st_prevented q = true)); [|exact H1].
    intros tg q Hq. apply fire_at_prevented. exact Hq. }
  destruct (dispatch ev s0) as [[[]|e] s1]; cbn [snd] in *.
  - rewrite Hp. cbn [snd].
    split; [exact Hp|]. unfold submit_view in Hv. injection Hv as Hv _. exact Hv.
  - split; [exact Hp|]. unfold submit_view in Hv. injection Hv as Hv _. exact Hv.
Qed.

Lemma registered_form_never_submits_witness :
  st_submitted (run_event (ESubmit 12) sample_ready) = [].
Proof.
  exact (proj2 (registered_form_never_submits sample_ready 12 (Some 16)
                  ltac:(apply list_elem_of_In; vm_compute; tauto))).
Defined.

(** Lines 159-161.  Without a control for one of the three fields the
    listener throws a [TypeError] when it reads the value; by then it has
    prevented the default action and done nothing else: no message is
    written, nothing is reset, no timer is set. *)
Theorem submit_missing_control (s : state) (form : node) (fb : option node)
    (ev : event) :
  field s form (lit "name") = None
  \/ field s form (lit "email") = None
  \/ field s form (lit "message") = None ->
  run_handler (HSubmit form fb) ev s
  = (Throw TypeError, upd_prevented (fun _ => true) s).
Proof.
  intros H. cbn [run_handler]. rewrite on_submit_run.
  destruct H as [->|[->| ->]]; [reflexivity| |].
  - destruct (field s form (lit "name")); reflexivity.
  - destruct (field s form (lit "name")), (field s form (lit "email"));
      reflexivity.
Qed.

Lemma submit_missing_control_witness :
  run_handler (HSubmit 12 (Some 16)) (a_submit 12)
    (upd_tree (remove_node 13) sample_ready)
  = (Throw TypeError,
     upd_prevented (fun _ => true) (upd_tree (remove_node 13) sample_ready)).
Proof.
  apply submit_missing_control. left. vm_compute. reflexivity.
Defined.

(** ** Registration of the chip listeners *)

Lemma fold_add_listeners {A} (f : A -> listener) (l : list A) (s : state) :
  fold_left (fun s x => upd_listeners (fun ls => ls ++ [f x]) s) l s
  = upd_listeners (fun ls => ls ++ map f l) s.
Proof.
  revert s. induction l as [|x l IH]; intros s; simpl.
  - state_eq. symmetry. apply app_nil_r.
  - rewrite IH. state_eq. rewrite <- app_assoc. reflexivity.
Qed.

Lemma setupMenuFilter_run s :
  setupMenuFilter s
  = (Normal tt,
     let s0 := upd_calls (fun l => l ++ [FsetupMenuFilter]) s in
     let filters := select (st_nodes s) (Sel (SelClass (lit "chip"))) (st_tree s) in
     let items := select (st_nodes s) (Sel (SelClass (lit "menu-item"))) (st_tree s) in
     if bool_decide (filters = []) || bool_decide (items = []) then s0
     else upd_listeners
            (fun ls => ls ++ map (fun btn => Listener (TNode btn) Click
                                               (HChip filters items btn)) filters)
            s0).
Proof.
  unfold setupMenuFilter. unfold bind at 1. unfold enter. unfold modify at 1.
  unfold bind at 1. unfold querySelectorAll at 1. unfold gets at 1.
  unfold bind at 1. unfold querySelectorAll at 1. unfold gets at 1.
  sproj. cbv zeta.
  destruct (_ || _); [reflexivity|].
  unfold addEventListener.
  rewrite (forEach_modify _ _
             (fun btn => upd_listeners (fun ls => ls ++ [Listener (TNode btn) Click
                (HChip (select (st_nodes s) (Sel (SelClass (lit "chip"))) (st_tree s))
                       (select (st_nodes s) (Sel (SelClass (lit "menu-item"))) (st_tree s))
                       btn)]))
             (fun _ _ => eq_refl)).
  rewrite (fold_add_listeners
             (fun btn => Listener (TNode btn) Click
                (HChip (select (st_nodes s) (Sel (SelClass (lit "chip"))) (st_tree s))
                       (select (st_nodes s) (Sel (SelClass (lit "menu-item"))) (st_tree s))
                       btn))).
  reflexivity.
Qed.

Lemma select_class m c t n :
  n ∈ select m (Sel (SelClass c)) t
  <-> n ∈ preorder t /\ exists e, m !! n = Some e /\ c ∈ el_classes e.
Proof.
  cbn [select]. rewrite !list_elem_of_In, List.filter_In.
  unfold node_matches. split.
  - intros [Hn Hm]. split; [exact Hn|].
    destruct (m !! n) as [e|]; [|discriminate].
    exists e. split; [reflexivity|]. cbn [matches_simple] in Hm.
    apply bool_decide_eq_true_1 in Hm. exact Hm.
  - intros [Hn (e & -> & Hc)]. split; [exact Hn|].
    cbn [matches_simple]. apply bool_decide_eq_true_2. exact Hc.
Qed.

(** Lines 136-139.  [setupMenuFilter] touches no element.  On a page that
    has chips and items it registers one click listener per chip, in
    document order, each capturing the same two lists; every captured node is
    an element of the page carrying the class it was selected by, which is
    what the chip listener relies on.  With no chip or no item it registers
    nothing. *)
Theorem menu_filter_wiring (s : state) :
  let filters := select (st_nodes s) (Sel (SelClass (lit "chip"))) (st_tree s) in
  let items := select (st_nodes s) (Sel (SelClass (lit "menu-item"))) (st_tree s) in
  let s' := exec setupMenuFilter s in
  fst (setupMenuFilter s) = Normal tt
  /\ (st_nodes s' = st_nodes s /\ st_tree s' = st_tree s)
  /\ st_listeners s'
     = st_listeners s
       ++ (if bool_decide (filters = []) || bool_decide (items = []) then []
           else map (fun btn => Listener (TNode btn) Click (HChip filters items btn))
                  filters)
  /\ (forall n, n ∈ filters ->
        exists e, st_nodes s' !! n = Some e /\ lit "chip" ∈ el_classes e)
  /\ (forall n, n ∈ items ->
        exists e, st_nodes s' !! n = Some e /\ lit "menu-item" ∈ el_classes e).
Proof.
  cbv zeta. unfold exec. rewrite setupMenuFilter_run. cbn [fst snd]. cbv zeta.
  assert (Hn : forall (b : bool) (q1 q2 : state),
             st_nodes q1 = st_nodes s -> st_nodes q2 = st_nodes s ->
             st_nodes (if b then q1 else q2) = st_nodes s)
    by (intros [] ? ? ? ?; assumption).
  split; [reflexivity|]. split; [split|split; [|split]].
  - apply Hn; reflexivity.
  - destruct (_ || _); reflexivity.
  - destruct (_ || _); sproj; [rewrite app_nil_r|]; reflexivity.
  - intros n Hin. rewrite Hn by reflexivity.
    apply select_class in Hin. exact (proj2 Hin).
  - intros n Hin. rewrite Hn by reflexivity.
    apply select_class in Hin. exact (proj2 Hin).
Qed.

(** ** Fade-in *)

Lemma fold_observe (io : nat) (l : list node) :
  forall (s : state) (obs : list (list node)) (acc : list node),
    st_observers s = obs ++ [acc] -> length obs = io ->
    fold_left (fun s x => upd_observers (alter (fun l => l ++ [x]) io) s) l s
    = upd_observers (fun _ => obs ++ [acc ++ l]) s.
Proof.
  induction l as [|x l IH]; intros s obs acc Hs Hio; simpl.
  - state_eq. rewrite app_nil_r. exact Hs.
  - rewrite (IH _ obs (acc ++ [x])).
    + state_eq. rewrite <- app_assoc. reflexivity.
    + sproj. rewrite Hs. replace io with (length obs + 0)%nat by lia.
      rewrite alter_app_r. reflexivity.
    + exact Hio.
Qed.

Lemma setupFadeOnScroll_run s :
  setupFadeOnScroll s
  = (Normal tt,
     let s0 := upd_calls (fun l => l ++ [FsetupFadeOnScroll]) s in
     let faders := select (st_nodes s) (Sel (SelClass (lit "fade-in"))) (st_tree s) in
     if bool_decide (faders = []) then s0
     else upd_observers (fun obs => obs ++ [faders]) s0).
Proof.
  unfold setupFadeOnScroll. unfold bind at 1. unfold enter. unfold modify at 1.
  unfold bind at 1. unfold querySelectorAll at 1. unfold gets at 1.
  sproj. cbv zeta.
  destruct (bool_decide _); [reflexivity|].
  unfold bind at 1. unfold new_IntersectionObserver at 1. unfold observe.
  sproj.
  rewrite (forEach_modify _
             (fun el : node => modify (upd_observers
                (alter (fun l : list node => l ++ [el]) (length (st_observers s)))))
             (fun el : node => upd_observers
                (alter (fun l : list node => l ++ [el]) (length (st_observers s))))
             (fun _ _ => eq_refl)).
  rewrite (fold_observe _ _ _ (st_observers s) []) by reflexivity.
  f_equal; state_eq.
Qed.

(** Lines 78-88.  A call of [setupFadeOnScroll] creates one observer that
    watches every [.fade-in] element, in document order; on a page without
    such an element it creates none.  No element, listener or timer is
    touched. *)
Theorem fade_setup_observes (s : state) :
  let faders := select (st_nodes s) (Sel (SelClass (lit "fade-in"))) (st_tree s) in
  let s' := exec setupFadeOnScroll s in
  fst (setupFadeOnScroll s) = Normal tt
  /\ st_observers s'
     = st_observers s ++ (if bool_decide (faders = []) then [] else [faders])
  /\ (forall n, n ∈ faders ->
        exists e, st_nodes s !! n = Some e /\ lit "fade-in" ∈ el_classes e)
  /\ (st_nodes s' = st_nodes s /\ st_tree s' = st_tree s
      /\ st_listeners s' = st_listeners s /\ st_timers s' = st_timers s).
Proof.
  cbv zeta. unfold exec. rewrite setupFadeOnScroll_run. cbn [fst snd]. cbv zeta.
  split; [reflexivity|]. split; [|split].
  - destruct (bool_decide _); sproj; [rewrite app_nil_r|]; reflexivity.
  - intros n Hin. apply select_class in Hin. exact (proj2 Hin).
  - destruct (bool_decide _); repeat split; reflexivity.
Qed.

Lemma on_intersect_run io entries s :
  on_intersect io entries s
  = (Normal tt, fold_left (fun s e => reveal io e s) entries s).
Proof.
  unfold on_intersect. apply forEach_modify.
  intros [n []] q; reflexivity.
Qed.

Lemma classes_of_reveal io e s n :
  is_Some (st_nodes s !! n) ->
  classes_of (reveal io e s) n
  = if snd e && bool_decide (n = fst e)
    then cl_add (lit "visible") (classes_of s n) else classes_of s n.
Proof.
  intros [x Hx]. destruct e as [m b]. unfold reveal. cbn [fst snd].
  destruct b; cbn [andb]; [|reflexivity].
  unfold classes_of. sproj. case_bool_decide as Hnm.
  - subst m. rewrite lookup_alter_eq, Hx. reflexivity.
  - rewrite lookup_alter_ne by congruence. reflexivity.
Qed.

Lemma reveal_keeps_node io e s n :
  is_Some (st_nodes s !! n) -> is_Some (st_nodes (reveal io e s) !! n).
Proof.
  intros H. destruct e as [m []]; unfold reveal; cbn [fst snd]; [|exact H].
  sproj. rewrite lookup_alter. case_decide; [subst m|exact H].
  destruct H as [x ->]. eauto.
Qed.

Lemma classes_after_intersect io entries :
  forall s n,
    is_Some (st_nodes s !! n) ->
    classes_of (fold_left (fun s e => reveal io e s) entries s) n
    = if bool_decide ((n, true) ∈ entries)
      then cl_add (lit "visible") (classes_of s n) else classes_of s n.
Proof.
  induction entries as [|e es IH]; intros s n Hn; cbn [fold_left].
  - rewrite bool_decide_eq_false_2 by apply not_elem_of_nil. reflexivity.
  - rewrite IH by (apply reveal_keeps_node; exact Hn).
    rewrite classes_of_reveal by exact Hn.
    destruct e as [m b]. cbn [fst snd].
    destruct (decide ((n, true) = (m, b))) as [Heq|Hne].
    + injection Heq as <- <-. cbn [andb].
      rewrite (bool_decide_eq_true_2 (n = n)) by reflexivity.
      rewrite (bool_decide_eq_true_2 ((n, true) ∈ (n, true) :: es))
        by (apply elem_of_cons; left; reflexivity).
      case_bool_decide; [apply cl_add_twice|reflexivity].
    + assert (Hb : b && bool_decide (n = m) = false).
      { destruct b; [|reflexivity]. cbn [andb].
        apply bool_decide_eq_false_2. intros ->. apply Hne. reflexivity. }
      rewrite Hb.
      assert (Hiff : (n, true) ∈ (m, b) :: es <-> (n, true) ∈ es).
      { rewrite elem_of_cons. tauto. }
      rewrite (bool_decide_ext _ _ Hiff). reflexivity.
Qed.

Lemma filter_all {A} (P : A -> Prop) `{!forall x, Decision (P x)} (l : list A) :
  (forall x, P x) -> filter P l = l.
Proof.
  intros HP. induction l as [|x l IH]; [reflexivity|].
  rewrite filter_cons_True by apply HP. rewrite IH. reflexivity.
Qed.

Lemma observers_after_intersect io entries :
  forall s,
    st_observers (fold_left (fun s e => reveal io e s) entries s) !! io
    = filter (fun n => (n, true) ∉ entries) <$> st_observers s !! io.
Proof.
  induction entries as [|e es IH]; intros s; cbn [fold_left].
  - destruct (st_observers s !! io) as [l|]; cbn; [|reflexivity].
    f_equal. symmetry. apply filter_all. intros x. apply not_elem_of_nil.
  - rewrite IH. destruct e as [m b]. unfold reveal. cbn [fst snd].
    destruct b; sproj.
    + rewrite list_lookup_alter_eq.
      destruct (st_observers s !! io) as [l|]; cbn; [|reflexivity].
      f_equal. rewrite list_filter_filter. apply list_filter_iff.
      intros x. rewrite not_elem_of_cons. split.
      * intros [H1 H2]. split; [congruence|exact H1].
      * intros [H1 H2]. split; [exact H2|congruence].
    + destruct (st_observers s !! io) as [l|]; cbn; [|reflexivity].
      f_equal. apply list_filter_iff. intros x. rewrite not_elem_of_cons.
      split; [intros H; split; [discriminate|exact H]|tauto].
Qed.

Lemma intersect_frame io entries :
  forall s,
    let s' := fold_left (fun s e => reveal io e s) entries s in
    (forall j, j <> io -> st_observers s' !! j = st_observers s !! j)
    /\ st_tree s' = st_tree s /\ st_listeners s' = st_listeners s.
Proof.
  induction entries as [|e es IH]; intros s; cbn [fold_left]; cbv zeta.
  - repeat split; reflexivity.
  - destruct (IH (reveal io e s)) as (H1 & H2 & H3).
    rewrite H2, H3. destruct e as [m []]; unfold reveal; cbn [fst snd]; sproj.
    + split; [|split; reflexivity].
      intros j Hj. rewrite H1 by exact Hj. unfold reveal. cbn [fst snd]. sproj.
      apply list_lookup_alter_ne. congruence.
    + split; [|split; reflexivity]. exact H1.
Qed.

(** Lines 80-87.  The observer callback reveals what has come into view, once:
    every element reported as intersecting gains "visible" and keeps its other
    classes; every other element keeps its classes as they are; nothing loses
    "visible".  The observer stops watching exactly the elements it revealed,
    and no other observer is touched. *)
Theorem intersect_reveals (s : state) (io : nat) (entries : list (node * bool)) :
  let s' := exec (on_intersect io entries) s in
  fst (on_intersect io entries s) = Normal tt
  /\ (forall n, is_Some (st_nodes s !! n) ->
        classes_of s' n
        = if bool_decide ((n, true) ∈ entries)
          then cl_add (lit "visible") (classes_of s n) else classes_of s n)
  /\ st_observers s' !! io
     = filter (fun n => (n, true) ∉ entries) <$> st_observers s !! io
  /\ (forall j, j <> io -> st_observers s' !! j = st_observers s !! j)
  /\ st_tree s' = st_tree s
  /\ st_listeners s' = st_listeners s.
Proof.
  cbv zeta. unfold exec. rewrite on_intersect_run. cbn [fst snd].
  split; [reflexivity|]. split; [|split].
  - intros n Hn. apply classes_after_intersect. exact Hn.
  - apply observers_after_intersect.
  - exact (intersect_frame io entries s).
Qed.

(** ** Lightbox *)

Lemma preorder_append_root k t :
  preorder (append_kid (root_of t) k t) = preorder t ++ preorder k.
Proof.
  destruct t as [m ks]. cbn [root_of append_kid]. rewrite N.eqb_refl.
  cbn [preorder]. rewrite flat_map_app. cbn [flat_map].
  rewrite app_nil_r. reflexivity.
Qed.






Lemma remove_node_eq n m ks :
  remove_node n (T m ks)
  = T m (flat_map (fun k => if root_of k =? n then [] else [remove_node n k]) ks).
Proof.
  cbn [remove_node]. f_equal.
  induction ks as [|k ks IH]; [reflexivity|].
  cbn [flat_map]. destruct (root_of k =? n); cbn [app]; rewrite IH; reflexivity.
Qed.

Lemma remove_node_absent n t : n ∉ preorder t -> remove_node n t = t.
Proof.
  induction t as [m ks IH] using tree_ind_kids. intros Hn.
  rewrite remove_node_eq. f_equal.
  cbn [preorder] in Hn. apply not_elem_of_cons in Hn. destruct Hn as [_ Hn].
  induction IH as [|k ks Hk _ IHks]; [reflexivity|].
  cbn [flat_map] in *. apply not_elem_of_app in Hn. destruct Hn as [Hnk Hnks].
  assert (Hr : (root_of k =? n) = false).
  { apply N.eqb_neq. intros <-. apply Hnk. destruct k. cbn [preorder root_of].
    apply elem_of_cons. left. reflexivity. }
  rewrite Hr, (Hk Hnk), (IHks Hnks). reflexivity.
Qed.

Lemma remove_appended n ks t :
  n ∉ preorder t ->
  remove_node n (append_kid (root_of t) (T n ks) t) = t.
Proof.
  intros Hn. pose proof (remove_node_absent n t Hn) as Ht.
  destruct t as [m kids]. cbn [root_of append_kid]. rewrite N.eqb_refl.
  rewrite remove_node_eq in *. injection Ht as Ht.
  rewrite flat_map_app, Ht. cbn [flat_map root_of]. rewrite N.eqb_refl.
  cbn [app]. rewrite app_nil_r. reflexivity.
Qed.

Lemma filter_id_in {A} (P : A -> Prop) `{!forall x, Decision (P x)} (l : list A) :
  (forall x, x ∈ l -> P x) -> filter P l = l.
Proof.
  induction l as [|x l IH]; intros HP; [reflexivity|].
  rewrite filter_cons_True by (apply HP; apply elem_of_cons; left; reflexivity).
  rewrite IH; [reflexivity|].
  intros y Hy. apply HP. apply elem_of_cons. right. exact Hy.
Qed.

Lemma overlay_fresh s : st_nodes s !! overlay_of s = None.
Proof. apply not_elem_of_dom. exact (is_fresh (dom (st_nodes s))). Qed.

Lemma image_fresh s :
  image_of s <> overlay_of s /\ st_nodes s !! image_of s = None.
Proof.
  pose proof (is_fresh ({[overlay_of s]} ∪ dom (st_nodes s))) as H.
  fold (image_of s) in H. apply not_elem_of_union in H. destruct H as [H1 H2].
  split.
  - intros Heq. apply H1. rewrite Heq. apply elem_of_singleton. reflexivity.
  - apply not_elem_of_dom. exact H2.
Qed.

(** The state [openLightbox] leaves, field by field. *)
Lemma openLightbox_run src alt s :
  let ov := overlay_of s in
  let img := image_of s in
  fst (openLightbox src alt s) = Normal tt
  /\ st_tree (exec (openLightbox src alt) s)
     = append_kid (root_of (st_tree s)) (T ov [T img []]) (st_tree s)
  /\ st_listeners (exec (openLightbox src alt) s)
     = st_listeners s ++ [Listener (TNode ov) Click (HOverlayClick ov);
                          Listener TDocument KeyDown (HOnKey ov)]
  /\ st_nodes (exec (openLightbox src alt) s)
     = alter (with_attrs (insert (lit "alt") alt)) img
         (alter (with_attrs (insert (lit "src") src)) img
            (<[img := new_element (lit "img")]>
               (alter (with_attrs (insert (lit "tabindex") (lit "-1"))) ov
                  (alter (with_classes (fun _ => [lit "lightbox-root"; lit "visible"])) ov
                     (<[ov := new_element (lit "div")]> (st_nodes s)))))).
Proof.
  cbv zeta.
  assert (Himg : fresh (dom (alter (with_attrs (insert (lit "tabindex") (lit "-1")))
                               (overlay_of s)
                               (alter (with_classes
                                         (fun _ => [lit "lightbox-root"; lit "visible"]))
                                  (overlay_of s)
                                  (<[overlay_of s := new_element (lit "div")]>
                                     (st_nodes s)))))
                 = image_of s).
  { unfold image_of. rewrite !dom_alter_L, dom_insert_L. reflexivity. }
  split; [reflexivity|]. split; [|split].
  - rewrite <- Himg. reflexivity.
  - transitivity ((st_listeners s
                   ++ [Listener (TNode (overlay_of s)) Click (HOverlayClick (overlay_of s))])
                  ++ [Listener TDocument KeyDown (HOnKey (overlay_of s))]).
    + reflexivity.
    + rewrite <- app_assoc. reflexivity.
  - rewrite <- Himg. reflexivity.
Qed.

Lemma overlayRemove_run ov q :
  overlayRemove ov q
  = (Normal tt,
     upd_listeners (filter (fun l => l <> Listener TDocument KeyDown (HOnKey ov)))
       (upd_tree (remove_node ov)
          (upd_node ov (with_classes (cl_remove (lit "visible"))) q))).
Proof. reflexivity. Qed.

(** Lines 107-131.  On a page whose tree and key listeners mention only
    elements that exist, [openLightbox] appends a new overlay holding a new
    image to the body, the overlay with classes "lightbox-root" and "visible",
    the image with the given source and alternative text, and registers a
    click listener on the overlay and a key listener on the document.
    Escape then detaches the overlay and removes the key listener: the tree
    is the one before the lightbox opened and every element that existed is
    as it was.  The overlay's own click listener stays registered.  A click
    on the overlay itself closes it the same way, a click on its image or
    another key does nothing. *)
Theorem lightbox_open_close (s : state) (src alt : jsstr) (ev : event) :
  (forall n, n ∈ preorder (st_tree s) -> is_Some (st_nodes s !! n)) ->
  (forall n, Listener TDocument KeyDown (HOnKey n) ∈ st_listeners s ->
             is_Some (st_nodes s !! n)) ->
  ev_key ev = lit "Escape" ->
  let ov := overlay_of s in
  let img := image_of s in
  let s1 := exec (openLightbox src alt) s in
  let s2 := exec (run_handler (HOnKey ov) ev) s1 in
  (preorder (st_tree s1) = preorder (st_tree s) ++ [ov; img]
   /\ classes_of s1 ov = [lit "lightbox-root"; lit "visible"]
   /\ attr_of s1 img (lit "src") = Some src
   /\ attr_of s1 img (lit "alt") = Some alt
   /\ st_listeners s1
      = st_listeners s ++ [Listener (TNode ov) Click (HOverlayClick ov);
                           Listener TDocument KeyDown (HOnKey ov)])
  /\ (st_tree s2 = st_tree s
      /\ st_listeners s2
         = st_listeners s ++ [Listener (TNode ov) Click (HOverlayClick ov)]
      /\ (forall n, is_Some (st_nodes s !! n) -> st_nodes s2 !! n = st_nodes s !! n))
  /\ ((forall ev', ev_target ev' = TNode ov ->
         run_handler (HOverlayClick ov) ev' s1 = run_handler (HOnKey ov) ev s1)
      /\ (forall ev', ev_target ev' <> TNode ov ->
            run_handler (HOverlayClick ov) ev' s1 = (Normal tt, s1))
      /\ (forall ev', ev_key ev' <> lit "Escape" ->
            run_handler (HOnKey ov) ev' s1 = (Normal tt, s1))).
Proof.
  intros Htree Hkeys Hkey. cbv zeta.
  destruct (openLightbox_run src alt s) as (_ & Ht & Hl & Hm). cbv zeta in *.
  destruct (image_fresh s) as [Hio Himg].
  pose proof (overlay_fresh s) as Hov.
  set (ov := overlay_of s) in *. set (img := image_of s) in *.
  set (s1 := exec (openLightbox src alt) s) in *.
  assert (Hclose : run_handler (HOnKey ov) ev s1 = overlayRemove ov s1).
  { cbn [run_handler]. rewrite bool_decide_eq_true_2 by exact Hkey. reflexivity. }
  assert (Hfresh : forall n, is_Some (st_nodes s !! n) -> n <> ov /\ n <> img).
  { intros n [e He]. split; intros ->; congruence. }
  split; [|split].
  - split; [|split; [|split; [|split]]].
    + rewrite Ht, preorder_append_root. reflexivity.
    + unfold classes_of. rewrite Hm.
      rewrite !lookup_alter_ne, lookup_insert_ne by congruence.
      rewrite !lookup_alter_eq, lookup_insert_eq. reflexivity.
    + unfold attr_of. rewrite Hm.
      rewrite !lookup_alter_eq, lookup_insert_eq. cbn.
      rewrite lookup_insert_ne by discriminate. apply lookup_insert_eq.
    + unfold attr_of. rewrite Hm.
      rewrite !lookup_alter_eq, lookup_insert_eq. cbn.
      apply lookup_insert_eq.
    + exact Hl.
  - unfold exec at 1 2 3. rewrite Hclose, overlayRemove_run. sproj.
    split; [|split].
    + rewrite Ht. apply remove_appended. intros Hin.
      destruct (Htree _ Hin) as [e He]. congruence.
    + rewrite Hl, filter_app.
      rewrite filter_id_in.
      * rewrite filter_cons_True by discriminate.
        rewrite filter_cons_False by (intros H; apply H; reflexivity).
        reflexivity.
      * intros x Hx ->. destruct (Hkeys _ Hx) as [e He]. congruence.
    + intros n Hn. destruct (Hfresh n Hn) as [Hn1 Hn2]. rewrite Hm.
      rewrite !lookup_alter_ne, lookup_insert_ne by congruence.
      rewrite !lookup_alter_ne, lookup_insert_ne by congruence. reflexivity.
  - split; [|split].
    + intros ev' Htg. rewrite Hclose. cbn [run_handler].
      rewrite bool_decide_eq_true_2 by exact Htg. reflexivity.
    + intros ev' Htg. cbn [run_handler].
      rewrite bool_decide_eq_false_2 by exact Htg. reflexivity.
    + intros ev' Hk. cbn [run_handler].
      rewrite bool_decide_eq_false_2 by exact Hk. reflexivity.
Qed.

Lemma lightbox_open_close_witness :
  st_tree (exec (run_handler (HOnKey (overlay_of sample_live))
                   (Event KeyDown TDocument (lit "Escape")))
             (exec (openLightbox (lit "a.jpg") (lit "A")) sample_live))
  = st_tree sample_live.
Proof.
  refine (proj1 (proj1 (proj2 (lightbox_open_close sample_live (lit "a.jpg") (lit "A")
                          (Event KeyDown TDocument (lit "Escape")) _ _ eq_refl)))).
  - intros n Hn. vm_compute in Hn.
    repeat (apply elem_of_cons in Hn; destruct Hn as [->|Hn];
            [vm_compute; eauto|]).
    apply elem_of_nil in Hn. contradiction.
  - intros n Hn. exfalso. revert Hn. rewrite list_elem_of_In.
    vm_compute. intuition discriminate.
Defined.

(** ** Active links *)

Lemma starts_with_spec p : forall s, starts_with p s = true <-> exists r, s = p ++ r.
Proof.
  induction p as [|a p IH]; intros s; cbn [starts_with].
  - split; [intros _; exists s; reflexivity|reflexivity].
  - destruct s as [|b s].
    + split; [discriminate|]. intros [r Hr]. discriminate Hr.
    + rewrite andb_true_iff, N.eqb_eq, IH. split.
      * intros [-> [r ->]]. exists r. reflexivity.
      * intros [r Hr]. injection Hr as -> ->. split; [reflexivity|eauto].
Qed.

Lemma ends_with_spec s p : ends_with s p = true <-> exists q, s = q ++ p.
Proof.
  unfold ends_with. rewrite starts_with_spec. split.
  - intros [r Hr]. exists (rev r).
    rewrite <- (rev_involutive s), Hr, rev_app_distr, rev_involutive. reflexivity.
  - intros [q ->]. exists (rev q). apply rev_app_distr.
Qed.

Lemma highlight_run s :
  highlight_active_links s
  = (Normal tt, fold_left (fun q l => mark_active l q) (nav_links s) s).
Proof.
  unfold highlight_active_links. unfold bind at 1.
  unfold querySelectorAll at 1. unfold gets at 1. fold (nav_links s).
  apply forEach_modify. intros l q.
  unfold bind, getAttribute, gets, mark_active, points_here.
  destruct (ends_with _ _); reflexivity.
Qed.

Lemma points_here_mark l s n : points_here (mark_active l s) n = points_here s n.
Proof.
  unfold mark_active. destruct (points_here s l); [|reflexivity].
  unfold points_here. rewrite attr_of_with_classes. reflexivity.
Qed.

Lemma mark_keeps_node l s n :
  is_Some (st_nodes s !! n) -> is_Some (st_nodes (mark_active l s) !! n).
Proof.
  intros H. unfold mark_active. destruct (points_here s l); [|exact H].
  sproj. rewrite lookup_alter. case_decide; [subst l|exact H].
  destruct H as [x ->]. eauto.
Qed.

Lemma classes_of_mark l s n :
  is_Some (st_nodes s !! n) ->
  classes_of (mark_active l s) n
  = if bool_decide (n = l) && points_here s n
    then cl_add (lit "active") (classes_of s n) else classes_of s n.
Proof.
  intros [x Hx]. unfold mark_active. case_bool_decide as Hnl; cbn [andb].
  - subst l. destruct (points_here s n); [|reflexivity].
    unfold classes_of. sproj. rewrite lookup_alter_eq, Hx. reflexivity.
  - destruct (points_here s l); [|reflexivity].
    unfold classes_of. sproj. rewrite lookup_alter_ne by congruence. reflexivity.
Qed.

Lemma classes_after_highlight (links : list node) :
  forall s n,
    is_Some (st_nodes s !! n) ->
    classes_of (fold_left (fun q l => mark_active l q) links s) n
    = if bool_decide (n ∈ links) && points_here s n
      then cl_add (lit "active") (classes_of s n) else classes_of s n.
Proof.
  induction links as [|l ls IH]; intros s n Hn; cbn [fold_left].
  - rewrite bool_decide_eq_false_2 by apply not_elem_of_nil. reflexivity.
  - rewrite IH by (apply mark_keeps_node; exact Hn).
    rewrite points_here_mark, classes_of_mark by exact Hn.
    destruct (points_here s n); rewrite ?andb_false_r; [|reflexivity].
    rewrite !andb_true_r.
    destruct (bool_decide_reflect (n = l)) as [->|Hnl].
    + rewrite (bool_decide_eq_true_2 (l ∈ l :: ls))
        by (apply elem_of_cons; left; reflexivity).
      case_bool_decide; [apply cl_add_twice|reflexivity].
    + assert (Hiff : n ∈ l :: ls <-> n ∈ ls) by (rewrite elem_of_cons; tauto).
      rewrite (bool_decide_ext _ _ Hiff). reflexivity.
Qed.

Lemma matches_simple_mark e sel :
  sel <> SelClass (lit "active") ->
  matches_simple (with_classes (cl_add (lit "active")) e) sel = matches_simple e sel.
Proof.
  intros Hsel. destruct sel as [c| |]; cbn [matches_simple]; sproj; try reflexivity.
  apply bool_decide_ext. rewrite elem_of_cl_add. split; [|auto].
  intros [->|H]; [contradiction|exact H].
Qed.

Lemma node_matches_mark l s sel n :
  sel <> SelClass (lit "active") ->
  node_matches (st_nodes (mark_active l s)) sel n = node_matches (st_nodes s) sel n.
Proof.
  intros Hsel. unfold mark_active. destruct (points_here s l); [|reflexivity].
  unfold node_matches. sproj. rewrite lookup_alter. case_decide; [subst l|reflexivity].
  destruct (st_nodes s !! n); cbn; [apply matches_simple_mark; exact Hsel|reflexivity].
Qed.

Lemma mark_frame l s :
  st_tree (mark_active l s) = st_tree s
  /\ st_pathname (mark_active l s) = st_pathname s
  /\ st_listeners (mark_active l s) = st_listeners s.
Proof. unfold mark_active. destruct (points_here s l); repeat split; reflexivity. Qed.

Lemma highlight_frame (links : list node) sel :
  sel <> SelClass (lit "active") ->
  forall s,
    let s' := fold_left (fun q l => mark_active l q) links s in
    st_tree s' = st_tree s
    /\ st_listeners s' = st_listeners s
    /\ (forall n, points_here s' n = points_here s n)
    /\ (forall n, node_matches (st_nodes s') sel n = node_matches (st_nodes s) sel n).
Proof.
  intros Hsel. induction links as [|l ls IH]; intros s; cbn [fold_left]; cbv zeta.
  - repeat split; reflexivity.
  - destruct (IH (mark_active l s)) as (H1 & H2 & H3 & H4).
    destruct (mark_frame l s) as (F1 & F2 & F3).
    rewrite H1, H2, F1, F3. split; [reflexivity|]. split; [reflexivity|]. split.
    + intros n. rewrite H3. apply points_here_mark.
    + intros n. rewrite H4. apply node_matches_mark. exact Hsel.
Qed.

Lemma select_desc_ext m m' a b t :
  (forall n, node_matches m' a n = node_matches m a n) ->
  (forall n, node_matches m' b n = node_matches m b n) ->
  forall inside, select_desc m' a b inside t = select_desc m a b inside t.
Proof.
  intros Ha Hb. induction t as [n ks IH] using tree_ind_kids. intros inside.
  cbn [select_desc]. rewrite Ha, Hb. f_equal.
  induction IH as [|k ks Hk _ IHks]; [reflexivity|].
  cbn [flat_map]. rewrite Hk, IHks. reflexivity.
Qed.

Lemma fold_fixed {A} (f : A -> state -> state) (l : list A) (q : state) :
  (forall x, x ∈ l -> f x q = q) -> fold_left (fun s x => f x s) l q = q.
Proof.
  induction l as [|x l IH]; intros H; cbn [fold_left]; [reflexivity|].
  rewrite H by (apply elem_of_cons; left; reflexivity).
  apply IH. intros y Hy. apply H. apply elem_of_cons. right. exact Hy.
Qed.

Lemma select_desc_exist m a b t :
  forall inside n, n ∈ select_desc m a b inside t -> is_Some (m !! n).
Proof.
  induction t as [k ks IH] using tree_ind_kids. intros inside n.
  cbn [select_desc]. rewrite elem_of_app. intros [H|H].
  - destruct (inside && node_matches m b k) eqn:E;
      [|apply elem_of_nil in H; contradiction].
    apply list_elem_of_singleton in H. subst n.
    apply andb_true_iff in E. destruct E as [_ E]. unfold node_matches in E.
    destruct (m !! k); [eauto|discriminate].
  - revert H. generalize (inside || node_matches m a k).
    induction IH as [|c cs Hc _ IHcs]; intros i H.
    + apply elem_of_nil in H. contradiction.
    + cbn [flat_map] in H. apply elem_of_app in H. destruct H as [H|H].
      * exact (Hc i n H).
      * exact (IHcs i H).
Qed.

Lemma nav_links_exist s n : n ∈ nav_links s -> is_Some (st_nodes s !! n).
Proof. unfold nav_links. cbn [select]. apply select_desc_exist. Qed.

(** Lines 69-73 and 224-228.  The active-link pass adds "active" to the links
    below [.nav-list] whose [href] is a suffix of the path of the page, a
    missing [href] counting as "null"; it removes no class and touches no
    other element.  Run again, as the script does, it changes nothing. *)
Theorem highlight_marks_links (s : state) :
  let s' := exec highlight_active_links s in
  fst (highlight_active_links s) = Normal tt
  /\ (forall n, is_Some (st_nodes s !! n) ->
        classes_of s' n
        = if bool_decide (n ∈ nav_links s) && points_here s n
          then cl_add (lit "active") (classes_of s n) else classes_of s n)
  /\ (forall n, points_here s n = true
                <-> exists q, st_pathname s
                              = q ++ to_string (attr_of s n (lit "href")))
  /\ (st_tree s' = st_tree s /\ st_listeners s' = st_listeners s)
  /\ exec highlight_active_links s' = s'.
Proof.
  cbv zeta. unfold exec. rewrite highlight_run. cbn [fst snd].
  set (s' := fold_left (fun q l => mark_active l q) (nav_links s) s).
  assert (Hcl := classes_after_highlight (nav_links s) s). fold s' in Hcl.
  assert (Hnl : SelClass (lit "nav-list") <> SelClass (lit "active")) by discriminate.
  assert (Ha : SelTag (lit "a") <> SelClass (lit "active")) by discriminate.
  destruct (highlight_frame (nav_links s) _ Hnl s) as (Ht & Hl & Hp & Hm1).
  destruct (highlight_frame (nav_links s) _ Ha s) as (_ & _ & _ & Hm2).
  cbv zeta in *. fold s' in Ht, Hl, Hp, Hm1, Hm2.
  split; [reflexivity|]. split; [exact Hcl|]. split; [|split].
  - intros n. apply ends_with_spec.
  - split; assumption.
  - rewrite highlight_run. cbn [snd].
    assert (Hlinks : nav_links s' = nav_links s).
    { unfold nav_links. rewrite Ht. cbn [select].
      apply select_desc_ext; assumption. }
    rewrite Hlinks. apply fold_fixed. intros l Hin.
    unfold mark_active. rewrite Hp.
    destruct (points_here s l) eqn:Hpt; [|reflexivity].
    pose proof (nav_links_exist s l Hin) as Hex.
    specialize (Hcl l Hex).
    rewrite (bool_decide_eq_true_2 _ Hin), Hpt in Hcl. cbn [andb] in Hcl.
    state_eq. apply map_eq. intros i. rewrite lookup_alter.
    case_decide as Hi; [subst i|reflexivity].
    unfold classes_of in Hcl.
    destruct (st_nodes s' !! l) as [e|] eqn:He; [|reflexivity].
    cbn. f_equal. destruct e as [tg ats cl tx di va de]. unfold with_classes. sproj.
    cbn [el_classes] in Hcl. f_equal.
    unfold cl_add at 1. rewrite bool_decide_eq_true_2; [reflexivity|].
    rewrite Hcl. apply elem_of_cl_add. left. reflexivity.
Qed.

(** ** Loading the navbar *)

Lemma calm_enter_navbar : calm (enter FsetupNavbarFeatures).
Proof.
  intros s. exists tt, (upd_calls (fun l => l ++ [FsetupNavbarFeatures]) s).
  split; [reflexivity|]. exact (keeps_enter_navbar s).
Qed.

Lemma calm_highlight : calm highlight_active_links.
Proof.
  unfold highlight_active_links, querySelectorAll, getAttribute, classList_add.
  calm_walk.
Qed.

Lemma calm_setupNavbarFeatures : calm setupNavbarFeatures.
Proof.
  unfold setupNavbarFeatures.
  apply calm_bind; [apply calm_enter_navbar|intros _].
  unfold querySelector, getElementById, localStorage_getItem, html_setAttribute,
    set_textContent.
  calm_walk; apply calm_highlight.
Qed.

Lemma setupNavbarFeatures_normal s : fst (setupNavbarFeatures s) = Normal tt.
Proof.
  destruct (calm_setupNavbarFeatures s) as ([] & s' & -> & _). reflexivity.
Qed.

Lemma setup_navbar_console : preserves st_console setupNavbarFeatures.
Proof.
  unfold setupNavbarFeatures, highlight_active_links, enter, addEventListener.
  unfold_script. frame_walk.
Qed.

Lemma setup_navbar_calls s :
  st_calls (exec setupNavbarFeatures s) = st_calls s ++ [FsetupNavbarFeatures].
Proof.
  unfold exec, setupNavbarFeatures. unfold bind at 1. unfold enter. unfold modify at 1.
  match goal with
  | |- st_calls (snd (?m ?q)) = _ =>
      assert (H : preserves st_calls m)
  end.
  { unfold highlight_active_links, addEventListener. unfold_script. frame_walk. }
  rewrite H. reflexivity.
Qed.

(** Lines 11-15.  When the request succeeds and the page has the container,
    the fetched markup replaces the container's content and
    [setupNavbarFeatures] runs on the page with the navbar in place; nothing
    is logged. *)
Theorem navbar_injected (s : state) (html : list ftree) (c : node) :
  by_id s (lit "navbar-container") = Some c ->
  let o := Resolved (Response true (inr html)) in
  let r := build_all html (st_nodes s) in
  let s1 := upd_tree (set_kids c (fst r)) (upd_nodes (fun _ => snd r) s) in
  loadNavbar_resume o s = (Normal tt, exec setupNavbarFeatures s1)
  /\ st_console (exec (loadNavbar_resume o) s) = st_console s
  /\ FsetupNavbarFeatures ∈ st_calls (exec (loadNavbar_resume o) s).
Proof.
  intros Hc. cbv zeta.
  assert (Hrun : loadNavbar_resume (Resolved (Response true (inr html))) s
                 = (Normal tt,
                    exec setupNavbarFeatures
                      (upd_tree (set_kids c (fst (build_all html (st_nodes s))))
                         (upd_nodes (fun _ => snd (build_all html (st_nodes s))) s)))).
  { unfold loadNavbar_resume, try_catch, loadNavbar_try.
    cbn [await_fetch].
    unfold bind at 1. unfold ret at 1. cbn [res_ok res_text negb await].
    unfold bind at 1. unfold ret at 1.
    unfold bind at 1. unfold getElementById at 1. unfold gets at 1.
    rewrite Hc. unfold bind at 1. cbn [set_innerHTML]. unfold modify at 1.
    cbv zeta. unfold exec.
    pose proof (setupNavbarFeatures_normal
                  (upd_tree (set_kids c (fst (build_all html (st_nodes s))))
                     (upd_nodes (fun _ => snd (build_all html (st_nodes s))) s))) as Hn.
    destruct (setupNavbarFeatures _) as [[[]|e] q]; [reflexivity|discriminate Hn]. }
  split; [exact Hrun|]. split.
  - unfold exec at 1. rewrite Hrun. cbn [snd]. unfold exec.
    rewrite setup_navbar_console. reflexivity.
  - unfold exec at 1. rewrite Hrun. cbn [snd].
    rewrite setup_navbar_calls. apply elem_of_app. right.
    apply list_elem_of_singleton. reflexivity.
Qed.

Lemma navbar_injected_witness :
  st_console (exec (loadNavbar_resume fetch_ok) (loaded sample_page)) = [].
Proof.
  exact (proj1 (proj2 (navbar_injected (loaded sample_page) sample_navbar 7
                         ltac:(vm_compute; reflexivity)))).
Defined.

(** Line 14.  When the request succeeds but the page has no element with id
    "navbar-container", the assignment throws; [loadNavbar] catches the
    [TypeError] and logs it, and that is all: [setupNavbarFeatures] is not
    called, so no navbar listener is registered and the stored theme is not
    applied. *)
Theorem navbar_without_container (s : state) (html : list ftree) :
  by_id s (lit "navbar-container") = None ->
  loadNavbar_resume (Resolved (Response true (inr html))) s
  = (Normal tt,
     upd_console (fun l => l ++ [(lit "Navbar load error:", TypeError)]) s).
Proof.
  intros Hc. unfold loadNavbar_resume, try_catch, loadNavbar_try.
  cbn [await_fetch].
  unfold bind at 1. unfold ret at 1. cbn [res_ok res_text negb await].
  unfold bind at 1. unfold ret at 1.
  unfold bind at 1. unfold getElementById at 1. unfold gets at 1.
  rewrite Hc. reflexivity.
Qed.

Lemma navbar_without_container_witness :
  st_calls (exec (loadNavbar_resume fetch_ok)
              (upd_tree (remove_node 7) (loaded sample_page)))
  = st_calls (loaded sample_page).
Proof.
  unfold exec, fetch_ok.
  rewrite (navbar_without_container (upd_tree (remove_node 7) (loaded sample_page))
             sample_navbar ltac:(vm_compute; reflexivity)).
  reflexivity.
Defined.

(** ** Page load, in every interleaving *)

Ltac unfold_setup :=
  unfold after_navbar, fallback, setupFadeOnScroll, setupLightbox,
    createLightboxRoot, setupMenuFilter, setupContactForm, setupLazyImages,
    setupNavbarFeatures, highlight_active_links, trailing, init,
    loadNavbar_start, fetch, enter, observe, addEventListener, console_error.

Lemma fallback_uncaught : preserves st_uncaught fallback.
Proof. unfold_setup. unfold_script. frame_walk. Qed.

Lemma loadNavbar_uncaught o : preserves st_uncaught (loadNavbar_resume o).
Proof.
  unfold loadNavbar_resume, loadNavbar_try, await_fetch, await, set_innerHTML.
  unfold_setup. unfold_script. frame_walk.
Qed.

Lemma script_uncaught : preserves st_uncaught script.
Proof. unfold script. unfold_setup. unfold_script. frame_walk. Qed.

Lemma callback_fallback_uncaught q :
  exists q', callback fallback q = (Normal tt, q')
             /\ st_uncaught q' = st_uncaught q.
Proof.
  destruct (fallback_spec q) as (q1 & H1 & _).
  exists q1. unfold callback, try_catch. rewrite H1. split; [reflexivity|].
  pose proof (fallback_uncaught q) as H. rewrite H1 in H. exact H.
Qed.

Lemma forEach_fallbacks_uncaught (ts : list timer) :
  Forall (fun t => t_cb t = TFallback) ts ->
  forall q, st_uncaught (snd (forEach ts (fun t => callback (run_timer (t_cb t))) q))
            = st_uncaught q.
Proof.
  induction 1 as [|t ts Ht Hts IH]; intros q; [reflexivity|].
  cbn [forEach]. unfold bind. rewrite Ht. cbn [run_timer].
  destruct (callback_fallback_uncaught q) as (q1 & -> & Hq).
  rewrite IH. exact Hq.
Qed.

Lemma load_step_uncaught e s :
  load_event e = true -> loading (ctl s) ->
  st_uncaught (run_event e s) = st_uncaught s.
Proof.
  intros He [Hr Ht]. destruct e; try discriminate He; unfold run_event, exec.
  - cbn [step]. unfold bind at 1. unfold gets at 1.
    destruct (st_pending s); [|reflexivity].
    unfold bind at 1. unfold modify at 1. unfold bind at 1.
    pose proof (loadNavbar_resume_normal o (upd_pending (fun _ => false) s)) as Hn.
    pose proof (loadNavbar_uncaught o (upd_pending (fun _ => false) s)) as Hu.
    destruct (loadNavbar_resume o _) as [[[]|e] q]; cbn [fst snd] in *;
      [|discriminate Hn].
    change (after_navbar) with fallback.
    destruct (callback_fallback_uncaught q) as (q1 & -> & Hq).
    cbn [snd]. rewrite Hq. exact Hu.
  - rewrite dcl_run by exact Hr. reflexivity.
  - rewrite advance_run. cbn [snd].
    rewrite forEach_fallbacks_uncaught; [reflexivity|].
    apply Forall_filter_bool. exact Ht.
Qed.

Lemma script_normal s : fst (script s) = Normal tt.
Proof.
  assert (Hc : calm trailing).
  { unfold trailing, getElementById, querySelector.
    calm_walk; apply calm_highlight. }
  unfold script.
  rewrite (bind_normal init _ s tt
             (upd_listeners (fun l => l ++ [ready_listener])
                (upd_pending (fun _ => true)
                   (upd_fetches (fun l => l ++ [lit "navbar.html"]) s))))
    by reflexivity.
  destruct (Hc (upd_listeners (fun l => l ++ [ready_listener])
                  (upd_pending (fun _ => true)
                     (upd_fetches (fun l => l ++ [lit "navbar.html"]) s))))
    as ([] & q & -> & _).
  reflexivity.
Qed.

(** Lines 187-228.  The script runs to its end without throwing, and a page
    load raises no uncaught error, whatever the request settles to and
    however the events interleave: [loadNavbar] catches its own errors and no
    initialiser throws. *)
Theorem load_raises_nothing (p : page) (es : list env_event) :
  forallb load_event es = true ->
  fst (script (initial p)) = Normal tt
  /\ st_uncaught (run es (loaded p)) = [].
Proof.
  intros He. split; [apply script_normal|].
  assert (H0 : st_uncaught (loaded p) = [])
    by (unfold loaded, exec; rewrite script_uncaught; reflexivity).
  assert (Hl : loading (ctl (loaded p)))
    by (rewrite ctl_loaded; apply control0_loading).
  revert He H0 Hl. generalize (loaded p).
  induction es as [|e es IH]; intros s He H0 Hl; [exact H0|].
  cbn [forallb] in He. apply andb_prop in He. destruct He as [He Hes].
  cbn [run fold_left].
  change (fold_left (fun s e => run_event e s) es (run_event e s))
    with (run es (run_event e s)).
  apply IH; [exact Hes| |].
  - rewrite load_step_uncaught by assumption. exact H0.
  - rewrite load_step by assumption. apply astep_loading. exact Hl.
Qed.

Lemma load_raises_nothing_witness :
  st_uncaught (run (fallback_then_fetch fetch_offline 10 90) (loaded sample_page)) = [].
Proof.
  exact (proj2 (load_raises_nothing sample_page
                  (fallback_then_fetch fetch_offline 10 90) eq_refl)).
Defined.

Lemma batches_snoc k : batches k ++ features = batches (S k).
Proof.
  unfold batches. induction k as [|k IH]; [reflexivity|].
  cbn [replicate concat] in *. rewrite <- app_assoc, IH. reflexivity.
Qed.

Lemma batches_app j k : batches j ++ batches k = batches (j + k).
Proof.
  unfold batches. induction j as [|j IH]; [reflexivity|].
  cbn [replicate concat Nat.add]. rewrite <- app_assoc, IH. reflexivity.
Qed.

Lemma features_fold (ts : list timer) :
  forall c,
    fold_left (fun c _ => c_features c) ts c
    = Control (c_now c) (c_pending c) (c_fetches c) (c_timers c) (c_ready c)
        (c_lightbox c + length ts) (c_calls c ++ batches (length ts)).
Proof.
  induction ts as [|t ts IH]; intros c; cbn [fold_left length].
  - rewrite Nat.add_0_r. unfold batches. cbn [replicate concat].
    rewrite app_nil_r. destruct c; reflexivity.
  - rewrite IH. unfold c_features. cproj. rewrite <- app_assoc.
    change (features ++ batches (length ts)) with (batches (S (length ts))).
    replace (S (c_lightbox c) + length ts)%nat
      with (c_lightbox c + S (length ts))%nat by lia.
    reflexivity.
Qed.

Lemma insert_timer_length t l : length (insert_timer t l) = S (length l).
Proof.
  induction l as [|u l IH]; [reflexivity|].
  cbn [insert_timer]. destruct (t_due u <=? t_due t); cbn [length]; [rewrite IH|];
    reflexivity.
Qed.

Lemma filter_split_length {A} (f : A -> bool) l :
  (length (List.filter f l) + length (List.filter (fun x => negb (f x)) l))%nat
  = length l.
Proof.
  induction l as [|x l IH]; [reflexivity|].
  cbn [List.filter]. destruct (f x); cbn [negb length]; lia.
Qed.

Lemma astep_accounting e c k d :
  c_calls c = batches k -> c_lightbox c = k -> (k + outstanding c)%nat = d ->
  exists k',
    c_calls (astep e c) = batches k' /\ c_lightbox (astep e c) = k'
    /\ (k' + outstanding (astep e c))%nat
       = (d + if is_ready_event e then 1 else 0)%nat.
Proof.
  intros Hc Hl Hd. unfold outstanding in *.
  destruct e; cbn [astep is_ready_event];
    try (exists k; repeat split; [assumption|assumption|lia]).
  - destruct (c_pending c) eqn:Hp.
    + exists (S k). unfold c_features. cproj. rewrite Hc, Hl, batches_snoc.
      repeat split. lia.
    + exists k. rewrite Hp. repeat split; [assumption|assumption|lia].
  - exists k. cproj. rewrite insert_timer_length.
    repeat split; [assumption|assumption|lia].
  - rewrite features_fold. cproj.
    exists (k + length (List.filter (due (c_now c + dt)) (c_timers c)))%nat.
    rewrite Hc, Hl, batches_app. repeat split.
    pose proof (filter_split_length (due (c_now c + dt)) (c_timers c)). lia.
Qed.

Lemma arun_accounting es :
  forall c k d,
    c_calls c = batches k -> c_lightbox c = k -> (k + outstanding c)%nat = d ->
    exists k',
      c_calls (arun es c) = batches k' /\ c_lightbox (arun es c) = k'
      /\ (k' + outstanding (arun es c))%nat = (d + ready_count es)%nat.
Proof.
  induction es as [|e es IH]; intros c k d Hc Hl Hd.
  - exists k. unfold ready_count. cbn. repeat split; [assumption|assumption|lia].
  - destruct (astep_accounting e c k d Hc Hl Hd) as (k1 & H1 & H2 & H3).
    destruct (IH (astep e c) k1 _ H1 H2 H3) as (k2 & G1 & G2 & G3).
    exists k2. cbn [arun fold_left]. split; [exact G1|]. split; [exact G2|].
    unfold arun in G3. rewrite G3. unfold ready_count. cbn [List.filter].
    destruct (is_ready_event e); cbn [length]; lia.
Qed.

Lemma ctl_accounting s c :
  ctl s = c ->
  feature_calls s = c_calls c /\ lightbox_listeners s = c_lightbox c
  /\ ((if st_pending s then 1 else 0) + length (st_timers s))%nat = outstanding c.
Proof. intros <-. repeat split; reflexivity. Qed.

(** Lines 187-207.  However the events of a page load interleave, the five
    initialisers run as whole batches, and the batches run so far together
    with those still to come, one for the pending request and one for each
    fallback timer, are one more than the times the document became ready.
    With the document ready once, the initialisers have run twice, and the
    document carries two lightbox listeners, as soon as the request has
    settled and the timer has fired, and never more often. *)
Theorem load_accounting (p : page) (es : list env_event) :
  forallb load_event es = true ->
  let s := run es (loaded p) in
  exists k,
    feature_calls s = batches k
    /\ lightbox_listeners s = k
    /\ (k + (if st_pending s then 1 else 0) + length (st_timers s))%nat
       = (1 + ready_count es)%nat.
Proof.
  intros He. cbv zeta.
  destruct (ctl_accounting _ _ (ctl_load p es He)) as (H1 & H2 & H3).
  destruct (arun_accounting es control0 0%nat 1%nat eq_refl eq_refl eq_refl)
    as (k & G1 & G2 & G3).
  exists k. rewrite H1, H2. split; [exact G1|]. split; [exact G2|].
  rewrite <- Nat.add_assoc, H3. exact G3.
Qed.

Lemma load_accounting_witness :
  exists k,
    feature_calls (run (ready_then_fetch fetch_ok 10 90) (loaded sample_page))
    = batches k.
Proof.
  destruct (load_accounting sample_page (ready_then_fetch fetch_ok 10 90) eq_refl)
    as (k & H & _).
  exists k. exact H.
Defined.

(** Lines 197-205.  While the navbar request is pending the fallback alone
    initialises the page: nothing is initialised before 90 ms have passed
    since the document became ready, and from then on every initialiser has
    run once; the request is still the only one and still pending. *)
Theorem fallback_alone (p : page) (t0 dt : N) :
  let s := run [EAdvance t0; EDomContentLoaded; EAdvance dt] (loaded p) in
  feature_calls s = (if 90 <=? dt then features else [])
  /\ lightbox_listeners s = (if 90 <=? dt then 1%nat else 0%nat)
  /\ st_pending s = true
  /\ st_fetches s = [lit "navbar.html"].
Proof.
  cbv zeta.
  pose proof (ctl_load p [EAdvance t0; EDomContentLoaded; EAdvance dt] eq_refl) as H.
  assert (Ha : arun [EAdvance t0; EDomContentLoaded; EAdvance dt] control0
               = Control (t0 + dt) true [lit "navbar.html"]
                   (if 90 <=? dt then [] else [Timer (t0 + 90) TFallback])
                   [ready_listener]
                   (if 90 <=? dt then 1%nat else 0%nat)
                   (if 90 <=? dt then features else [])).
  { unfold arun, control0. cbn -[N.add N.leb lit features due].
    rewrite !N.add_0_l, due_shift. destruct (90 <=? dt); reflexivity. }
  rewrite Ha in H. clear Ha.
  assert (Hp : forall s c, ctl s = c ->
                 st_pending s = c_pending c /\ st_fetches s = c_fetches c)
    by (intros s c <-; split; reflexivity).
  destruct (ctl_accounting _ _ H) as (H1 & H2 & _).
  destruct (Hp _ _ H) as (H3 & H4).
  repeat split; assumption.
Qed.

(** ** What a chip click leaves alone *)

Lemma chip_element_other filters items btn f n e :
  el_tag (chip_element filters items btn f n e) = el_tag e
  /\ el_text (chip_element filters items btn f n e) = el_text e
  /\ el_value (chip_element filters items btn f n e) = el_value e
  /\ el_default (chip_element filters items btn f n e) = el_default e.
Proof.
  unfold chip_element.
  destruct (bool_decide (n ∈ filters)), (bool_decide (n = btn)),
    (bool_decide (n ∈ items)); repeat split; reflexivity.
Qed.

Lemma chip_element_display filters items btn f n e :
  n ∉ items -> el_display (chip_element filters items btn f n e) = el_display e.
Proof.
  intros H. unfold chip_element. rewrite (bool_decide_eq_false_2 _ H).
  destruct (bool_decide (n ∈ filters)), (bool_decide (n = btn)); reflexivity.
Qed.

Lemma chip_element_classes filters items btn f n e c :
  c <> lit "active" ->
  c ∈ el_classes (chip_element filters items btn f n e) <-> c ∈ el_classes e.
Proof.
  intros Hc. unfold chip_element.
  destruct (bool_decide (n ∈ filters)), (bool_decide (n = btn)),
    (bool_decide (n ∈ items)); unfold show_for; sproj;
    rewrite ?elem_of_cl_add, ?elem_of_cl_remove; tauto.
Qed.

Lemma chip_element_outside filters items btn f n e :
  n ∉ filters -> n <> btn -> n ∉ items ->
  chip_element filters items btn f n e = e.
Proof.
  intros H1 H2 H3. unfold chip_element.
  rewrite (bool_decide_eq_false_2 _ H1), (bool_decide_eq_false_2 _ H2),
    (bool_decide_eq_false_2 _ H3). reflexivity.
Qed.

(** Lines 140-148.  A chip click writes class lists and inline display and
    nothing else: the tree, the listeners, the timers, the theme and every
    element's attributes, text and value are as before; no class other than
    "active" is added or removed anywhere, display changes on the captured
    items only, and an element that is neither a captured chip, nor the
    clicked button, nor a captured item is untouched. *)
Theorem chip_click_frame (s : state) (filters items : list node) (btn : node)
    (ev : event) :
  let s' := exec (run_handler (HChip filters items btn) ev) s in
  (st_tree s' = st_tree s /\ st_listeners s' = st_listeners s
   /\ st_timers s' = st_timers s /\ st_html s' = st_html s
   /\ st_storage s' = st_storage s)
  /\ (forall n, attr_of s' n = attr_of s n
                /\ text_of s' n = text_of s n
                /\ value_at s' n = value_at s n)
  /\ (forall n c, c <> lit "active" -> (c ∈ classes_of s' n <-> c ∈ classes_of s n))
  /\ (forall n, n ∉ items -> display_of s' n = display_of s n)
  /\ (forall n, n ∉ filters -> n <> btn -> n ∉ items ->
                st_nodes s' !! n = st_nodes s !! n).
Proof.
  cbv zeta. cbn [run_handler].
  destruct (chip_frame filters items btn s) as [F HF].
  split; [rewrite HF; repeat split; reflexivity|]. clear F HF.
  split; [|split; [|split]].
  - intros n. unfold attr_of, text_of, value_at. rewrite chip_lookup.
    destruct (st_nodes s !! n) as [e|]; cbn [fmap option_fmap option_map];
      [|repeat split; reflexivity].
    rewrite chip_element_attrs.
    destruct (chip_element_other filters items btn
                (attr_of s btn (lit "data-filter")) n e) as (_ & -> & -> & _).
    repeat split; reflexivity.
  - intros n c Hc. unfold classes_of. rewrite chip_lookup.
    destruct (st_nodes s !! n) as [e|]; cbn [fmap option_fmap option_map];
      [|reflexivity].
    apply chip_element_classes. exact Hc.
  - intros n Hn. unfold display_of. rewrite chip_lookup.
    destruct (st_nodes s !! n) as [e|]; cbn [fmap option_fmap option_map];
      [|reflexivity].
    apply chip_element_display. exact Hn.
  - intros n H1 H2 H3. rewrite chip_lookup.
    destruct (st_nodes s !! n) as [e|]; cbn [fmap option_fmap option_map];
      [|reflexivity].
    rewrite chip_element_outside by assumption. reflexivity.
Qed.

(** ** Feedback timers *)

Lemma text_of_set_text_other n m t s :
  m <> n -> text_of (upd_node n (with_text t) s) m = text_of s m.
Proof.
  intros H. unfold text_of. sproj. rewrite lookup_alter_ne by congruence.
  reflexivity.
Qed.

Lemma clear_step x q fb :
  is_Some (st_nodes q !! fb) ->
  fst (callback (run_timer (TClearFeedback x)) q) = Normal tt
  /\ is_Some (st_nodes (snd (callback (run_timer (TClearFeedback x)) q)) !! fb)
  /\ text_of (snd (callback (run_timer (TClearFeedback x)) q)) fb
     = if bool_decide (x = Some fb) then [] else text_of q fb.
Proof.
  intros Hfb. split; [apply callback_normal|].
  unfold callback, try_catch. cbn [run_timer].
  destruct x as [n|]; cbn [set_textContent_of].
  - rewrite set_textContent_run. cbn [snd]. split.
    + sproj. rewrite lookup_alter. case_decide; [subst n|exact Hfb].
      destruct Hfb as [e ->]. eauto.
    + case_bool_decide as Hx.
      * injection Hx as ->. apply text_of_set_text. exact Hfb.
      * rewrite text_of_set_text_other by congruence. reflexivity.
  - unfold throw, modify. cbn [snd]. split; [exact Hfb|].
    rewrite bool_decide_eq_false_2 by discriminate. reflexivity.
Qed.

Lemma clear_loop fb d (ts : list timer) :
  Forall (fun t => t_cb t <> TFallback) ts ->
  forall q,
    is_Some (st_nodes q !! fb) ->
    Timer d (TClearFeedback (Some fb)) ∈ ts \/ text_of q fb = [] ->
    text_of (snd (forEach ts (fun t => callback (run_timer (t_cb t))) q)) fb = [].
Proof.
  induction 1 as [|t ts Ht Hts IH]; intros q Hfb Hor.
  - destruct Hor as [Hin|Htx]; [apply elem_of_nil in Hin; contradiction|exact Htx].
  - cbn [forEach]. unfold bind.
    destruct (t_cb t) as [x|] eqn:Hcb; [|contradiction].
    destruct (clear_step x q fb Hfb) as (Hn & Hex & Htx).
    destruct (callback (run_timer (TClearFeedback x)) q) as [[[]|e] q1];
      cbn [fst snd] in *; [|discriminate Hn].
    apply IH; [exact Hex|].
    destruct Hor as [Hin|Hq].
    + apply elem_of_cons in Hin. destruct Hin as [Heq|Hin]; [|left; exact Hin].
      right. rewrite Htx. subst t. cbn [t_cb] in Hcb. injection Hcb as <-.
      rewrite bool_decide_eq_true_2 by reflexivity. reflexivity.
    + right. rewrite Htx, Hq. destruct (bool_decide _); reflexivity.
Qed.

(** Line 175.  No timer is ever cancelled: once a pending clear-feedback timer
    comes due the feedback text is empty, whatever was written to it since the
    timer was set.  A message shown after an acknowledgement is therefore
    cleared by the acknowledgement's timer, less than 6000 ms after it
    appeared. *)
Theorem pending_clear_fires (q : state) (fb : node) (d dt : N) :
  is_Some (st_nodes q !! fb) ->
  Timer d (TClearFeedback (Some fb)) ∈ st_timers q ->
  d <= st_now q + dt ->
  Forall (fun t => t_cb t <> TFallback) (st_timers q) ->
  text_of (run_event (EAdvance dt) q) fb = [].
Proof.
  intros Hfb Hin Hd Hts. unfold run_event, exec. rewrite advance_run.
  apply (clear_loop fb d).
  - apply Forall_filter_bool. exact Hts.
  - exact Hfb.
  - left. apply list_elem_of_In, List.filter_In. split.
    + apply list_elem_of_In. exact Hin.
    + unfold due. cbn [t_due]. apply N.leb_le. exact Hd.
Qed.

Lemma pending_clear_fires_witness :
  text_of (run [ESubmit 12; EAdvance 5000; ESubmit 12]
             (sample_filled "Jane" "jane@example.com" "Hello")) 16 = msg_fill
  /\ text_of (run_event (EAdvance 1000)
                (run [ESubmit 12; EAdvance 5000; ESubmit 12]
                   (sample_filled "Jane" "jane@example.com" "Hello"))) 16 = [].
Proof.
  split; [vm_compute; reflexivity|].
  apply (pending_clear_fires _ 16 6000 1000).
  - vm_compute. eauto.
  - apply list_elem_of_In. vm_compute. left. reflexivity.
  - vm_compute. discriminate.
  - vm_compute. repeat constructor; discriminate.
Defined.

(** ** Several controls of one name *)

(** Lines 159-163.  When several controls of the form share the name of a
    field, [form.nm] is a list of them, whose value is that of its first
    checked radio button and "" without one.  The listener then reads the
    field as empty, whatever the controls hold, and writes the fill-in
    message. *)
Theorem several_controls_read_blank (s : state) (form fb : node) (ev : event)
    (nm : jsstr) (l : list node) :
  nm ∈ [lit "name"; lit "email"; lit "message"] ->
  form_item s form nm = Several l ->
  List.find (is_checked_radio s) l = None ->
  is_Some (field s form (lit "name")) ->
  is_Some (field s form (lit "email")) ->
  is_Some (field s form (lit "message")) ->
  field s form nm = Some []
  /\ run_handler (HSubmit form (Some fb)) ev s
     = (Normal tt, with_feedback fb msg_fill s).
Proof.
  intros Hnm Hit Hnone [x1 Hx1] [x2 Hx2] [x3 Hx3].
  assert (Hf : field s form nm = Some []).
  { unfold field. rewrite Hit. cbn [item_value]. unfold radio_value.
    rewrite Hnone. reflexivity. }
  split; [exact Hf|].
  cbn [run_handler]. rewrite on_submit_run, Hx1, Hx2, Hx3.
  unfold submit_decision.
  assert (Hor : is_empty x1 || is_empty x2 || is_empty x3 = true).
  { apply elem_of_cons in Hnm. destruct Hnm as [->|Hnm].
    - rewrite Hf in Hx1. injection Hx1 as <-. reflexivity.
    - apply elem_of_cons in Hnm. destruct Hnm as [->|Hnm].
      + rewrite Hf in Hx2. injection Hx2 as <-.
        cbn [is_empty]. rewrite orb_true_r. reflexivity.
      + apply list_elem_of_singleton in Hnm. subst nm.
        rewrite Hf in Hx3. injection Hx3 as <-.
        cbn [is_empty]. rewrite orb_true_r. reflexivity. }
  rewrite Hor. reflexivity.
Qed.

Lemma several_controls_read_blank_witness :
  value_at sample_two_emails 14 = lit "jane@example.com"
  /\ text_of (exec (run_handler (HSubmit 12 (Some 16)) (a_submit 12))
                sample_two_emails) 16
     = msg_fill.
Proof.
  split; [vm_compute; reflexivity|].
  unfold exec.
  rewrite (proj2 (several_controls_read_blank sample_two_emails 12 16 (a_submit 12)
                    (lit "email") [14; 100]
                    ltac:(apply elem_of_cons; right; apply elem_of_cons; left; reflexivity)
                    ltac:(vm_compute; reflexivity)
                    ltac:(vm_compute; reflexivity)
                    ltac:(vm_compute; eauto)
                    ltac:(vm_compute; eauto)
                    ltac:(vm_compute; eauto))).
  vm_compute. reflexivity.
Defined.

(** ** The submit listener, run twice *)

Lemma find_ext_all {A} (f g : A -> bool) (l : list A) :
  (forall x, f x = g x) -> List.find f l = List.find g l.
Proof.
  intros H. induction l as [|x l IH]; [reflexivity|].
  cbn [List.find]. rewrite H, IH. reflexivity.
Qed.

Lemma filter_ext_all {A} (f g : A -> bool) (l : list A) :
  (forall x, f x = g x) -> List.filter f l = List.filter g l.
Proof.
  intros H. induction l as [|x l IH]; [reflexivity|].
  cbn [List.filter]. rewrite H, IH. reflexivity.
Qed.

(** *** States of one shape have the same forms *)

Section Shape.

Context (q s : state) (Hshape : shape q = shape s).

Lemma shape_tree : st_tree q = st_tree s.
Proof. exact (f_equal fst Hshape). Qed.

Lemma shape_lookup n :
  (fun e => (el_tag e, el_attrs e)) <$> st_nodes q !! n
  = (fun e => (el_tag e, el_attrs e)) <$> st_nodes s !! n.
Proof.
  pose proof (f_equal snd Hshape) as H. cbn [shape snd] in H.
  rewrite <- !lookup_fmap, H. reflexivity.
Qed.

Lemma shape_tag n : tag_of q n = tag_of s n.
Proof.
  unfold tag_of. pose proof (shape_lookup n) as H.
  destruct (st_nodes q !! n), (st_nodes s !! n); cbn in H; congruence.
Qed.

Lemma shape_attr n k : attr_of q n k = attr_of s n k.
Proof.
  unfold attr_of. pose proof (shape_lookup n) as H.
  destruct (st_nodes q !! n), (st_nodes s !! n); cbn in H; congruence.
Qed.

Lemma shape_is_form n : is_form q n = is_form s n.
Proof. unfold is_form. rewrite shape_tag. reflexivity. Qed.

Lemma shape_by_id i : by_id q i = by_id s i.
Proof.
  unfold by_id. rewrite shape_tree. apply find_ext_all. intros n.
  unfold has_id. rewrite shape_attr. reflexivity.
Qed.

Lemma shape_owner n : form_owner q n = form_owner s n.
Proof.
  unfold form_owner. rewrite shape_attr, shape_tree.
  destruct (attr_of s n (lit "form")) as [i|].
  - rewrite shape_by_id. destruct (by_id s i); [|reflexivity].
    rewrite shape_is_form. reflexivity.
  - destruct (path_to n (st_tree s)) as [[|x up]|]; try reflexivity.
    apply find_ext_all. intros m. apply shape_is_form.
Qed.

Lemma shape_named form nm n : named q form nm n = named s form nm n.
Proof.
  unfold named, owned. rewrite shape_owner. pose proof (shape_lookup n) as H.
  destruct (st_nodes q !! n) as [e1|], (st_nodes s !! n) as [e2|];
    cbn in H; try congruence.
  injection H as Ht Ha.
  unfold is_listed, is_image_button, type_is, has_name. rewrite Ht, Ha.
  reflexivity.
Qed.

Lemma shape_named_img nm n : named_img q nm n = named_img s nm n.
Proof.
  unfold named_img. pose proof (shape_lookup n) as H.
  destruct (st_nodes q !! n) as [e1|], (st_nodes s !! n) as [e2|];
    cbn in H; try congruence.
  injection H as Ht Ha. unfold has_name. rewrite Ht, Ha. reflexivity.
Qed.

Lemma shape_form_item form nm : form_item q form nm = form_item s form nm.
Proof.
  unfold form_item. rewrite shape_is_form, shape_tree.
  rewrite (filter_ext_all _ _ _ (shape_named form nm)).
  rewrite (filter_ext_all _ _ _ (shape_named_img nm)).
  reflexivity.
Qed.



End Shape.

Lemma shape_with_text n t s :
  set_kids n [] (st_tree s) = st_tree s ->
  shape (upd_node n (with_text t) (upd_tree (set_kids n []) s)) = shape s.
Proof.
  intros Hk. unfold shape. sproj. rewrite Hk. f_equal.
  apply map_eq. intros i. rewrite !lookup_fmap, lookup_alter.
  case_decide; [subst i|reflexivity]. destruct (st_nodes s !! n); reflexivity.
Qed.




Lemma single_output_owned s form nm n :
  form_item s form nm = Single n ->
  tag_of s n = lit "output" ->
  n ∈ reset_outputs s form.
Proof.
  unfold form_item. intros Hit Htag.
  destruct (is_form s form); [|discriminate].
  destruct (List.filter (named s form nm) (preorder (st_tree s)))
    as [|a [|b l]] eqn:Hf.
  - destruct (List.filter (named_img s nm) (descendants form (st_tree s)))
      as [|a [|b l]] eqn:Hg; try discriminate.
    injection Hit as ->.
    assert (Hin : In n (List.filter (named_img s nm) (descendants form (st_tree s))))
      by (rewrite Hg; left; reflexivity).
    apply filter_In in Hin. destruct Hin as [_ Hi].
    unfold named_img in Hi. unfold tag_of in Htag.
    destruct (st_nodes s !! n) as [e|]; [|discriminate].
    apply andb_true_iff in Hi. destruct Hi as [Hi _].
    apply bool_decide_eq_true_1 in Hi. rewrite Hi in Htag. discriminate.
  - injection Hit as ->.
    assert (Hin : In n (List.filter (named s form nm) (preorder (st_tree s))))
      by (rewrite Hf; left; reflexivity).
    apply filter_In in Hin. destruct Hin as [Hp Hi].
    apply list_elem_of_In. unfold reset_outputs. apply filter_In.
    split; [exact Hp|]. unfold is_output. rewrite Htag.
    unfold named in Hi. destruct (st_nodes s !! n); [|discriminate].
    apply andb_true_iff in Hi. destruct Hi as [_ ->]. reflexivity.
  - discriminate.
Qed.

(** Writing a feedback message into an element that holds text only changes
    no reading of a form that owns no output. *)
Lemma field_with_feedback s form fb msg nm :
  set_kids fb [] (st_tree s) = st_tree s ->
  reset_outputs s form = [] ->
  field (with_feedback fb msg s) form nm = field s form nm.
Proof.
  intros Hk Hout.
  assert (Hshape : shape (with_feedback fb msg s) = shape s).
  { unfold with_feedback.
    rewrite (shape_with_text fb msg (upd_prevented (fun _ => true) s)) by exact Hk.
    reflexivity. }
  assert (Hlook : forall n,
             st_nodes (with_feedback fb msg s) !! n
             = (if bool_decide (n = fb) then with_text msg else id) <$> st_nodes s !! n).
  { intros n. unfold with_feedback. sproj. rewrite lookup_alter.
    destruct (bool_decide_reflect (n = fb)) as [Hn|Hn]; case_decide;
      try congruence; destruct (st_nodes s !! _); reflexivity. }
  unfold field. rewrite (shape_form_item _ _ Hshape).
  destruct (form_item s form nm) as [|n|l] eqn:Hit; [reflexivity| |].
  - cbn [item_value]. rewrite Hlook.
    pose proof (single_output_owned s form nm n Hit) as Hown.
    rewrite Hout in Hown. unfold tag_of in Hown.
    destruct (st_nodes s !! n) as [e|]; [|reflexivity].
    cbn [fmap option_fmap option_map].
    destruct (bool_decide_reflect (el_tag e = lit "output")) as [Ho|Ho].
    { specialize (Hown Ho). apply elem_of_nil in Hown. contradiction. }
    destruct (bool_decide (n = fb)); unfold with_text, id; cbn [el_tag el_value];
      destruct (bool_decide (el_tag e ∈ _)); try reflexivity;
      rewrite (bool_decide_eq_false_2 _ Ho); reflexivity.
  - cbn [item_value]. unfold radio_value.
    rewrite (find_ext_all (is_checked_radio (with_feedback fb msg s))
               (is_checked_radio s)).
    + destruct (List.find (is_checked_radio s) l); [|reflexivity].
      rewrite (shape_attr _ _ Hshape). reflexivity.
    + intros n. unfold is_checked_radio. rewrite Hlook.
      destruct (st_nodes s !! n) as [e|]; [|reflexivity].
      cbn [fmap option_fmap option_map].
      destruct (bool_decide (n = fb)); reflexivity.
Qed.

Lemma with_feedback_twice fb msg s :
  with_feedback fb msg (with_feedback fb msg s) = with_feedback fb msg s.
Proof.
  unfold with_feedback. state_eq.
  - apply set_kids_twice.
  - apply map_eq. intros i. destruct (decide (i = fb)) as [->|Hne].
    + rewrite !lookup_alter_eq. destruct (st_nodes s !! fb); reflexivity.
    + rewrite !lookup_alter_ne by congruence. reflexivity.
Qed.

(** Lines 157-171, with the listener registered twice.  On a form that owns
    no output, with a feedback element that holds text only: when a field is
    empty or the email fails the pattern, a second run of the listener reads
    what the first read, writes the same message again and leaves the state
    the first run left. *)
Theorem rejected_submit_repeats (s : state) (form fb : node) (ev : event)
    (name email message : jsstr) :
  field s form (lit "name") = Some name ->
  field s form (lit "email") = Some email ->
  field s form (lit "message") = Some message ->
  set_kids fb [] (st_tree s) = st_tree s ->
  reset_outputs s form = [] ->
  name = [] \/ email = [] \/ message = [] \/ re_test email_re email = false ->
  let msg := if is_empty name || is_empty email || is_empty message
             then msg_fill else msg_email in
  let s1 := exec (run_handler (HSubmit form (Some fb)) ev) s in
  run_handler (HSubmit form (Some fb)) ev s = (Normal tt, with_feedback fb msg s)
  /\ run_handler (HSubmit form (Some fb)) ev s1 = (Normal tt, s1).
Proof.
  intros Hn He Hm Hk Hout Hbad msg s1.
  assert (Hrun : forall q,
             field q form (lit "name") = Some name ->
             field q form (lit "email") = Some email ->
             field q form (lit "message") = Some message ->
             run_handler (HSubmit form (Some fb)) ev q
             = (Normal tt, with_feedback fb msg q)).
  { intros q H1 H2 H3. cbn [run_handler]. rewrite on_submit_run, H1, H2, H3.
    unfold submit_decision. subst msg.
    destruct (is_empty name || is_empty email || is_empty message) eqn:E;
      [reflexivity|].
    apply orb_false_iff in E. destruct E as [E E3].
    apply orb_false_iff in E. destruct E as [E1 E2].
    destruct Hbad as [->|[->|[->|Hre]]]; try discriminate.
    rewrite Hre. reflexivity. }
  assert (H1 : s1 = with_feedback fb msg s).
  { subst s1. unfold exec. rewrite (Hrun s Hn He Hm). reflexivity. }
  split; [exact (Hrun s Hn He Hm)|].
  rewrite H1, Hrun.
  - rewrite with_feedback_twice. reflexivity.
  - rewrite field_with_feedback by assumption. exact Hn.
  - rewrite field_with_feedback by assumption. exact He.
  - rewrite field_with_feedback by assumption. exact Hm.
Qed.

Lemma rejected_submit_repeats_witness :
  run_handler (HSubmit 12 (Some 16)) (a_submit 12)
    (exec (run_handler (HSubmit 12 (Some 16)) (a_submit 12))
       (sample_filled "Jane" "not-an-email" "Hello"))
  = (Normal tt,
     exec (run_handler (HSubmit 12 (Some 16)) (a_submit 12))
       (sample_filled "Jane" "not-an-email" "Hello")).
Proof.
  refine (proj2 (rejected_submit_repeats (sample_filled "Jane" "not-an-email" "Hello")
                   12 16 (a_submit 12) (lit "Jane") (lit "not-an-email") (lit "Hello")
                   _ _ _ _ _ _)); try (vm_compute; reflexivity).
  right. right. right. vm_compute. reflexivity.
Defined.


